(** * decision_tree: the comparison pass, the classifier generator, the
      test pipeline and the EMG loader

    A shallow embedding of
      - [decision_trees/dataset_tester.py]: [test_dataset],
        [report_performance], [generate_my_classifier],
        [_compare_with_own_classifier] and [normalise_data];
      - [decision_trees/datasets/emg_raw.py]: the class [EMGRaw], its
        arrays being [float32] arrays: floating-point numbers are rationals
        rounded to the nearest float of the format, with [inf] and [nan].

    Python code that prints, writes files, raises and mutates locals is
    modelled in a small monad [Run]: a computation yields the list of the
    events it performed, in order, and either the exception that stopped
    it or its value. *)

From Stdlib Require Import String Ascii List Bool Arith ZArith QArith Qround Qpower Lia Lqa
  DecimalString.
Import ListNotations.
Local Open Scope string_scope.
Local Open Scope list_scope.
Local Open Scope nat_scope.

Set Implicit Arguments.

(** ** Exceptions and the [Run] monad *)

(** The exceptions the modelled code can raise. *)
Inductive Exception : Type :=
| ValueError (msg : string)
| IndexError.

Section RunMonad.
Variable Event : Type.

(** Events performed so far, then the exception or the value. *)
Definition Run (A : Type) : Type := (list Event * (Exception + A))%type.

Definition ret {A} (a : A) : Run A := ([], inr a).

Definition raise {A} (e : Exception) : Run A := ([], inl e).

Definition emit (ev : Event) : Run unit := ([ev], inr tt).

Definition bind {A B} (c : Run A) (f : A -> Run B) : Run B :=
  match c with
  | (t, inl e) => (t, inl e)
  | (t, inr a) => let (t', r) := f a in (t ++ t', r)
  end.

Definition trace {A} (c : Run A) : list Event := fst c.
Definition outcome {A} (c : Run A) : Exception + A := snd c.

(** [for x in xs: s = body(x, s)], the locals the body updates being [s]. *)
Fixpoint for_each {A S} (xs : list A) (body : A -> S -> Run S) (s : S) : Run S :=
  match xs with
  | [] => ret s
  | x :: xs' => bind (body x s) (for_each xs' body)
  end.

(** [l[i]] for [0 <= i]: an [IndexError] past the end. *)
Definition getitem {A} (l : list A) (i : nat) : Run A :=
  match nth_error l i with
  | Some a => ret a
  | None => raise IndexError
  end.

Fixpoint replace_nth {A} (l : list A) (i : nat) (a : A) : list A :=
  match l, i with
  | [], _ => []
  | _ :: l', O => a :: l'
  | x :: l', S i' => x :: replace_nth l' i' a
  end.

(** [l[i] = a] for [0 <= i]: an [IndexError] past the end. *)
Definition setitem {A} (l : list A) (i : nat) (a : A) : Run (list A) :=
  if i <? length l then ret (replace_nth l i a) else raise IndexError.
End RunMonad.

Arguments ret {Event A} a.
Arguments raise {Event A} e.
Arguments emit {Event} ev.
Arguments getitem {Event A} l i.
Arguments setitem {Event A} l i a.

Declare Scope run_scope.
Delimit Scope run_scope with run.
Notation "x <- c ;; k" := (bind c (fun x => k))
  (at level 61, c at next level, right associativity) : run_scope.
Notation "c ;; k" := (bind c (fun _ => k))
  (at level 61, right associativity) : run_scope.
Notation "' pat <- c ;; k" := (bind c (fun x => match x with pat => k end))
  (at level 61, pat pattern, c at next level, right associativity) : run_scope.
Local Open Scope run_scope.

(** [range(0, n)] *)
Definition range (n : nat) : list nat := seq 0 n.

(** ** dataset_tester.py: [_compare_with_own_classifier] *)

Section Compare.
(** The type of a prediction and of a target value; [!=] on it is the
    negation of equality. *)
Variable Label : Type.
Variable Label_eq_dec : forall a b : Label, {a = b} + {a <> b}.

(** What a [print] call writes: one constructor per format in the source. *)
Inductive Text : Type :=
| DifferenceBetweenVersions                        (* "Difference between versions!" *)
| GroundTrue (target : Label)                      (* "Ground true: " + str(test_target[j]) *)
| VariantLine (name : string) (predicted : Label)  (* f"{results_names[i]}: {results[i][j]}" *)
| AllResultsWereTheSame                            (* "All results were the same" *)
| NumberOfErrors (name : string) (errors : nat).   (* f"Number of {results_names[i]} errors: {number_of_errors[i]}" *)

Inductive CompareEvent : Type :=
| OpenForWriting (file : string)  (* open(file, "w") *)
| PrintToFile (t : Text)          (* print(t, file=comparision_file) *)
| Print (t : Text).               (* print(t) *)

Definition ne (a b : Label) : bool := if Label_eq_dec a b then false else true.

(** The locals the loops of lines 182-195 update; the counts of
    [np.zeros(len(results))] are natural numbers. *)
Record Locals : Type := mkLocals {
  number_of_errors : list nat;
  flag_no_errors : bool;
  flag_iteration_error : bool
}.

Section Body.
Variable results : list (list Label).
Variable results_names : list string.
Variable test_target : list Label.
Variable flag_save_details_to_file : bool.

(** Lines 186-189, for one [i] and one [j]. *)
Definition check_variant (j i : nat) (s : Locals) : Run CompareEvent Locals :=
  r <- getitem results i ;;
  p <- getitem r j ;;
  t <- getitem test_target j ;;
  if ne p t then
    n <- getitem (number_of_errors s) i ;;
    errs <- setitem (number_of_errors s) i (n + 1) ;;
    ret (mkLocals errs false true)
  else ret s.

(** Lines 194-195, for one [i]. *)
Definition print_variant (j i : nat) (_ : unit) : Run CompareEvent unit :=
  name <- getitem results_names i ;;
  r <- getitem results i ;;
  p <- getitem r j ;;
  emit (PrintToFile (VariantLine name p)).

(** Lines 183-195: the body of the loop over the samples. *)
Definition check_sample (j : nat) (s : Locals) : Run CompareEvent Locals :=
  s' <- for_each (range (length results)) (check_variant j)
          (mkLocals (number_of_errors s) (flag_no_errors s) false) ;;
  if flag_iteration_error s' && flag_save_details_to_file then
    emit (PrintToFile DifferenceBetweenVersions) ;;
    t <- getitem test_target j ;;
    emit (PrintToFile (GroundTrue t)) ;;
    for_each (range (length results)) (print_variant j) tt ;;
    ret s'
  else ret s'.

(** Lines 175-195: the locals when the loop over the samples ends. *)
Definition compare_main_loop (path : string) : Run CompareEvent Locals :=
  (if flag_save_details_to_file
   then emit (OpenForWriting (path ++ "/comparision_details.txt")%string)
   else ret tt) ;;
  for_each (range (length test_target)) check_sample
    (mkLocals (repeat 0 (length results)) true false).

(** Line 201, for one [i]. *)
Definition print_errors (errs : list nat) (i : nat) (_ : unit) : Run CompareEvent unit :=
  name <- getitem results_names i ;;
  n <- getitem errs i ;;
  emit (Print (NumberOfErrors name n)).

Definition _compare_with_own_classifier (path : string) : Run CompareEvent unit :=
  s <- compare_main_loop path ;;
  if flag_no_errors s then emit (Print AllResultsWereTheSame)
  else for_each (range (length results)) (print_errors (number_of_errors s)) tt.
End Body.
End Compare.

Arguments DifferenceBetweenVersions {Label}.
Arguments AllResultsWereTheSame {Label}.
Arguments NumberOfErrors {Label} name errors.
Arguments OpenForWriting {Label} file.

(** Events of a callee seen as events of its caller. *)
Definition lift {E E' A} (f : E -> E') (c : Run E A) : Run E' A :=
  (map f (fst c), snd c).

(** ** dataset_tester.py: [generate_my_classifier] and [test_dataset] *)

(** The classes [isinstance] is asked about at lines 153 and 156, the third
    class the module imports, and any other class, with its base class when
    it has one. *)
Inductive PyClass : Type :=
| DecisionTreeClassifier
| RandomForestClassifier
| RandomForestRegressor
| OtherClass (name : string)
| Subclass (name : string) (base : PyClass).

(** [issubclass(c, DecisionTreeClassifier)] *)
Fixpoint is_DecisionTreeClassifier (c : PyClass) : bool :=
  match c with
  | DecisionTreeClassifier => true
  | Subclass _ base => is_DecisionTreeClassifier base
  | _ => false
  end.

(** [issubclass(c, RandomForestClassifier)] *)
Fixpoint is_RandomForestClassifier (c : PyClass) : bool :=
  match c with
  | RandomForestClassifier => true
  | Subclass _ base => is_RandomForestClassifier base
  | _ => false
  end.

(** [ClassifierType] is declared in [decision_trees/utils/constants.py]: the
    two members [dataset_tester.py] and [emg_raw.py] name, and any other
    member with its name. *)
Inductive ClassifierType : Type :=
| RANDOM_FOREST
| RANDOM_FOREST_REGRESSOR
| OTHER_MEMBER (name : string).

Definition ClassifierType_name (t : ClassifierType) : string :=
  match t with
  | RANDOM_FOREST => "RANDOM_FOREST"
  | RANDOM_FOREST_REGRESSOR => "RANDOM_FOREST_REGRESSOR"
  | OTHER_MEMBER name => name
  end.

Definition is_RANDOM_FOREST_REGRESSOR (t : ClassifierType) : bool :=
  match t with RANDOM_FOREST_REGRESSOR => true | _ => false end.

(** The two classes of [decision_trees/vhdl_generators]. *)
Inductive OwnKind : Type := Tree | RandomForest.

Section Tester.
Variable Label : Type.
Variable Label_eq_dec : forall a b : Label, {a = b} + {a <> b}.
(** A feature value; a data set is a list of rows. *)
Variable Feature : Type.
Definition Data : Type := list (list Feature).

(** A scikit-learn estimator: its class, the two arguments
    [get_classifier] was given, and what [fit] last trained it on. *)
Record Estimator : Type := mkEstimator {
  est_class : PyClass;
  est_max_depth : option Z;
  est_number_of_classifiers : option Z;
  est_fitted_on : option (Data * list Label)
}.

(** [clf.fit(data, target)] retrains [clf] in place. *)
Definition fit (clf : Estimator) (data : Data) (target : list Label) : Estimator :=
  mkEstimator (est_class clf) (est_max_depth clf) (est_number_of_classifiers clf)
              (Some (data, target)).

(** An object of class [Tree] or [RandomForest]: the arguments of its
    constructor and the estimator [build] was given. *)
Record OwnClassifier : Type := mkOwnClassifier {
  own_kind : OwnKind;
  own_name : string;
  own_number_of_features : nat;
  own_number_of_bits_per_feature : Z;
  own_built_from : option Estimator
}.

(** The collaborators that are not part of [dataset_tester.py]. *)
Variable get_classifier : ClassifierType -> option Z -> option Z -> Estimator.
Variable predict : Estimator -> Data -> list Label.
Variable own_predict : OwnClassifier -> Data -> list Label.
Variable quantize_data : Data -> Data -> Z -> Data * Data.
Variable os_path_join : string -> string -> string.
Variable os_path_exists : string -> bool.
Variable str_int : Z -> string.

(** [str] of an [Optional[int]] *)
Definition str_optional (o : option Z) : string :=
  match o with Some z => str_int z | None => "None" end.

(** What [dataset_tester.py] does to the outside: what it prints and
    creates, and each call of a collaborator with its arguments ([Fitted],
    [Predicted], [Quantized], [Constructed], [Built], [CreatedVhdlFile],
    [PrintedParameters], and the two reports, whose text scikit-learn
    computes). [EnterCompare] marks the call of line 68 with its arguments,
    and [Compare] carries the events of the comparison pass. *)
Inductive TesterEvent : Type :=
| Makedirs (path : string)        (* os.makedirs(path) *)
| PrintLine (s : string)
| PrintDifferences (n : nat)
| ClassificationReport (clf : Estimator + OwnClassifier)
    (expected predicted : list Label) (result_file : option string)
| RegressionReport (expected predicted : list Label) (result_file : option string)
| Fitted (clf : Estimator)
| Predicted (by_clf : Estimator + OwnClassifier) (data : Data) (predicted : list Label)
| Quantized (bits : Z) (path : string)
| Constructed (kind : OwnKind) (name : string) (number_of_features : nat)
    (number_of_bits_per_feature : Z)
| Built (my_clf : OwnClassifier)
| CreatedVhdlFile (my_clf : OwnClassifier) (path : string)
| PrintedParameters (my_clf : OwnClassifier) (result_file : option string)
| EnterCompare (results : list (list Label)) (results_names : list string)
    (test_target : list Label) (flag_save_details_to_file : bool) (path : string)
| Compare (e : CompareEvent Label).

(** Every function of [sklearn.metrics] called at lines 99-109 and 130-133
    first checks that [expected] and [predicted] have one length, and raises
    a [ValueError] when they have not; the text of the exception goes on
    with the two lengths. What else the metrics check, the kind of the
    labels and that there is a sample, is left to the caller. *)
Definition check_consistent_length (expected predicted : list Label)
    : Run TesterEvent unit :=
  if length expected =? length predicted then ret tt
  else raise (ValueError "Found input variables with inconsistent numbers of samples").

(** The metrics are computed first; the report is then appended to
    [result_file], or printed when there is none. *)
Definition _report_classifier (clf : Estimator + OwnClassifier)
    (expected predicted : list Label) (result_file : option string) : Run TesterEvent unit :=
  check_consistent_length expected predicted ;;
  emit (ClassificationReport clf expected predicted result_file).

Definition _report_regressor (expected predicted : list Label)
    (result_file : option string) : Run TesterEvent unit :=
  check_consistent_length expected predicted ;;
  emit (RegressionReport expected predicted result_file).

Definition report_performance (clf : Estimator + OwnClassifier) (clf_type : ClassifierType)
    (expected predicted : list Label) (result_file : option string) : Run TesterEvent unit :=
  if is_RANDOM_FOREST_REGRESSOR clf_type
  then _report_regressor expected predicted result_file
  else _report_classifier clf expected predicted result_file.

(** [Tree(name, number_of_features, number_of_bits_per_feature)] and
    [RandomForest(...)] *)
Definition construct (kind : OwnKind) (name : string) (number_of_features : nat)
    (number_of_bits_per_feature : Z) : Run TesterEvent OwnClassifier :=
  emit (Constructed kind name number_of_features number_of_bits_per_feature) ;;
  ret (mkOwnClassifier kind name number_of_features number_of_bits_per_feature None).

(** [my_clf.build(clf)] *)
Definition build (my_clf : OwnClassifier) (clf : Estimator) : Run TesterEvent OwnClassifier :=
  let built := mkOwnClassifier (own_kind my_clf) (own_name my_clf)
                 (own_number_of_features my_clf)
                 (own_number_of_bits_per_feature my_clf) (Some clf) in
  emit (Built built) ;; ret built.

Definition generate_my_classifier (clf : Estimator) (number_of_features : nat)
    (number_of_bits_per_feature : Z) (path : string) (result_file : option string)
    : Run TesterEvent OwnClassifier :=
  my_clf <-
    (if is_DecisionTreeClassifier (est_class clf) then
       emit (PrintLine "Creating decision tree classifier!") ;;
       construct Tree "DecisionTreeClassifier" number_of_features number_of_bits_per_feature
     else if is_RandomForestClassifier (est_class clf) then
       emit (PrintLine "Creating random forest classifier!") ;;
       construct RandomForest "RandomForestClassifier" number_of_features
         number_of_bits_per_feature
     else
       emit (PrintLine "Unknown type of classifier!") ;;
       raise (ValueError "Unknown type of classifier!")) ;;
  my_clf <- build my_clf clf ;;
  emit (CreatedVhdlFile my_clf path) ;;
  emit (PrintedParameters my_clf result_file) ;;
  ret my_clf.

(** [np.sum(a != b)] for two prediction sets of one length *)
Definition count_differences (a b : list Label) : nat :=
  length (filter (fun ab => ne Label_eq_dec (fst ab) (snd ab)) (combine a b)).

Definition test_dataset (number_of_bits_per_feature : Z)
    (train_data : Data) (train_target : list Label)
    (test_data : Data) (test_target : list Label)
    (clf_type : ClassifierType)
    (max_depth number_of_classifiers : option Z)
    (path name : string) : Run TesterEvent unit :=
  let path := os_path_join path
    (name ++ "_" ++ str_int number_of_bits_per_feature ++ "_" ++ ClassifierType_name clf_type
          ++ "_" ++ str_optional max_depth ++ "_" ++ str_optional number_of_classifiers)%string in
  let result_file := os_path_join path "score.txt" in
  (if negb (os_path_exists path) then emit (Makedirs path) else ret tt) ;;
  let clf := get_classifier clf_type max_depth number_of_classifiers in
  let clf := fit clf train_data train_target in
  emit (Fitted clf) ;;
  let test_predicted := predict clf test_data in
  emit (Predicted (inl clf) test_data test_predicted) ;;
  emit (PrintLine "scikit clf with test data:") ;;
  report_performance (inl clf) clf_type test_target test_predicted (Some result_file) ;;
  let (train_data_quantized, test_data_quantized) :=
    quantize_data train_data test_data number_of_bits_per_feature in
  emit (Quantized number_of_bits_per_feature path) ;;
  let clf := fit clf train_data_quantized train_target in
  emit (Fitted clf) ;;
  let test_predicted_quantized := predict clf test_data_quantized in
  emit (Predicted (inl clf) test_data_quantized test_predicted_quantized) ;;
  emit (PrintLine "scikit clf with train and test data quantized:") ;;
  report_performance (inl clf) clf_type test_target test_predicted_quantized
    (Some result_file) ;;
  first_row <- getitem train_data 0 ;;
  let number_of_features := length first_row in
  my_clf <- generate_my_classifier clf number_of_features
              (number_of_bits_per_feature + 1)%Z path None ;;
  let my_clf_test_predicted_quantized := own_predict my_clf test_data_quantized in
  emit (Predicted (inr my_clf) test_data_quantized my_clf_test_predicted_quantized) ;;
  emit (PrintLine "own clf with train and test data quantized:") ;;
  report_performance (inr my_clf) clf_type test_target my_clf_test_predicted_quantized None ;;
  emit (PrintDifferences
          (count_differences test_predicted_quantized my_clf_test_predicted_quantized)) ;;
  let results :=
    [test_predicted; test_predicted_quantized; my_clf_test_predicted_quantized] in
  let results_names := ["scikit"; "scikit_quantized"; "own_clf_quantized"] in
  emit (EnterCompare results results_names test_target true path) ;;
  lift Compare
    (_compare_with_own_classifier Label_eq_dec results results_names test_target true path).
End Tester.

Arguments Makedirs {Label Feature} path.
Arguments PrintLine {Label Feature} s.
Arguments PrintDifferences {Label Feature} n.
Arguments ClassificationReport {Label Feature} clf expected predicted result_file.
Arguments RegressionReport {Label Feature} expected predicted result_file.
Arguments Fitted {Label Feature} clf.
Arguments Predicted {Label Feature} by_clf data predicted.
Arguments Quantized {Label Feature} bits path.
Arguments Constructed {Label Feature} kind name number_of_features number_of_bits_per_feature.
Arguments Built {Label Feature} my_clf.
Arguments CreatedVhdlFile {Label Feature} my_clf path.
Arguments PrintedParameters {Label Feature} my_clf result_file.
Arguments EnterCompare {Label Feature} results results_names test_target
  flag_save_details_to_file path.
Arguments Compare {Label Feature} e.

(** ** datasets/emg_raw.py: the class [EMGRaw] *)

(** [sub in s] for two strings *)
Fixpoint contains (sub s : string) : bool :=
  if String.prefix sub s then true
  else match s with
       | EmptyString => false
       | String _ s' => contains sub s'
       end.

(** [row.index(x)]: the position of the first cell equal to [x]. *)
Fixpoint index (row : list string) (x : string) : option nat :=
  match row with
  | [] => None
  | cell :: row' =>
      if String.eqb cell x then Some 0
      else match index row' x with
           | Some k => Some (S k)
           | None => None
           end
  end.

(** *** Floating-point numbers

    A floating-point value is a finite number, which is a rational, or
    [inf], [-inf] or [nan]. An operation yields the exact result rounded to
    the nearest float of its format, the even one of two at the same
    distance, and [inf] past the largest finite float. The sign of a zero
    is not kept: [-0.0] and [0.0] are one value, and a zero divisor counts
    as [+0.0]. *)
Inductive Float : Type :=
| Num (q : Q)
| Inf (negative : bool)
| NaN.

(** [a < b] for two rationals *)
Definition Qlt_bool (a b : Q) : bool := negb (Qle_bool b a).

(** The integer nearest to [x], the even one of two at the same distance. *)
Definition nearest_even (x : Q) : Z :=
  let f := Qfloor x in
  match (x - inject_Z f ?= 1 # 2)%Q with
  | Lt => f
  | Gt => (f + 1)%Z
  | Eq => if Z.even f then f else (f + 1)%Z
  end.

(** For [0 < x], the [k] with [2^k <= x < 2^(k+1)]. *)
Definition ilog2 (x : Q) : Z :=
  if Qle_bool 1 x then Z.log2 (Qfloor x) else (- Z.log2_up (Qceiling (/ x)))%Z.

Section Format.
(** A binary format: [prec] bits of precision and exponents below [emax];
    [float32] has 24 and 128, [float64] 53 and 1024. *)
Variables prec emax : Z.

(** The exponent of the smallest positive float, [2^emin]. *)
Definition emin : Z := 3 - emax - prec.

(** The exponent of the last place of the floats next to [x], for [0 < x]. *)
Definition ulp_exponent (x : Q) : Z := Z.max (ilog2 x - (prec - 1)) emin.

(** [0 < x] rounded to nearest, ties to even, with [prec] bits and no upper
    limit on the exponent. *)
Definition rounded (x : Q) : Q :=
  (inject_Z (nearest_even (x / 2 ^ ulp_exponent x)) * 2 ^ ulp_exponent x)%Q.

(** The float nearest to [0 < x]: past the largest finite float it is [inf]. *)
Definition round_positive (x : Q) : Float :=
  if Qle_bool (2 ^ emax) (rounded x) then Inf false else Num (Qred (rounded x)).

(** [-a] *)
Definition f_neg (a : Float) : Float :=
  match a with
  | Num q => Num (- q)
  | Inf s => Inf (negb s)
  | NaN => NaN
  end.

(** The float nearest to [x]. *)
Definition round (x : Q) : Float :=
  match (x ?= 0)%Q with
  | Eq => Num 0
  | Gt => round_positive x
  | Lt => f_neg (round_positive (- x))
  end.
End Format.

Definition round32 : Q -> Float := round 24 128.
Definition round64 : Q -> Float := round 53 1024.

(** [a < b]: false when one of the two is [nan]. *)
Definition f_lt (a b : Float) : bool :=
  match a, b with
  | NaN, _ | _, NaN => false
  | Num x, Num y => Qlt_bool x y
  | Num _, Inf s => negb s
  | Inf s, Num _ => s
  | Inf s, Inf s' => s && negb s'
  end.

Definition is_nan (a : Float) : bool :=
  match a with NaN => true | _ => false end.

Definition is_finite (a : Float) : bool :=
  match a with Num _ => true | _ => false end.

Section Arithmetic.
(** The rounding of the format the operation is carried out in. *)
Variable rnd : Q -> Float.

(** [a - b] *)
Definition f_sub (a b : Float) : Float :=
  match a, b with
  | NaN, _ | _, NaN => NaN
  | Inf s, Inf s' => if Bool.eqb s s' then NaN else Inf s
  | Inf s, Num _ => Inf s
  | Num _, Inf s => Inf (negb s)
  | Num x, Num y => rnd (x - y)
  end.

(** [a / b] as numpy divides: a division by zero raises nothing and
    yields [inf], [-inf] or [nan]. *)
Definition f_div (a b : Float) : Float :=
  match a, b with
  | NaN, _ | _, NaN => NaN
  | Inf _, Inf _ => NaN
  | Inf s, Num y => Inf (xorb s (Qlt_bool y 0))
  | Num x, Inf _ => Num 0
  | Num x, Num y =>
      if Qeq_bool y 0 then
        match (x ?= 0)%Q with
        | Eq => NaN
        | Gt => Inf false
        | Lt => Inf true
        end
      else rnd (x / y)
  end.
End Arithmetic.

(** The conversion of a Python number to [float32]. *)
Definition cast32 (a : Float) : Float :=
  match a with
  | Num q => round32 q
  | _ => a
  end.

(** The smallest and the largest element of a non-empty list without [nan]. *)
Fixpoint smallest (x : Float) (xs : list Float) : Float :=
  match xs with
  | [] => x
  | y :: ys => smallest (if f_lt y x then y else x) ys
  end.

Fixpoint largest (x : Float) (xs : list Float) : Float :=
  match xs with
  | [] => x
  | y :: ys => largest (if f_lt x y then y else x) ys
  end.

(** The state of an [EMGRaw] object. *)
Record EMGRaw : Type := mkEMGRaw {
  _path : string;
  _min_rms : Float;
  _max_rms : Float;
  _min_zero_crossings : Float;
  _max_zero_crossings : Float
}.

(** [EMGRaw.__init__] *)
Definition EMGRaw_init (path : string) : EMGRaw :=
  mkEMGRaw path (Inf false) (Num 0) (Inf false) (Num 0).

(** A file of the directory: its name and the rows [csv.reader] yields. *)
Record DirEntry : Type := mkDirEntry {
  file_name : string;
  file_rows : list (list string)
}.

(** No event of the loader is recorded. *)
Definition Load (A : Type) : Type := Run Empty_set A.

(** [np.amin(a)] and [np.amax(a)] of a two-dimensional array: a
    [ValueError] when the array has no element, and [nan] when one of its
    elements is [nan]. *)
Definition amin (a : list (list Float)) : Load Float :=
  match concat a with
  | [] => raise (ValueError "zero-size array to reduction operation minimum which has no identity")
  | x :: xs => ret (if existsb is_nan (x :: xs) then NaN else smallest x xs)
  end.

Definition amax (a : list (list Float)) : Load Float :=
  match concat a with
  | [] => raise (ValueError "zero-size array to reduction operation maximum which has no identity")
  | x :: xs => ret (if existsb is_nan (x :: xs) then NaN else largest x xs)
  end.

(** [data[:, :8]] and [data[:, 8:]]: an [IndexError] when [data] has no row,
    as [np.array([])] has one dimension only. *)
Definition columns_to_8 (data : list (list Float)) : Load (list (list Float)) :=
  match data with
  | [] => raise IndexError
  | _ => ret (map (firstn 8) data)
  end.

Definition columns_from_8 (data : list (list Float)) : Load (list (list Float)) :=
  match data with
  | [] => raise IndexError
  | _ => ret (map (skipn 8) data)
  end.

(** [np.array(data, dtype=np.float32)] for a list of tuples of Python
    numbers: a [ValueError] when the tuples are not of one length;
    otherwise every number is converted to [float32]. *)
Definition np_array (data : list (list Float)) : Load (list (list Float)) :=
  match data with
  | [] => ret []
  | row :: rows =>
      if forallb (fun r => length r =? length row) rows then ret (map (map cast32) data)
      else raise (ValueError "setting an array element with a sequence")
  end.

Definition _update_min_max (self : EMGRaw) (data : list (list Float)) : Load EMGRaw :=
  rms <- columns_to_8 data ;;
  min_rms <- amin rms ;;
  max_rms <- amax rms ;;
  zero_crossings <- columns_from_8 data ;;
  min_zero_crossings <- amin zero_crossings ;;
  max_zero_crossings <- amax zero_crossings ;;
  let self :=
    if f_lt min_rms (_min_rms self)
    then mkEMGRaw (_path self) min_rms (_max_rms self)
           (_min_zero_crossings self) (_max_zero_crossings self)
    else self in
  let self :=
    if f_lt (_max_rms self) max_rms
    then mkEMGRaw (_path self) (_min_rms self) max_rms
           (_min_zero_crossings self) (_max_zero_crossings self)
    else self in
  let self :=
    if f_lt min_zero_crossings (_min_zero_crossings self)
    then mkEMGRaw (_path self) (_min_rms self) (_max_rms self)
           min_zero_crossings (_max_zero_crossings self)
    else self in
  let self :=
    if f_lt (_max_zero_crossings self) max_zero_crossings
    then mkEMGRaw (_path self) (_min_rms self) (_max_rms self)
           (_min_zero_crossings self) max_zero_crossings
    else self in
  ret self.

Section Loader.
(** Python's [float] on the text of a cell: the [float64] it yields, and
    [None] for its [ValueError]. *)
Variable float : string -> option Float.

(** [tuple(map(float, row))] *)
Fixpoint floats (row : list string) : Load (list Float) :=
  match row with
  | [] => ret []
  | cell :: row' =>
      match float cell with
      | Some q => qs <- floats row' ;; ret (q :: qs)
      | None => raise (ValueError "could not convert string to float")
      end
  end.

(** Lines 42-46 for one row: the tuple appended to [data]. The position
    [row.index('1')] is a Python integer. *)
Definition load_row (is_output : bool) (row : list string) (data : list (list Float))
    : Load (list (list Float)) :=
  if is_output then
    match index row "1" with
    | Some k => ret (data ++ [[Num (inject_Z (Z.of_nat k))]])
    | None => raise (ValueError "'1' is not in list")
    end
  else
    t <- floats row ;; ret (data ++ [t]).

(** [_load_files], given the rows of each file of [files_paths]: the
    object afterwards and the array returned. *)
Definition _load_files (self : EMGRaw) (files : list (list (list string)))
    (is_output : bool) : Load (EMGRaw * list (list Float)) :=
  data <- for_each files (fun rows data => for_each rows (load_row is_output) data) [] ;;
  data_array <- np_array data ;;
  if negb is_output then
    self <- _update_min_max self data_array ;;
    ret (self, data_array)
  else ret (self, data_array).

(** [(x - lo) / (hi - lo)] on a [float32] array: the two differences and
    the quotient are each rounded to [float32]. A bound that is still the
    Python float of [__init__] is [inf] or [0.0], with which the
    subtraction is exact in either format. *)
Definition rescale (lo hi x : Float) : Float :=
  f_div round32 (f_sub round32 x lo) (f_sub round32 hi lo).

Definition _normalise (self : EMGRaw) (data : list (list Float)) : list (list Float) :=
  map (fun row =>
         map (rescale (_min_rms self) (_max_rms self)) (firstn 8 row)
         ++ map (rescale (_min_zero_crossings self) (_max_zero_crossings self)) (skipn 8 row))
      data.

(** The four lists of files of lines 55-68, in the order of the directory. *)
Definition files_with (tag : string) (excluded : list string) (dir : list DirEntry)
    : list (list (list string)) :=
  map file_rows
    (filter (fun f => contains tag (file_name f)
                      && forallb (fun t => negb (contains t (file_name f))) excluded)
            dir).

Definition input_train_files := files_with "trainvalid_i" [].
Definition output_train_files := files_with "trainvalid_o" ["trainvalid_i"].
Definition input_test_files := files_with "test_i" ["trainvalid_i"; "trainvalid_o"].
Definition output_test_files :=
  files_with "test_o" ["trainvalid_i"; "trainvalid_o"; "test_i"].

(** Lines 55-73: the object and the four arrays before normalisation. *)
Definition load_arrays (self : EMGRaw) (dir : list DirEntry)
    : Load (EMGRaw * (list (list Float) * list (list Float)
                      * list (list Float) * list (list Float))) :=
  '(self, input_train_data) <- _load_files self (input_train_files dir) false ;;
  '(self, output_train_data) <- _load_files self (output_train_files dir) true ;;
  '(self, input_test_data) <- _load_files self (input_test_files dir) false ;;
  '(self, output_test_data) <- _load_files self (output_test_files dir) true ;;
  ret (self, (input_train_data, output_train_data, input_test_data, output_test_data)).

Definition load_data (self : EMGRaw) (dir : list DirEntry)
    : Load (EMGRaw * (list (list Float) * list (list Float)
                      * list (list Float) * list (list Float))) :=
  '(self, (input_train_data, output_train_data, input_test_data, output_test_data)) <-
    load_arrays self dir ;;
  let input_train_data := _normalise self input_train_data in
  let input_test_data := _normalise self input_test_data in
  ret (self, (input_train_data, output_train_data, input_test_data, output_test_data)).
End Loader.

(** [float] on the decimal numerals with or without a minus sign and
    without point or exponent, the instance the examples below are run
    with: the [float64] nearest to the number. *)
Definition digit (c : ascii) : option Z :=
  let n := nat_of_ascii c in
  if (48 <=? n) && (n <=? 57) then Some (Z.of_nat (n - 48)) else None.

Fixpoint numeral (acc : Z) (s : string) : option Z :=
  match s with
  | EmptyString => Some acc
  | String c s' =>
      match digit c with
      | Some d => numeral (10 * acc + d)%Z s'
      | None => None
      end
  end.

Definition unsigned (s : string) : option Z :=
  match s with
  | EmptyString => None
  | _ => numeral 0 s
  end.

Definition float_of_numeral (s : string) : option Float :=
  match s with
  | String "-" s' => option_map (fun z => round64 (- inject_Z z)) (unsigned s')
  | _ => option_map (fun z => round64 (inject_Z z)) (unsigned s)
  end.

(** ** dataset_tester.py: [normalise_data] *)





Section Normalise.
(** The rounding of the format of the two arrays. *)
Variable rnd : Q -> Float.
(** [sklearn.preprocessing.minmax_scale(a, axis=1)] *)
Variable minmax_scale : list (list Float) -> list (list Float).




End Normalise.

(** ** What the claims speak of *)

(** A run that ends without an exception, its events and value
    satisfying [P]. *)
Definition returns {E A} (c : Run E A) (P : list E -> A -> Prop) : Prop :=
  match c with
  | (t, inr a) => P t a
  | (_, inl _) => False
  end.

Section CompareSpec.
Variable Label : Type.
Variable Label_eq_dec : forall a b : Label, {a = b} + {a <> b}.
Variable test_target : list Label.

(** The prediction [r[j]] differs from the ground truth at [j]. *)
Definition wrong_at (r : list Label) (j : nat) : bool :=
  match nth_error r j, nth_error test_target j with
  | Some p, Some t => ne Label_eq_dec p t
  | _, _ => false
  end.

(** The number of sample indices at which [r] differs from the ground truth. *)
Definition mismatches (r : list Label) : nat :=
  length (filter (wrong_at r) (range (length test_target))).

(** Some variant differs from the ground truth at [j]. *)
Definition any_wrong_at (results : list (list Label)) (j : nat) : bool :=
  existsb (fun r => wrong_at r j) results.

(** Two variants' predictions at [j] differ from each other. *)
Definition differ_at (r r' : list Label) (j : nat) : bool :=
  match nth_error r j, nth_error r' j with
  | Some p, Some p' => ne Label_eq_dec p p'
  | _, _ => false
  end.

Definition variants_differ_at (results : list (list Label)) (j : nat) : bool :=
  existsb (fun r => existsb (fun r' => differ_at r r' j) results) results.

(** The entries of the diagnostic log: each starts with the line
    "Difference between versions!". *)
Definition starts_entry (e : CompareEvent Label) : bool :=
  match e with
  | PrintToFile DifferenceBetweenVersions => true
  | _ => false
  end.

Definition logged_entries (t : list (CompareEvent Label)) : nat :=
  length (filter starts_entry t).

(** What [print] wrote to the standard output. *)
Definition printed (t : list (CompareEvent Label)) : list (Text Label) :=
  flat_map (fun e => match e with Print x => [x] | _ => [] end) t.

(** Every variant has a prediction for every sample, and a name. *)
Definition well_shaped (results : list (list Label)) (results_names : list string) : Prop :=
  Forall (fun r => length test_target <= length r) results
  /\ length results <= length results_names.
End CompareSpec.

(** The classes for which line 153 or line 156 of [dataset_tester.py] holds. *)
Definition supported (c : PyClass) : bool :=
  is_DecisionTreeClassifier c || is_RandomForestClassifier c.

Section TesterSpec.
Variable Label Feature : Type.

(** What the [else] branch of lines 159-161 does. *)
Definition unknown_type : Run (TesterEvent Label Feature) (OwnClassifier Label Feature) :=
  ([PrintLine "Unknown type of classifier!"], inl (ValueError "Unknown type of classifier!")).

(** The bit widths the constructors [Tree] and [RandomForest] were given. *)
Definition constructed_bit_widths (t : list (TesterEvent Label Feature)) : list Z :=
  flat_map (fun e => match e with Constructed _ _ _ bits => [bits] | _ => [] end) t.

(** The bit widths [quantize_data] was given. *)
Definition quantization_bit_widths (t : list (TesterEvent Label Feature)) : list Z :=
  flat_map (fun e => match e with Quantized bits _ => [bits] | _ => [] end) t.

(** The prediction sets produced, in order. *)
Definition prediction_sets (t : list (TesterEvent Label Feature)) : list (list Label) :=
  flat_map (fun e => match e with Predicted _ _ p => [p] | _ => [] end) t.

(** The data each prediction set was computed from. *)
Definition predicted_from (t : list (TesterEvent Label Feature))
    : list (list (list Feature)) :=
  flat_map (fun e => match e with Predicted _ d _ => [d] | _ => [] end) t.

(** The arguments of the calls of the comparison pass. *)
Definition compare_calls (t : list (TesterEvent Label Feature))
    : list (list (list Label) * list string * list Label) :=
  flat_map (fun e => match e with
                     | EnterCompare rs names target _ _ => [(rs, names, target)]
                     | _ => []
                     end) t.

(** Events of building the fixed-point model or of writing its files. *)
Definition builds_or_writes (e : TesterEvent Label Feature) : bool :=
  match e with
  | Constructed _ _ _ _ | Built _ | CreatedVhdlFile _ _ | PrintedParameters _ _ => true
  | _ => false
  end.
End TesterSpec.

(** [a <= b] for two floats, neither of which is [nan]. *)
Definition f_le (a b : Float) : Prop :=
  match a, b with
  | NaN, _ | _, NaN => False
  | Inf true, _ => True
  | _, Inf false => True
  | Num x, Num y => (x <= y)%Q
  | _, _ => False
  end.

(** The entries of columns 0-7 and of columns 8 onward of an array. *)
Definition rms_entries (data : list (list Float)) : list Float :=
  concat (map (firstn 8) data).
Definition zero_crossings_entries (data : list (list Float)) : list Float :=
  concat (map (skipn 8) data).

(** [m] is the least element of [xs]. *)
Definition least_of (xs : list Float) (m : Float) : Prop :=
  In m xs /\ forall x, In x xs -> f_le m x.

(** [m] is the greatest among [0.0], the initial bound, and the elements of [xs]. *)
Definition greatest_of_zero_and (xs : list Float) (m : Float) : Prop :=
  (m = Num 0 \/ In m xs) /\ f_le (Num 0) m /\ forall x, In x xs -> f_le x m.

(** [b] is the least among [float('inf')], the initial bound, and the
    elements of [xs]. *)
Definition lower_bound_of (xs : list Float) (b : Float) : Prop :=
  (b = Inf false \/ In b xs) /\ forall x, In x xs -> f_le b x.

(** The four bounds of the object are those of the rows [data]. *)
Definition bounds_cover (self : EMGRaw) (data : list (list Float)) : Prop :=
  lower_bound_of (rms_entries data) (_min_rms self)
  /\ greatest_of_zero_and (rms_entries data) (_max_rms self)
  /\ lower_bound_of (zero_crossings_entries data) (_min_zero_crossings self)
  /\ greatest_of_zero_and (zero_crossings_entries data) (_max_zero_crossings self).



(** A value a [float32] array can hold. *)
Definition float32_value (a : Float) : Prop := exists b, a = cast32 b.

(** The rows hold values of [float32] arrays. *)
Definition float32_rows (data : list (list Float)) : Prop :=
  Forall (Forall float32_value) data.

(** A row without [nan]. *)
Definition numbers_only (xs : list Float) : Prop := Forall (fun a => is_nan a = false) xs.

(** The array [a] holds, converted to [float32], what [float] reads in the
    cells of [rows]. *)
Definition holds_floats (float : string -> option Float) (rows : list (list string))
    (a : list (list Float)) : Prop :=
  Forall2 (Forall2 (fun cell x => exists v, float cell = Some v /\ x = cast32 v)) rows a.

(** [np.amin] and [np.amax] of the entries [xs], when there is one. *)
Definition least (xs : list Float) : Float :=
  match xs with
  | [] => NaN
  | x :: xs' => if existsb is_nan xs then NaN else smallest x xs'
  end.

Definition greatest (xs : list Float) : Float :=
  match xs with
  | [] => NaN
  | x :: xs' => if existsb is_nan xs then NaN else largest x xs'
  end.

(** The object with each bound moved to the value given for it where that
    value lies beyond the bound: lines 28-35. *)
Definition widened (min_rms max_rms min_zero_crossings max_zero_crossings : Float)
    (self : EMGRaw) : EMGRaw :=
  mkEMGRaw (_path self)
    (if f_lt min_rms (_min_rms self) then min_rms else _min_rms self)
    (if f_lt (_max_rms self) max_rms then max_rms else _max_rms self)
    (if f_lt min_zero_crossings (_min_zero_crossings self)
     then min_zero_crossings else _min_zero_crossings self)
    (if f_lt (_max_zero_crossings self) max_zero_crossings
     then max_zero_crossings else _max_zero_crossings self).

(** The tuple lines 44 and 46 append to [data] for a row, or the exception
    they raise; and the same for a list of rows. *)
Definition row_tuple (float : string -> option Float) (is_output : bool) (row : list string)
    : Exception + list Float :=
  if is_output then
    match index row "1" with
    | Some k => inr [Num (inject_Z (Z.of_nat k))]
    | None => inl (ValueError "'1' is not in list")
    end
  else outcome (floats float row).

Fixpoint tuples (float : string -> option Float) (is_output : bool)
    (rows : list (list string)) : Exception + list (list Float) :=
  match rows with
  | [] => inr []
  | row :: rows' =>
      match row_tuple float is_output row with
      | inl e => inl e
      | inr t =>
          match tuples float is_output rows' with
          | inl e => inl e
          | inr ts => inr (t :: ts)
          end
      end
  end.

(** [t] is the one-element row of a [float32] array holding the position
    [k] of the first cell of [row] whose text is '1': the float nearest to
    [k], which is [k] itself up to [2^24]. *)
Definition first_one (row : list string) (t : list Float) : Prop :=
  exists k, t = [round32 (inject_Z (Z.of_nat k))]
            /\ ((Z.of_nat k <= 2 ^ 24)%Z -> t = [Num (inject_Z (Z.of_nat k))])
            /\ nth_error row k = Some "1"
            /\ forall k', k' < k -> nth_error row k' <> Some "1".

(** The entry is a number of the closed interval from 0 to 1. *)
Definition in_unit_interval (e : Float) : Prop :=
  match e with
  | Num q => (0 <= q)%Q /\ (q <= 1)%Q
  | _ => False
  end.

(** A group has a strictly larger maximum than minimum. *)
Definition spread (xs : list Float) : Prop :=
  exists a b, In a xs /\ In b xs /\ f_lt a b = true.

(** Each entry of [out] is the entry of [row] at the same place mapped by
    [(x - lo) / (hi - lo)] in [float32] arithmetic, with the bounds of the
    RMS group in columns 0-7 and those of the zero-crossing group from
    column 8 on. *)
Definition mapped_with (self : EMGRaw) (row out : list Float) : Prop :=
  length out = length row
  /\ forall j x, nth_error row j = Some x ->
       nth_error out j
       = Some (if j <? 8
               then f_div round32 (f_sub round32 x (_min_rms self))
                      (f_sub round32 (_max_rms self) (_min_rms self))
               else f_div round32 (f_sub round32 x (_min_zero_crossings self))
                      (f_sub round32 (_max_zero_crossings self)
                         (_min_zero_crossings self))).

(** A run whose events all satisfy [P], whether it ends with a value or with
    an exception. *)
Definition always {E A} (P : E -> Prop) (c : Run E A) : Prop := Forall P (trace c).

(** A run that, when it ends without an exception, ends with events and a
    value satisfying [P]. *)
Definition ensures {E A} (c : Run E A) (P : list E -> A -> Prop) : Prop :=
  match c with
  | (t, inr a) => P t a
  | (_, inl _) => True
  end.

(** A run that raises no exception other than [IndexError]. *)
Definition raises_only_IndexError {E A} (c : Run E A) : Prop :=
  match outcome c with
  | inl e => e = IndexError
  | inr _ => True
  end.

Section CompareLog.
Variable Label : Type.
Variable Label_eq_dec : forall a b : Label, {a = b} + {a <> b}.
Variable results : list (list Label).
Variable results_names : list string.
Variable test_target : list Label.

(** The lines of lines 194-195 for sample [j]: one per variant, in the
    order of [results], with its name. *)
Definition variant_lines (j : nat) : list (Text Label) :=
  flat_map (fun nr => match nth_error (snd nr) j with
                      | Some p => [VariantLine (fst nr) p]
                      | None => []
                      end)
           (combine results_names results).

(** The entry of the diagnostic log for sample [j]. *)
Definition log_lines (j : nat) : list (Text Label) :=
  match nth_error test_target j with
  | Some g => DifferenceBetweenVersions :: GroundTrue g :: variant_lines j
  | None => []
  end.

(** What was printed to the file, in order. *)
Definition written (t : list (CompareEvent Label)) : list (Text Label) :=
  flat_map (fun e => match e with PrintToFile x => [x] | _ => [] end) t.

(** An event that is allowed after the file was opened, or when it is not
    to be used at all. *)
Definition after_opening (flag_save_details_to_file : bool) (e : CompareEvent Label) : Prop :=
  match e with
  | OpenForWriting _ => False
  | PrintToFile _ => flag_save_details_to_file = true
  | Print _ => True
  end.

(** Every variant has a prediction for every sample. *)
Definition predictions_for_all : Prop :=
  Forall (fun r => length test_target <= length r) results.

(** No variant differs from the ground truth at any sample. *)
Definition no_error : bool :=
  negb (existsb (any_wrong_at Label_eq_dec test_target results) (range (length test_target))).
End CompareLog.

Section TesterShape.
Variable Label : Type.
Variable Feature : Type.
Variable get_classifier : ClassifierType -> option Z -> option Z -> Estimator Label Feature.
Variable predict : Estimator Label Feature -> Data Feature -> list Label.
Variable quantize_data : Data Feature -> Data Feature -> Z -> Data Feature * Data Feature.
Variable os_path_join : string -> string -> string.
Variable os_path_exists : string -> bool.
Variable str_int : Z -> string.
Variable number_of_bits_per_feature : Z.
Variable train_data test_data : Data Feature.
Variable train_target test_target : list Label.
Variable clf_type : ClassifierType.
Variable max_depth number_of_classifiers : option Z.
Variable path name : string.

(** The directory of a run: lines 25-28. *)
Definition run_directory : string :=
  os_path_join path
    (name ++ "_" ++ str_int number_of_bits_per_feature ++ "_" ++ ClassifierType_name clf_type
          ++ "_" ++ str_optional str_int max_depth
          ++ "_" ++ str_optional str_int number_of_classifiers)%string.

(** The file the reports of the scikit classifier are appended to: line 29. *)
Definition score_file : string := os_path_join run_directory "score.txt".

(** The report [report_performance] asks for. *)
Definition report_event (clf : Estimator Label Feature + OwnClassifier Label Feature)
    (predicted : list Label) (result_file : option string) : TesterEvent Label Feature :=
  if is_RANDOM_FOREST_REGRESSOR clf_type
  then RegressionReport test_target predicted result_file
  else ClassificationReport clf test_target predicted result_file.

(** The estimator after line 38 and after line 51, and the quantized test data. *)
Definition clf_raw : Estimator Label Feature :=
  fit (get_classifier clf_type max_depth number_of_classifiers) train_data train_target.
Definition clf_quantized : Estimator Label Feature :=
  fit clf_raw (fst (quantize_data train_data test_data number_of_bits_per_feature))
      train_target.
Definition test_data_quantized : Data Feature :=
  snd (quantize_data train_data test_data number_of_bits_per_feature).


(** What a run does before line 57. *)
Definition events_before_generator : list (TesterEvent Label Feature) :=
  (if os_path_exists run_directory then [] else [Makedirs run_directory])
  ++ [Fitted clf_raw;
      Predicted (inl clf_raw) test_data (predict clf_raw test_data);
      PrintLine "scikit clf with test data:";
      report_event (inl clf_raw) (predict clf_raw test_data) (Some score_file);
      Quantized number_of_bits_per_feature run_directory;
      Fitted clf_quantized;
      Predicted (inl clf_quantized) test_data_quantized
        (predict clf_quantized test_data_quantized);
      PrintLine "scikit clf with train and test data quantized:";
      report_event (inl clf_quantized) (predict clf_quantized test_data_quantized)
        (Some score_file)].
End TesterShape.

Section TesterFiles.
Variable Label Feature : Type.

(** The paths a run names when it writes: the argument of [os.makedirs]
    (which creates that directory and every missing directory above it),
    the files it opens for writing or appending, and the paths it hands to
    a collaborator that writes. *)
Definition paths_given (t : list (TesterEvent Label Feature)) : list string :=
  flat_map (fun e => match e with
                     | Makedirs p => [p]
                     | Quantized _ p => [p]
                     | CreatedVhdlFile _ p => [p]
                     | ClassificationReport _ _ _ (Some f) => [f]
                     | RegressionReport _ _ (Some f) => [f]
                     | PrintedParameters _ (Some f) => [f]
                     | Compare (OpenForWriting f) => [f]
                     | _ => []
                     end) t.

(** Where each report of [report_performance] goes: a file, or the
    standard output. *)
Definition report_files (t : list (TesterEvent Label Feature)) : list (option string) :=
  flat_map (fun e => match e with
                     | ClassificationReport _ _ _ f => [f]
                     | RegressionReport _ _ f => [f]
                     | _ => []
                     end) t.

(** Where the parameters of the own classifier are printed. *)
Definition parameter_files (t : list (TesterEvent Label Feature)) : list (option string) :=
  flat_map (fun e => match e with PrintedParameters _ f => [f] | _ => [] end) t.
End TesterFiles.

(** The name of the file carries one of the four tags of lines 61-67. *)
Definition tagged (f : DirEntry) : bool :=
  contains "trainvalid_i" (file_name f) || contains "trainvalid_o" (file_name f)
  || contains "test_i" (file_name f) || contains "test_o" (file_name f).

(** The one-hot row of class [k] among [n] classes. *)
Definition one_hot (n k : nat) : list string :=
  repeat "0" k ++ "1" :: repeat "0" (n - k - 1).

(** The value [_load_files] stores for class [k]. *)
Definition label_of (k : nat) : list Float := [round32 (inject_Z (Z.of_nat k))].


(** ** Concrete inputs *)

(** Three variants over three samples: the first is right everywhere, the
    second wrong at the last sample, the third wrong at the last two. *)
Definition example_results : list (list Z) := [[1; 2; 3]; [1; 2; 4]; [1; 5; 4]]%Z.
Definition example_names : list string := ["scikit"; "scikit_quantized"; "own_clf_quantized"].
Definition example_target : list Z := [1; 2; 3]%Z.

(** An instance of the collaborators of [test_dataset]. *)
Definition example_get_classifier (clf_type : ClassifierType)
    (max_depth number_of_classifiers : option Z) : Estimator Z Z :=
  mkEstimator
    (match clf_type with
     | RANDOM_FOREST => RandomForestClassifier
     | RANDOM_FOREST_REGRESSOR => RandomForestRegressor
     | OTHER_MEMBER _ => DecisionTreeClassifier
     end)
    max_depth number_of_classifiers None.

Definition example_predict (clf : Estimator Z Z) (data : Data Z) : list Z :=
  map (fun row => hd 0%Z row) data.

Definition example_own_predict (my_clf : OwnClassifier Z Z) (data : Data Z) : list Z :=
  map (fun row => hd 0%Z row) data.

Definition example_quantize_data (train test : Data Z) (bits : Z) : Data Z * Data Z :=
  (train, test).

Definition example_join (a b : string) : string := (a ++ "/" ++ b)%string.

Definition example_str_int (z : Z) : string := NilZero.string_of_int (Z.to_int z).

Definition example_run (clf_type : ClassifierType) : Run (TesterEvent Z Z) unit :=
  test_dataset Z.eq_dec example_get_classifier example_predict example_own_predict
    example_quantize_data example_join (fun _ => false) example_str_int
    8%Z [[1; 7]; [2; 7]]%Z [1; 2]%Z [[1; 7]; [3; 7]]%Z [1; 2]%Z
    clf_type None (Some 100%Z) "vhdl" "EMGRaw".


(** A directory of four files: two train rows, one test row, ten columns;
    [cell] is the last RMS value of the test row. *)
Definition emg_directory (cell : string) : list DirEntry :=
  [mkDirEntry "emg_trainvalid_i_1.csv"
     [["1"; "1"; "1"; "1"; "1"; "1"; "1"; "2"; "1"; "3"];
      ["0"; "1"; "1"; "1"; "1"; "1"; "1"; "1"; "2"; "2"]];
   mkDirEntry "emg_trainvalid_o_1.csv" [["0"; "1"]; ["1"; "0"]];
   mkDirEntry "emg_test_i_1.csv" [["1"; "1"; "1"; "1"; "1"; "1"; "1"; cell; "1"; "2"]];
   mkDirEntry "emg_test_o_1.csv" [["0"; "0"; "1"]]].

(** The arrays read from [emg_directory "4"]. *)
Definition emg_train_numbers : list (list Q) :=
  [[1; 1; 1; 1; 1; 1; 1; 2; 1; 3]; [0; 1; 1; 1; 1; 1; 1; 1; 2; 2]]%Q.
Definition emg_test_numbers : list (list Q) :=
  [[1; 1; 1; 1; 1; 1; 1; 4; 1; 2]]%Q.
Definition emg_train_array : list (list Float) := map (map Num) emg_train_numbers.
Definition emg_test_array : list (list Float) := map (map Num) emg_test_numbers.
Definition emg_object : EMGRaw := mkEMGRaw "emg" (Num 0) (Num 4) (Num 1) (Num 3).

(** What [load_data] returns for [emg_directory], the last RMS value of the
    test row being [cell] and the upper RMS bound [hi]. *)
Definition emg_loaded (cell : Z) (hi : positive)
    : EMGRaw * (list (list Float) * list (list Float)
                * list (list Float) * list (list Float)) :=
  (mkEMGRaw "emg" (Num 0) (Num (Z.pos hi # 1)) (Num 1) (Num 3),
   (map (map (fun q => Num (Qred q)))
      [[1 # hi; 1 # hi; 1 # hi; 1 # hi; 1 # hi; 1 # hi; 1 # hi; 2 # hi; 0; 1];
       [0; 1 # hi; 1 # hi; 1 # hi; 1 # hi; 1 # hi; 1 # hi; 1 # hi; 1 # 2; 1 # 2]]%Q,
    [[Num 1]; [Num 0]],
    map (map (fun q => Num (Qred q)))
      [[1 # hi; 1 # hi; 1 # hi; 1 # hi; 1 # hi; 1 # hi; 1 # hi; cell # hi; 0; 1 # 2]]%Q,
    [[Num 2]])).

(** The rows of a second directory, loaded by the object that has loaded
    [emg_directory "4"]: its RMS values lie between 1 and 2. *)
Definition emg_second_directory : list DirEntry :=
  [mkDirEntry "emg_trainvalid_i_2.csv"
     [["1"; "2"; "1"; "2"; "1"; "2"; "1"; "2"; "1"; "3"]];
   mkDirEntry "emg_trainvalid_o_2.csv" [["1"; "0"]];
   mkDirEntry "emg_test_i_2.csv" [["2"; "1"; "2"; "1"; "2"; "1"; "2"; "1"; "2"; "2"]];
   mkDirEntry "emg_test_o_2.csv" [["0"; "1"]]].

Definition emg_second_train_array : list (list Float) :=
  map (map Num) [[1; 2; 1; 2; 1; 2; 1; 2; 1; 3]]%Q.
Definition emg_second_test_array : list (list Float) :=
  map (map Num) [[2; 1; 2; 1; 2; 1; 2; 1; 2; 2]]%Q.

(** A directory with the RMS values [-3e38] and [3e38], both finite in
    [float32], whose difference is not. *)
Definition emg_wide_directory : list DirEntry :=
  [mkDirEntry "emg_trainvalid_i_1.csv"
     [["-300000000000000000000000000000000000000";
       "300000000000000000000000000000000000000"; "1"; "1"; "1"; "1"; "1"; "1"; "1"; "3"]];
   mkDirEntry "emg_trainvalid_o_1.csv" [["0"; "1"]];
   mkDirEntry "emg_test_i_1.csv" [["1"; "1"; "1"; "1"; "1"; "1"; "1"; "1"; "2"; "2"]];
   mkDirEntry "emg_test_o_1.csv" [["1"; "0"]]].

(** A directory whose RMS values are all 1. *)
Definition emg_constant_directory : list DirEntry :=
  [mkDirEntry "emg_trainvalid_i_1.csv"
     [["1"; "1"; "1"; "1"; "1"; "1"; "1"; "1"; "1"; "3"]];
   mkDirEntry "emg_trainvalid_o_1.csv" [["0"; "1"]];
   mkDirEntry "emg_test_i_1.csv" [["1"; "1"; "1"; "1"; "1"; "1"; "1"; "1"; "2"; "2"]];
   mkDirEntry "emg_test_o_1.csv" [["1"; "0"]]].

(** What is read from [emg_constant_directory]. *)
Definition emg_constant_train_array : list (list Float) :=
  map (map Num) [[1; 1; 1; 1; 1; 1; 1; 1; 1; 3]]%Q.
Definition emg_constant_test_array : list (list Float) :=
  map (map Num) [[1; 1; 1; 1; 1; 1; 1; 1; 2; 2]]%Q.
Definition emg_constant_object : EMGRaw := mkEMGRaw "emg" (Num 1) (Num 1) (Num 1) (Num 3).

(** A directory without train input, and one with a cell that is no number. *)
Definition emg_directory_without_train : list DirEntry :=
  [mkDirEntry "emg_test_i_1.csv" [["1"; "1"; "1"; "1"; "1"; "1"; "1"; "1"; "2"; "2"]];
   mkDirEntry "emg_test_o_1.csv" [["1"; "0"]]].

Definition emg_directory_with_text : list DirEntry :=
  [mkDirEntry "emg_trainvalid_i_1.csv" [["1"; "x"; "1"; "1"; "1"; "1"; "1"; "1"; "2"; "2"]]].


(** ** Rules for [returns] *)

Section Rules.
Variable E : Type.

Lemma returns_ret A (a : A) (P : list E -> A -> Prop) :
  P [] a -> returns (ret a) P.
Proof. exact (fun H => H). Qed.

Lemma returns_emit (ev : E) (P : list E -> unit -> Prop) :
  P [ev] tt -> returns (emit ev) P.
Proof. exact (fun H => H). Qed.

Lemma returns_bind A B (c : Run E A) (f : A -> Run E B) (Q : list E -> B -> Prop) :
  returns c (fun t a => returns (f a) (fun t' b => Q (t ++ t') b)) ->
  returns (bind c f) Q.
Proof.
  destruct c as [t [e | a]]; simpl; [tauto |].
  destruct (f a) as [t' [e | b]]; simpl; tauto.
Qed.

Lemma returns_weaken A (c : Run E A) (P Q : list E -> A -> Prop) :
  (forall t a, P t a -> Q t a) -> returns c P -> returns c Q.
Proof. destruct c as [t [e | a]]; simpl; auto. Qed.

Lemma returns_inv A (c : Run E A) (P : list E -> A -> Prop) :
  returns c P -> exists t a, c = (t, inr a) /\ P t a.
Proof. destruct c as [t [e | a]]; simpl; [tauto | eauto]. Qed.

Lemma returns_getitem A (l : list A) i a (P : list E -> A -> Prop) :
  nth_error l i = Some a -> P [] a -> returns (getitem l i) P.
Proof. unfold getitem. intros ->. exact (fun H => H). Qed.

Lemma returns_setitem A (l : list A) i a (P : list E -> list A -> Prop) :
  i < length l -> P [] (replace_nth l i a) -> returns (setitem l i a) P.
Proof.
  unfold setitem. intros Hi. apply Nat.ltb_lt in Hi. rewrite Hi. exact (fun H => H).
Qed.

(** The loop over [range n] keeps an invariant of the number of rounds
    done, the events so far and the locals. *)
Lemma returns_for_range S (body : nat -> S -> Run E S) n
    (I : nat -> list E -> S -> Prop) s :
  I 0 [] s ->
  (forall k t s', k < n -> I k t s' ->
     returns (body k s') (fun t' s'' => I (Datatypes.S k) (t ++ t') s'')) ->
  returns (for_each (range n) body s) (I n).
Proof.
  intros H0 Hstep. unfold range.
  assert (G : forall m k t s', k + m = n -> I k t s' ->
            returns (for_each (seq k m) body s') (fun t' s'' => I n (t ++ t') s'')).
  { induction m as [| m IH]; intros k t s' Hk HI; simpl.
    - rewrite app_nil_r. replace n with k by lia. exact HI.
    - apply returns_bind.
      eapply returns_weaken; [| apply (Hstep k t s'); [lia | exact HI]].
      intros t1 s1 H1.
      eapply returns_weaken; [| apply (IH (Datatypes.S k) (t ++ t1) s1); [lia | exact H1]].
      intros t2 s2. rewrite app_assoc. exact (fun H => H). }
  apply (G n 0 [] s); [lia | exact H0].
Qed.
End Rules.

(** ** Lists *)

Lemma replace_nth_length A (l : list A) i a : length (replace_nth l i a) = length l.
Proof.
  revert i. induction l as [| x l IH]; intros [| i]; simpl; auto.
Qed.

Lemma nth_replace_nth A (l : list A) i k a d :
  i < length l ->
  nth k (replace_nth l i a) d = if k =? i then a else nth k l d.
Proof.
  revert i k. induction l as [| x l IH]; intros i k Hi; simpl in Hi; [lia |].
  destruct i as [| i], k as [| k]; simpl; auto.
  apply IH. lia.
Qed.

Lemma range_succ n : range (S n) = range n ++ [n].
Proof. unfold range. rewrite seq_S. reflexivity. Qed.

Lemma firstn_succ_nth_error A (l : list A) k a :
  nth_error l k = Some a -> firstn (S k) l = firstn k l ++ [a].
Proof.
  revert k. induction l as [| x l IH]; intros [| k] H; simpl in *; try discriminate.
  - congruence.
  - f_equal. apply IH. exact H.
Qed.

Lemma filter_length_app A (f : A -> bool) l l' :
  length (filter f (l ++ l')) = length (filter f l) + length (filter f l').
Proof. rewrite filter_app, length_app. reflexivity. Qed.

(** ** The comparison pass *)

(** The next statement reads [l[i]], which [H] shows to be there. *)
Ltac get_with H :=
  apply returns_bind; eapply returns_getitem; [exact H | cbv beta].

Section CompareFacts.
Variable Label : Type.
Variable Label_eq_dec : forall a b : Label, {a = b} + {a <> b}.
Variable results : list (list Label).
Variable results_names : list string.
Variable test_target : list Label.
Variable flag : bool.

Let wrong := wrong_at Label_eq_dec test_target.

Hypothesis shaped : well_shaped test_target results results_names.

Let one (b : bool) : nat := if b then 1 else 0.

(** The loop of lines 185-189 at sample [j]. *)
Lemma check_variants_returns j errs fne :
  j < length test_target ->
  length errs = length results ->
  returns
    (for_each (range (length results))
       (check_variant Label_eq_dec results test_target j) (mkLocals errs fne false))
    (fun t s =>
       t = []
       /\ length (number_of_errors s) = length results
       /\ (forall i r, nth_error results i = Some r ->
             nth i (number_of_errors s) 0 = nth i errs 0 + one (wrong r j))
       /\ flag_iteration_error s = any_wrong_at Label_eq_dec test_target results j
       /\ flag_no_errors s = fne && negb (any_wrong_at Label_eq_dec test_target results j)).
Proof.
  intros Hj Hlen.
  eapply returns_weaken;
    [| apply returns_for_range with
         (I := fun k t s =>
            t = []
            /\ length (number_of_errors s) = length results
            /\ (forall i r, nth_error results i = Some r ->
                  nth i (number_of_errors s) 0
                  = nth i errs 0 + one ((i <? k) && wrong r j))
            /\ flag_iteration_error s = existsb (fun r => wrong r j) (firstn k results)
            /\ flag_no_errors s
               = fne && negb (existsb (fun r => wrong r j) (firstn k results)))].
  - intros t s (Ht & Hl & Hn & Hi & Hf). rewrite firstn_all in Hi, Hf.
    repeat split; auto.
    intros i r Hr. rewrite (Hn i r Hr).
    assert (i < length results) by (apply nth_error_Some; congruence).
    apply Nat.ltb_lt in H. rewrite H. reflexivity.
  - simpl. split; [reflexivity |]. split; [exact Hlen |]. split.
    + intros i r _. simpl. lia.
    + split; [reflexivity |]. rewrite andb_true_r. reflexivity.
  - intros k t s Hk (Ht & Hl & Hn & Hi & Hf). subst t.
    destruct (nth_error results k) as [r |] eqn:Hr;
      [| apply nth_error_None in Hr; lia].
    assert (Hrj : length test_target <= length r).
    { destruct shaped as [Hall _]. rewrite Forall_forall in Hall.
      apply Hall. eapply nth_error_In; eauto. }
    destruct (nth_error r j) as [p |] eqn:Hp;
      [| apply nth_error_None in Hp; lia].
    destruct (nth_error test_target j) as [g |] eqn:Hg;
      [| apply nth_error_None in Hg; lia].
    assert (Hw : wrong r j = ne Label_eq_dec p g).
    { unfold wrong, wrong_at. rewrite Hp, Hg. reflexivity. }
    rewrite (firstn_succ_nth_error _ _ Hr), existsb_app. simpl.
    rewrite orb_false_r.
    unfold check_variant.
    get_with Hr.
    get_with Hp.
    get_with Hg.
    rewrite <- Hw.
    assert (Hstay : forall i r', nth_error results i = Some r' -> i <> k ->
              (i <? S k) && wrong r' j = (i <? k) && wrong r' j).
    { intros i r' _ Hik. f_equal.
      destruct (Nat.ltb_spec i (S k)), (Nat.ltb_spec i k); auto; lia. }
    destruct (wrong r j) eqn:Hwr.
    + destruct (nth_error (number_of_errors s) k) as [n |] eqn:Hn0;
        [| apply nth_error_None in Hn0; lia].
      get_with Hn0.
      apply returns_bind, returns_setitem; [lia |]; cbv beta.
      apply returns_ret. simpl.
      rewrite replace_nth_length, orb_true_r, andb_false_r.
      repeat split; auto.
      intros i r' Hr'. rewrite nth_replace_nth by lia.
      destruct (Nat.eqb_spec i k) as [-> | Hik].
      * assert (r' = r) by congruence. subst r'.
        rewrite Hwr. replace (k <? S k) with true by (symmetry; apply Nat.ltb_lt; lia).
        specialize (Hn k r Hr). rewrite Nat.ltb_irrefl in Hn. simpl in Hn.
        apply nth_error_nth with (d := 0) in Hn0. simpl. lia.
      * rewrite (Hstay i r' Hr' Hik). apply Hn. exact Hr'.
    + apply returns_ret. rewrite orb_false_r.
      repeat split; auto.
      intros i r' Hr'.
      destruct (Nat.eq_dec i k) as [-> | Hik].
      * assert (r' = r) by congruence. subst r'.
        rewrite (Hn k r Hr), Hwr, !andb_false_r. reflexivity.
      * rewrite (Hstay i r' Hr' Hik). apply Hn. exact Hr'.
Qed.

Lemma logged_entries_app (t t' : list (CompareEvent Label)) :
  logged_entries (t ++ t') = logged_entries t + logged_entries t'.
Proof. apply filter_length_app. Qed.

Lemma printed_app (t t' : list (CompareEvent Label)) :
  printed (t ++ t') = printed t ++ printed t'.
Proof. apply flat_map_app. Qed.

Lemma result_at i :
  i < length results ->
  exists r name, nth_error results i = Some r
                 /\ nth_error results_names i = Some name
                 /\ length test_target <= length r.
Proof.
  intros Hi. destruct shaped as [Hall Hnames].
  destruct (nth_error results i) as [r |] eqn:Hr;
    [| apply nth_error_None in Hr; lia].
  destruct (nth_error results_names i) as [name |] eqn:Hname;
    [| apply nth_error_None in Hname; lia].
  exists r, name. repeat split.
  rewrite Forall_forall in Hall. apply Hall. eapply nth_error_In; eauto.
Qed.

(** The loop of lines 194-195 at sample [j]. *)
Lemma print_variants_returns j :
  j < length test_target ->
  returns (for_each (range (length results)) (print_variant results results_names j) tt)
    (fun t _ => logged_entries t = 0 /\ printed t = []).
Proof.
  intros Hj.
  apply returns_for_range with (I := fun _ t _ => logged_entries t = 0 /\ printed t = []).
  - split; reflexivity.
  - intros k t [] Hk [Hlog Hpr].
    destruct (result_at Hk) as (r & name & Hr & Hname & Hrj).
    destruct (nth_error r j) as [p |] eqn:Hp;
      [| apply nth_error_None in Hp; lia].
    unfold print_variant.
    get_with Hname. get_with Hr. get_with Hp.
    apply returns_emit.
    rewrite logged_entries_app, printed_app, Hlog, Hpr. split; reflexivity.
Qed.

(** Lines 183-195 at sample [j]. *)
Lemma check_sample_returns j s :
  j < length test_target ->
  length (number_of_errors s) = length results ->
  returns (check_sample Label_eq_dec results results_names test_target flag j s)
    (fun t s' =>
       logged_entries t
       = one (any_wrong_at Label_eq_dec test_target results j && flag)
       /\ printed t = []
       /\ length (number_of_errors s') = length results
       /\ (forall i r, nth_error results i = Some r ->
             nth i (number_of_errors s') 0 = nth i (number_of_errors s) 0 + one (wrong r j))
       /\ flag_no_errors s'
          = flag_no_errors s && negb (any_wrong_at Label_eq_dec test_target results j)).
Proof.
  intros Hj Hlen. unfold check_sample.
  apply returns_bind.
  eapply returns_weaken; [| apply check_variants_returns; assumption].
  intros t s' (-> & Hl & Hn & Hi & Hf). rewrite Hi.
  destruct (any_wrong_at Label_eq_dec test_target results j && flag) eqn:Hlog.
  - destruct (nth_error test_target j) as [g |] eqn:Hg;
      [| apply nth_error_None in Hg; lia].
    apply returns_bind, returns_emit.
    get_with Hg.
    apply returns_bind, returns_emit.
    apply returns_bind.
    eapply returns_weaken; [| apply print_variants_returns; assumption].
    intros t [] [Hlog' Hpr]. apply returns_ret.
    rewrite app_nil_r, !logged_entries_app, !printed_app, Hlog', Hpr.
    repeat split; auto.
  - apply returns_ret. repeat split; auto.
Qed.

(** Lines 175-195. *)
Lemma compare_main_loop_returns path :
  returns (compare_main_loop Label_eq_dec results results_names test_target flag path)
    (fun t s =>
       logged_entries t
       = (if flag
          then length (filter (any_wrong_at Label_eq_dec test_target results)
                              (range (length test_target)))
          else 0)
       /\ printed t = []
       /\ length (number_of_errors s) = length results
       /\ (forall i r, nth_error results i = Some r ->
             nth i (number_of_errors s) 0 = mismatches Label_eq_dec test_target r)
       /\ flag_no_errors s
          = negb (existsb (any_wrong_at Label_eq_dec test_target results)
                          (range (length test_target)))).
Proof.
  unfold compare_main_loop.
  apply returns_bind.
  apply returns_weaken with
    (P := fun t (_ : unit) => logged_entries t = 0 /\ printed t = []);
    [| destruct flag; split; reflexivity].
  intros t0 [] [Hlog0 Hpr0].
  eapply returns_weaken;
    [| apply returns_for_range with
         (I := fun k t s =>
            logged_entries t
            = (if flag
               then length (filter (any_wrong_at Label_eq_dec test_target results) (range k))
               else 0)
            /\ printed t = []
            /\ length (number_of_errors s) = length results
            /\ (forall i r, nth_error results i = Some r ->
                  nth i (number_of_errors s) 0 = length (filter (wrong r) (range k)))
            /\ flag_no_errors s
               = negb (existsb (any_wrong_at Label_eq_dec test_target results) (range k)))].
  - intros t s (Hlog & Hpr & Hl & Hn & Hf).
    rewrite logged_entries_app, printed_app, Hlog0, Hpr0. repeat split; auto.
  - simpl. split; [destruct flag; reflexivity |]. split; [reflexivity |].
    split; [apply repeat_length |]. split; [| reflexivity].
    intros i r _. apply nth_repeat.
  - intros k t s Hk (Hlog & Hpr & Hl & Hn & Hf).
    eapply returns_weaken; [| apply check_sample_returns; assumption].
    intros t' s' (Hlog' & Hpr' & Hl' & Hn' & Hf').
    rewrite logged_entries_app, printed_app, Hlog, Hpr, Hlog', Hpr', Hf', Hf.
    rewrite range_succ, existsb_app, !filter_length_app. simpl.
    rewrite orb_false_r, negb_orb.
    split; [| repeat split; auto].
    + destruct flag; [rewrite andb_true_r | rewrite andb_false_r; reflexivity].
      destruct (any_wrong_at Label_eq_dec test_target results k); reflexivity.
    + intros i r Hr. rewrite (Hn' i r Hr), (Hn i r Hr), filter_length_app. simpl.
      destruct (wrong r k); reflexivity.
Qed.

Lemma mismatches_le r : mismatches Label_eq_dec test_target r <= length test_target.
Proof.
  unfold mismatches.
  eapply Nat.le_trans; [apply filter_length_le |].
  unfold range. rewrite length_seq. apply Nat.le_refl.
Qed.

(** The loop of lines 200-201. *)
Lemma print_errors_returns errs :
  length errs = length results ->
  (forall i r, nth_error results i = Some r ->
     nth i errs 0 = mismatches Label_eq_dec test_target r) ->
  returns (for_each (range (length results)) (print_errors Label results_names errs) tt)
    (fun t _ =>
       logged_entries t = 0
       /\ printed t
          = map (fun nr => NumberOfErrors (fst nr) (mismatches Label_eq_dec test_target (snd nr)))
                (combine results_names results)).
Proof.
  intros Hl Hn.
  eapply returns_weaken;
    [| apply returns_for_range with
         (I := fun k t (_ : unit) =>
            logged_entries t = 0
            /\ printed t
               = map (fun nr => NumberOfErrors (fst nr)
                                 (mismatches Label_eq_dec test_target (snd nr)))
                     (firstn k (combine results_names results)))].
  - intros t [] [Hlog Hpr]. split; [exact Hlog |].
    rewrite Hpr, firstn_all2; [reflexivity |].
    rewrite length_combine. lia.
  - split; reflexivity.
  - intros k t [] Hk [Hlog Hpr].
    destruct (result_at Hk) as (r & name & Hr & Hname & _).
    destruct (nth_error errs k) as [n |] eqn:Hn0;
      [| apply nth_error_None in Hn0; lia].
    unfold print_errors. get_with Hname. get_with Hn0.
    apply returns_emit.
    rewrite logged_entries_app, printed_app, Hlog, Hpr. split; [reflexivity |].
    assert (Hc : nth_error (combine results_names results) k = Some (name, r)).
    { clear - Hr Hname. revert k Hr Hname.
      generalize results. induction results_names as [| x xs IH];
        intros [| y ys] [| k] Hr Hname; simpl in *; try discriminate.
      - congruence.
      - apply IH; assumption. }
    rewrite (firstn_succ_nth_error _ _ Hc), map_app. simpl.
    apply nth_error_nth with (d := 0) in Hn0. rewrite (Hn k r Hr) in Hn0.
    subst n. reflexivity.
Qed.

(** Lines 170-201: the whole pass. *)
Lemma compare_returns path :
  returns
    (_compare_with_own_classifier Label_eq_dec results results_names test_target flag path)
    (fun t _ =>
       logged_entries t
       = (if flag
          then length (filter (any_wrong_at Label_eq_dec test_target results)
                              (range (length test_target)))
          else 0)
       /\ printed t
          = if existsb (any_wrong_at Label_eq_dec test_target results)
                       (range (length test_target))
            then map (fun nr => NumberOfErrors (fst nr)
                                  (mismatches Label_eq_dec test_target (snd nr)))
                     (combine results_names results)
            else [AllResultsWereTheSame]).
Proof.
  unfold _compare_with_own_classifier.
  apply returns_bind.
  eapply returns_weaken; [| apply compare_main_loop_returns].
  intros t s (Hlog & Hpr & Hl & Hn & Hf). rewrite Hf.
  destruct (existsb (any_wrong_at Label_eq_dec test_target results)
                    (range (length test_target))); simpl.
  - eapply returns_weaken; [| apply print_errors_returns; assumption].
    intros t' [] [Hlog' Hpr'].
    rewrite logged_entries_app, printed_app, Hlog, Hpr, Hlog', Hpr'.
    split; [apply Nat.add_0_r | reflexivity].
  - rewrite logged_entries_app, printed_app, Hlog, Hpr. split; [| reflexivity].
    apply Nat.add_0_r.
Qed.

Lemma differing_variants_not_both_right j :
  j < length test_target ->
  variants_differ_at Label_eq_dec results j = true ->
  any_wrong_at Label_eq_dec test_target results j = true.
Proof.
  intros Hj H. unfold variants_differ_at in H. unfold any_wrong_at.
  apply existsb_exists in H. destruct H as (r & Hr & H).
  apply existsb_exists in H. destruct H as (r' & Hr' & H).
  unfold differ_at in H.
  destruct (nth_error r j) as [p |] eqn:Hp; [| discriminate].
  destruct (nth_error r' j) as [p' |] eqn:Hp'; [| discriminate].
  destruct (nth_error test_target j) as [g |] eqn:Hg;
    [| apply nth_error_None in Hg; lia].
  apply existsb_exists.
  destruct (Label_eq_dec p g) as [Hpg | Hpg].
  - exists r'. split; [exact Hr' |]. unfold wrong_at. rewrite Hp', Hg.
    unfold ne in *. destruct (Label_eq_dec p p'); [discriminate |].
    destruct (Label_eq_dec p' g); congruence.
  - exists r. split; [exact Hr |]. unfold wrong_at. rewrite Hp, Hg.
    unfold ne. destruct (Label_eq_dec p g); congruence.
Qed.

(** C1, as amended: when every variant has a prediction for every sample
    and a name, the pass ends normally, and the number of entries it
    wrote to the diagnostic log is the number of sample indices at which
    at least one variant's prediction differs from the ground truth (no
    entry at all when details are not saved to the file); every sample
    index at which two variants' predictions differ from each other is
    such an index, whether or not all variants are wrong there. *)
Theorem log_entries_are_the_samples_with_an_error path :
  returns
    (_compare_with_own_classifier Label_eq_dec results results_names test_target flag path)
    (fun t _ =>
       logged_entries t
       = if flag
         then length (filter (any_wrong_at Label_eq_dec test_target results)
                             (range (length test_target)))
         else 0)
  /\ (forall j, j < length test_target ->
        variants_differ_at Label_eq_dec results j = true ->
        any_wrong_at Label_eq_dec test_target results j = true).
Proof.
  split.
  - eapply returns_weaken; [| apply compare_returns]. intros t u [H _]. exact H.
  - intros j. apply differing_variants_not_both_right.
Qed.

(** C4: when every variant has a prediction for every sample and a name,
    the loop over the samples ends with [number_of_errors[i]] equal to
    the number of sample indices [j] at which [results[i][j]] differs
    from [test_target[j]], for every variant [i]; each count is at most
    the number of test samples; and when some count is not zero these
    are the counts the pass prints. *)
Theorem number_of_errors_counts_mismatches path :
  returns (compare_main_loop Label_eq_dec results results_names test_target flag path)
    (fun _ s =>
       length (number_of_errors s) = length results
       /\ forall i r, nth_error results i = Some r ->
            nth_error (number_of_errors s) i = Some (mismatches Label_eq_dec test_target r)
            /\ 0 <= mismatches Label_eq_dec test_target r <= length test_target)
  /\ returns
       (_compare_with_own_classifier Label_eq_dec results results_names test_target flag path)
       (fun t _ =>
          printed t
          = if existsb (any_wrong_at Label_eq_dec test_target results)
                       (range (length test_target))
            then map (fun nr => NumberOfErrors (fst nr)
                                  (mismatches Label_eq_dec test_target (snd nr)))
                     (combine results_names results)
            else [AllResultsWereTheSame]).
Proof.
  split.
  - eapply returns_weaken; [| apply compare_main_loop_returns].
    intros t s (_ & _ & Hl & Hn & _). split; [exact Hl |].
    intros i r Hr. split.
    + rewrite <- (Hn i r Hr). apply nth_error_nth'.
      rewrite Hl. apply nth_error_Some. congruence.
    + split; [lia | apply mismatches_le].
  - eapply returns_weaken; [| apply compare_returns]. intros t u [_ H]. exact H.
Qed.

(** C6: whatever the predictions and the ground truth are, and however
    many of them disagree, the pass ends normally, with no exception,
    once every variant has a prediction for every sample and a name. *)
Theorem compare_never_aborts_on_mismatches path :
  exists t,
    _compare_with_own_classifier Label_eq_dec results results_names test_target flag path
    = (t, inr tt).
Proof.
  destruct (returns_inv _ _ (compare_returns path)) as (t & [] & H & _).
  exists t. exact H.
Qed.
End CompareFacts.

(** ** The classifier generator and the test pipeline *)

Lemma trace_bind E A B (c : Run E A) (f : A -> Run E B) :
  trace (bind c f)
  = trace c ++ match outcome c with inr a => trace (f a) | inl _ => [] end.
Proof.
  destruct c as [t [e | a]]; simpl; [rewrite app_nil_r; reflexivity |].
  destruct (f a); reflexivity.
Qed.

Lemma trace_lift E E' A (f : E -> E') (c : Run E A) :
  trace (lift f c) = map f (trace c).
Proof. reflexivity. Qed.

(** The events of a sequence of statements, one statement at a time. *)
Ltac trace_steps :=
  cbn [outcome trace fst snd];
  repeat (rewrite trace_bind; cbn [outcome trace fst snd emit ret getitem nth_error]).

Section TesterFacts.
Variable Label : Type.
Variable Label_eq_dec : forall a b : Label, {a = b} + {a <> b}.
Variable Feature : Type.
Variable get_classifier : ClassifierType -> option Z -> option Z -> Estimator Label Feature.
Variable predict : Estimator Label Feature -> Data Feature -> list Label.
Variable own_predict : OwnClassifier Label Feature -> Data Feature -> list Label.
Variable quantize_data : Data Feature -> Data Feature -> Z -> Data Feature * Data Feature.
Variable os_path_join : string -> string -> string.
Variable os_path_exists : string -> bool.
Variable str_int : Z -> string.

Lemma generate_my_classifier_unsupported (clf : Estimator Label Feature) nf bits path rf :
  supported (est_class clf) = false ->
  generate_my_classifier clf nf bits path rf = unknown_type Label Feature.
Proof.
  unfold supported, generate_my_classifier. intros H.
  apply orb_false_elim in H. destruct H as [-> ->]. reflexivity.
Qed.

Lemma generate_my_classifier_supported (clf : Estimator Label Feature) nf bits path rf :
  supported (est_class clf) = true ->
  exists kind name,
    let my_clf := mkOwnClassifier kind name nf bits (Some clf) in
    generate_my_classifier clf nf bits path rf
    = ([PrintLine (if is_DecisionTreeClassifier (est_class clf)
                   then "Creating decision tree classifier!"
                   else "Creating random forest classifier!");
        Constructed kind name nf bits; Built my_clf;
        CreatedVhdlFile my_clf path; PrintedParameters my_clf rf],
       inr my_clf).
Proof.
  unfold supported, generate_my_classifier. intros H.
  destruct (is_DecisionTreeClassifier (est_class clf)).
  - exists Tree, "DecisionTreeClassifier"%string. reflexivity.
  - simpl in H. rewrite H.
    exists RandomForest, "RandomForestClassifier"%string. reflexivity.
Qed.

(** An exception is raised exactly for the classes that are neither a
    [DecisionTreeClassifier] nor a [RandomForestClassifier]. *)
Lemma generate_my_classifier_raises_iff (clf : Estimator Label Feature) nf bits path rf :
  (exists e, outcome (generate_my_classifier clf nf bits path rf) = inl e)
  <-> supported (est_class clf) = false.
Proof.
  destruct (supported (est_class clf)) eqn:H.
  - destruct (generate_my_classifier_supported clf nf bits path rf H) as (k & n & E).
    cbv zeta in E. rewrite E. split; [intros [e He]; discriminate | discriminate].
  - rewrite (generate_my_classifier_unsupported clf nf bits path rf H).
    split; [reflexivity | intros _; eexists; reflexivity].
Qed.

(** C3, at a [RandomForestRegressor]: [generate_my_classifier] prints
    "Unknown type of classifier!" and raises the [ValueError]; it builds
    and returns no fixed-point model for this ensemble of trees. *)
Theorem generate_my_classifier_rejects_RandomForestRegressor
    max_depth number_of_classifiers (fitted_on : option (Data Feature * list Label))
    nf bits path rf :
  generate_my_classifier
    (mkEstimator RandomForestRegressor max_depth number_of_classifiers fitted_on)
    nf bits path rf
  = ([PrintLine "Unknown type of classifier!"],
     inl (ValueError "Unknown type of classifier!")).
Proof. reflexivity. Qed.

(** C7: when the estimator is neither a [DecisionTreeClassifier] nor a
    [RandomForestClassifier], [generate_my_classifier] does nothing but
    print "Unknown type of classifier!" and raise the [ValueError]: no
    constructor of a fixed-point model is called, nothing is built, no
    VHDL file is created, and no value is returned. *)
Theorem unknown_type_stops_before_any_processing (clf : Estimator Label Feature) nf bits path rf :
  is_DecisionTreeClassifier (est_class clf) = false ->
  is_RandomForestClassifier (est_class clf) = false ->
  let run := generate_my_classifier clf nf bits path rf in
  trace run = [PrintLine "Unknown type of classifier!"]
  /\ existsb (@builds_or_writes Label Feature) (trace run) = false
  /\ outcome run = inl (ValueError "Unknown type of classifier!")
  /\ forall my_clf, outcome run <> inr my_clf.
Proof.
  intros Hd Hr run. subst run.
  rewrite generate_my_classifier_unsupported
    by (unfold supported; rewrite Hd, Hr; reflexivity).
  repeat split. intros my_clf. discriminate.
Qed.

Lemma constructed_bit_widths_app (t t' : list (TesterEvent Label Feature)) :
  constructed_bit_widths (t ++ t') = constructed_bit_widths t ++ constructed_bit_widths t'.
Proof. apply flat_map_app. Qed.

Lemma compare_events_are_no_calls (t : list (CompareEvent Label)) :
  constructed_bit_widths (map (@Compare Label Feature) t) = []
  /\ quantization_bit_widths (map (@Compare Label Feature) t) = []
  /\ prediction_sets (map (@Compare Label Feature) t) = []
  /\ predicted_from (map (@Compare Label Feature) t) = []
  /\ compare_calls (map (@Compare Label Feature) t) = [].
Proof.
  induction t as [| e t IH]; simpl; [repeat split | exact IH].
Qed.

Section Run.
Variable number_of_bits_per_feature : Z.
Variable train_data test_data : Data Feature.
Variable train_target test_target : list Label.
Variable clf_type : ClassifierType.
Variable max_depth number_of_classifiers : option Z.
Variable path name : string.

Let run :=
  test_dataset Label_eq_dec get_classifier predict own_predict quantize_data
    os_path_join os_path_exists str_int
    number_of_bits_per_feature train_data train_target test_data test_target
    clf_type max_depth number_of_classifiers path name.

Let clf0 := get_classifier clf_type max_depth number_of_classifiers.
Let clf1 :=
  clf_raw get_classifier train_data train_target clf_type max_depth number_of_classifiers.
Let clf2 :=
  clf_quantized get_classifier quantize_data number_of_bits_per_feature train_data
    test_data train_target clf_type max_depth number_of_classifiers.
Let test_q := test_data_quantized quantize_data number_of_bits_per_feature train_data test_data.
Let p1 := predict clf1 test_data.
Let p2 := predict clf2 test_q.

(** The first report is made, and the second one too. *)
Let reported1 := length test_target =? length p1.
Let reported2 := reported1 && (length test_target =? length p2).
(** Line 59 is reached and returns. *)
Let generated :=
  reported2 && negb (length train_data =? 0) && supported (est_class clf0).

(** The calls a run makes, whatever the comparison pass does. *)
Lemma test_dataset_calls :
  quantization_bit_widths (trace run)
  = (if reported1 then [number_of_bits_per_feature] else [])
  /\ constructed_bit_widths (trace run)
     = (if generated then [(number_of_bits_per_feature + 1)%Z] else [])
  /\ (generated = false ->
      prediction_sets (trace run) = (if reported1 then [p1; p2] else [p1])
      /\ compare_calls (trace run) = [])
  /\ (generated = true ->
      exists my_clf,
        own_built_from my_clf = Some clf2
        /\ own_number_of_bits_per_feature my_clf = (number_of_bits_per_feature + 1)%Z
        /\ let p3 := own_predict my_clf test_q in
           prediction_sets (trace run) = [p1; p2; p3]
           /\ predicted_from (trace run) = [test_data; test_q; test_q]
           /\ compare_calls (trace run)
              = if length test_target =? length p3
                then [([p1; p2; p3], ["scikit"; "scikit_quantized"; "own_clf_quantized"],
                       test_target)]
                else []).
Proof.
  subst generated reported2 reported1 p2 p1 test_q clf2 clf1 run clf0.
  unfold test_dataset, report_performance, _report_classifier, _report_regressor,
    check_consistent_length, clf_quantized, clf_raw, test_data_quantized.
  set (dir := os_path_join path _).
  set (clf0 := get_classifier clf_type max_depth number_of_classifiers).
  destruct (quantize_data train_data test_data number_of_bits_per_feature)
    as [train_q test_q] eqn:Hq. cbn [fst snd].
  set (clf1 := fit clf0 train_data train_target).
  set (clf2 := fit clf1 train_q train_target).
  assert (Hclass : est_class clf2 = est_class clf0) by reflexivity.
  destruct (length test_target =? length (predict clf1 test_data)) eqn:E1; cbn [andb].
  2:{ destruct (os_path_exists dir), (is_RANDOM_FOREST_REGRESSOR clf_type);
        cbn [negb]; trace_steps; rewrite ?E1; trace_steps;
        (split; [reflexivity |]); (split; [reflexivity |]);
        (split; [intros _; split; reflexivity | discriminate]). }
  destruct (length test_target =? length (predict clf2 test_q)) eqn:E2; cbn [andb].
  2:{ destruct (os_path_exists dir), (is_RANDOM_FOREST_REGRESSOR clf_type);
        cbn [negb]; trace_steps; rewrite ?E1; trace_steps; rewrite ?E2; trace_steps;
        (split; [reflexivity |]); (split; [reflexivity |]);
        (split; [intros _; split; reflexivity | discriminate]). }
  destruct train_data as [| row rows]; cbn [length Nat.eqb negb andb].
  - destruct (os_path_exists dir), (is_RANDOM_FOREST_REGRESSOR clf_type);
      cbn [negb]; trace_steps; rewrite ?E1; trace_steps; rewrite ?E2; trace_steps;
      (split; [reflexivity |]); (split; [reflexivity |]);
      (split; [intros _; split; reflexivity | discriminate]).
  - destruct (supported (est_class clf0)) eqn:Hs.
    + rewrite <- Hclass in Hs.
      destruct (generate_my_classifier_supported clf2 (length row)
                  (number_of_bits_per_feature + 1)%Z dir None Hs)
        as (kind & nm & Hgen). cbv zeta in Hgen.
      set (my_clf := mkOwnClassifier kind nm (length row)
                       (number_of_bits_per_feature + 1)%Z (Some clf2)) in *.
      destruct (length test_target =? length (own_predict my_clf test_q)) eqn:E3.
      * destruct (os_path_exists dir), (is_RANDOM_FOREST_REGRESSOR clf_type);
          cbn [negb]; trace_steps; rewrite ?E1; trace_steps; rewrite ?E2; trace_steps;
          rewrite Hgen; trace_steps; rewrite ?E3; trace_steps;
          set (cmp := _compare_with_own_classifier Label_eq_dec _ _ _ _ _);
          unfold lift; cbn [fst];
          destruct (compare_events_are_no_calls (fst cmp)) as (Hc & Hqz & Hp & Hf & Hcc);
          unfold constructed_bit_widths, quantization_bit_widths, prediction_sets,
            predicted_from, compare_calls in *;
          (split; [cbn; rewrite Hqz; reflexivity |]);
          (split; [cbn; rewrite Hc; reflexivity |]);
          (split; [discriminate |]);
          intros _; exists my_clf;
          (split; [reflexivity |]); (split; [reflexivity |]);
          cbn; rewrite Hp, Hf, Hcc, ?E3; repeat split.
      * destruct (os_path_exists dir), (is_RANDOM_FOREST_REGRESSOR clf_type);
          cbn [negb]; trace_steps; rewrite ?E1; trace_steps; rewrite ?E2; trace_steps;
          rewrite Hgen; trace_steps; rewrite ?E3; trace_steps;
          (split; [reflexivity |]); (split; [reflexivity |]);
          (split; [discriminate |]);
          intros _; exists my_clf;
          (split; [reflexivity |]); (split; [reflexivity |]);
          cbv zeta; rewrite E3; repeat split.
    + rewrite <- Hclass in Hs.
      pose proof (generate_my_classifier_unsupported clf2 (length row)
                    (number_of_bits_per_feature + 1)%Z dir None Hs) as Hgen.
      destruct (os_path_exists dir), (is_RANDOM_FOREST_REGRESSOR clf_type);
        cbn [negb]; trace_steps; rewrite ?E1; trace_steps; rewrite ?E2; trace_steps;
        rewrite Hgen; unfold unknown_type;
        cbn [outcome trace fst snd];
        (split; [reflexivity |]); (split; [reflexivity |]);
        (split; [intros _; split; reflexivity | discriminate]).
Qed.

(** C5: in every run of [test_dataset] with feature bit width [B],
    [quantize_data], called once the first report is made, is given [B],
    and the fixed-point classifier, when one is constructed (the two
    reports on the estimator are made, [train_data] has a first row and the
    estimator is a [DecisionTreeClassifier] or a [RandomForestClassifier]),
    is constructed once, with bit width [B + 1]. A report is made when the
    ground truth and the predictions have one length. *)
Theorem own_classifier_is_one_bit_wider :
  let run :=
    test_dataset Label_eq_dec get_classifier predict own_predict quantize_data
      os_path_join os_path_exists str_int
      number_of_bits_per_feature train_data train_target test_data test_target
      clf_type max_depth number_of_classifiers path name in
  let quantized := quantize_data train_data test_data number_of_bits_per_feature in
  let clf :=
    fit (get_classifier clf_type max_depth number_of_classifiers)
      train_data train_target in
  let clf_quantized := fit clf (fst quantized) train_target in
  let reported := length test_target =? length (predict clf test_data) in
  let reported_quantized :=
    length test_target =? length (predict clf_quantized (snd quantized)) in
  quantization_bit_widths (trace run)
  = (if reported then [number_of_bits_per_feature] else [])
  /\ constructed_bit_widths (trace run)
     = if reported && reported_quantized && negb (length train_data =? 0)
          && supported (est_class (get_classifier clf_type max_depth number_of_classifiers))
       then [(number_of_bits_per_feature + 1)%Z]
       else [].
Proof.
  destruct test_dataset_calls as (Hq & Hc & _).
  cbv zeta. split; [exact Hq | exact Hc].
Qed.

End Run.
End TesterFacts.

(** ** The EMG loader *)

Lemma bind_ret_l E A B (a : A) (f : A -> Run E B) : bind (ret a) f = f a.
Proof. unfold bind, ret. destruct (f a). reflexivity. Qed.

Lemma bind_assoc E A B C (c : Run E A) (f : A -> Run E B) (g : B -> Run E C) :
  bind (bind c f) g = bind c (fun a => bind (f a) g).
Proof.
  destruct c as [t [e | a]]; simpl; [reflexivity |].
  destruct (f a) as [t' [e | b]]; simpl; [reflexivity |].
  destruct (g b) as [t'' r]. rewrite app_assoc. reflexivity.
Qed.

Lemma bind_inr E A B (c : Run E A) (f : A -> Run E B) t b :
  bind c f = (t, inr b) ->
  exists t1 a t2, c = (t1, inr a) /\ f a = (t2, inr b) /\ t = t1 ++ t2.
Proof.
  destruct c as [t1 [e | a]]; simpl; [discriminate |].
  destruct (f a) as [t2 r] eqn:Hf. intros H. inversion H. subst.
  exists t1, a, t2. auto.
Qed.

Lemma for_each_app E A S (xs ys : list A) (body : A -> S -> Run E S) s :
  for_each (xs ++ ys) body s = bind (for_each xs body s) (for_each ys body).
Proof.
  revert s. induction xs as [| x xs IH]; intros s.
  - symmetry. apply bind_ret_l.
  - cbn [app for_each]. rewrite bind_assoc.
    destruct (body x s) as [t [e | s']]; simpl; [reflexivity |].
    rewrite IH. reflexivity.
Qed.

Lemma no_events (t : list Empty_set) : t = [].
Proof. destruct t as [| [] ?]. reflexivity. Qed.

Local Open Scope Q_scope.

Lemma Qlt_bool_iff a b : Qlt_bool a b = true <-> (a < b)%Q.
Proof.
  unfold Qlt_bool. rewrite negb_true_iff. split; intros H.
  - apply Qnot_le_lt. intros Hle. apply Qle_bool_iff in Hle. congruence.
  - destruct (Qle_bool b a) eqn:Hle; [| reflexivity].
    apply Qle_bool_iff in Hle. exfalso. exact (Qlt_not_le _ _ H Hle).
Qed.

Lemma Qlt_bool_false a b : Qlt_bool a b = false <-> (b <= a)%Q.
Proof.
  unfold Qlt_bool. rewrite negb_false_iff. apply Qle_bool_iff.
Qed.

(** *** Rounding to an integer *)

Ltac compare_facts :=
  repeat match goal with
         | H : (_ ?= _) = Eq |- _ => apply Qeq_alt in H
         | H : (_ ?= _) = Lt |- _ => rewrite <- Qlt_alt in H
         | H : (_ ?= _) = Gt |- _ => rewrite <- Qgt_alt in H
         end.

Lemma nearest_even_floor x :
  (Qfloor x <= nearest_even x <= Qfloor x + 1)%Z.
Proof.
  unfold nearest_even. destruct (x - inject_Z (Qfloor x) ?= 1 # 2); [| lia | lia].
  destruct (Z.even (Qfloor x)); lia.
Qed.

Lemma nearest_even_Z z : nearest_even (inject_Z z) = z.
Proof.
  unfold nearest_even. rewrite Qfloor_Z.
  assert (E : inject_Z z - inject_Z z == 0) by ring.
  rewrite E. reflexivity.
Qed.

Lemma nearest_even_mono x y : x <= y -> (nearest_even x <= nearest_even y)%Z.
Proof.
  intros Hxy. pose proof (Qfloor_resp_le _ _ Hxy) as Hf.
  pose proof (nearest_even_floor x) as Hx. pose proof (nearest_even_floor y) as Hy.
  destruct (Z.eq_dec (Qfloor x) (Qfloor y)) as [E | NE]; [| lia].
  unfold nearest_even. rewrite <- E.
  destruct (x - inject_Z (Qfloor x) ?= 1 # 2) eqn:Cx;
    destruct (y - inject_Z (Qfloor x) ?= 1 # 2) eqn:Cy;
    try (destruct (Z.even (Qfloor x))); try lia; exfalso;
    compare_facts; lra.
Qed.

Lemma nearest_even_comp x y : x == y -> nearest_even x = nearest_even y.
Proof.
  intros E. apply Z.le_antisymm; apply nearest_even_mono; lra.
Qed.

Lemma nearest_even_le x z : x <= inject_Z z -> (nearest_even x <= z)%Z.
Proof.
  intros H. rewrite <- (nearest_even_Z z). apply nearest_even_mono. exact H.
Qed.

Lemma nearest_even_ge x z : inject_Z z <= x -> (z <= nearest_even x)%Z.
Proof.
  intros H. rewrite <- (nearest_even_Z z). apply nearest_even_mono. exact H.
Qed.

(** *** Powers of two *)

Lemma pow2_pos k : 0 < 2 ^ k.
Proof. apply Qpower_0_lt. reflexivity. Qed.

Lemma pow2_plus a b : 2 ^ (a + b) == 2 ^ a * 2 ^ b.
Proof. apply Qpower_plus. discriminate. Qed.

Lemma pow2_le a b : (a <= b)%Z -> 2 ^ a <= 2 ^ b.
Proof. intros H. apply Qpower_le_compat_l; [exact H | discriminate]. Qed.

Lemma pow2_Z k : (0 <= k)%Z -> inject_Z (2 ^ k) == 2 ^ k.
Proof. intros H. apply (Zpower_Qpower 2 k H). Qed.

Lemma pow2_minus a b : 2 ^ (a - b) == 2 ^ a / 2 ^ b.
Proof.
  unfold Z.sub. rewrite pow2_plus, Qpower_opp. reflexivity.
Qed.

Lemma inject_Z_le a b : (a <= b)%Z -> inject_Z a <= inject_Z b.
Proof. intros H. rewrite <- Zle_Qle. exact H. Qed.

Lemma inject_Z_lt a b : (a < b)%Z -> inject_Z a < inject_Z b.
Proof. intros H. rewrite <- Zlt_Qlt. exact H. Qed.

Lemma Qinv_le_contra a b : 0 < a -> a <= b -> / b <= / a.
Proof.
  intros Ha Hab. apply Qle_shift_inv_l; [exact Ha |].
  setoid_replace (/ b * a) with (a / b) by (unfold Qdiv; ring).
  apply Qle_shift_div_r; lra.
Qed.

(** *** The binary logarithm *)

Lemma ilog2_spec x : 0 < x -> 2 ^ ilog2 x <= x /\ x < 2 ^ (ilog2 x + 1).
Proof.
  intros Hx. unfold ilog2. destruct (Qle_bool 1 x) eqn:H1.
  - apply Qle_bool_iff in H1.
    assert (Hf : (1 <= Qfloor x)%Z).
    { change 1%Z with (Qfloor (inject_Z 1)). apply Qfloor_resp_le. exact H1. }
    destruct (Z.log2_spec (Qfloor x)) as [Hlo Hhi]; [lia |].
    pose proof (Z.log2_nonneg (Qfloor x)) as Hk.
    split.
    + rewrite <- pow2_Z by exact Hk.
      apply Qle_trans with (inject_Z (Qfloor x)); [apply inject_Z_le, Hlo | apply Qfloor_le].
    + rewrite <- pow2_Z by lia.
      apply Qlt_le_trans with (inject_Z (Qfloor x + 1)); [apply Qlt_floor |].
      apply inject_Z_le. rewrite <- Z.add_1_r in Hhi. lia.
  - assert (Hlt : x < 1).
    { apply Qnot_le_lt. intros Hle. apply Qle_bool_iff in Hle. congruence. }
    assert (Hy : 1 < / x).
    { apply Qlt_shift_inv_l; [exact Hx | lra]. }
    assert (Hc : (1 < Qceiling (/ x))%Z).
    { rewrite Zlt_Qlt. apply Qlt_le_trans with (/ x); [exact Hy | apply Qle_ceiling]. }
    destruct (Z.log2_up_spec (Qceiling (/ x)) Hc) as [Hlo Hhi].
    pose proof (Z.log2_up_nonneg (Qceiling (/ x))) as Hk.
    set (L := Z.log2_up (Qceiling (/ x))) in *.
    assert (HL : (0 < L)%Z).
    { destruct (Z.eq_dec L 0) as [E | NE]; [| lia]. rewrite E in Hhi. simpl in Hhi. lia. }
    assert (Hinv : / x <= 2 ^ L).
    { rewrite <- pow2_Z by lia.
      apply Qle_trans with (inject_Z (Qceiling (/ x))); [apply Qle_ceiling | apply inject_Z_le, Hhi]. }
    assert (Hinv' : 2 ^ (L - 1) < / x).
    { rewrite <- pow2_Z by lia.
      apply Qle_lt_trans with (inject_Z (Qceiling (/ x) - 1)); [| apply Qceiling_lt].
      apply inject_Z_le. replace (Z.pred L) with (L - 1)%Z in Hlo by lia. lia. }
    pose proof (pow2_pos L) as PL. pose proof (pow2_pos (L - 1)) as PL'.
    assert (Hix : 0 < / x) by lra.
    split.
    + rewrite Qpower_opp. rewrite <- (Qinv_involutive x) at 1.
      apply Qinv_le_contra; assumption.
    + replace (- L + 1)%Z with (- (L - 1))%Z by lia.
      rewrite Qpower_opp. rewrite <- (Qinv_involutive x) at 1.
      apply (proj1 (Qinv_lt_contravar _ _ PL' Hix)). exact Hinv'.
Qed.

Lemma ilog2_mono x y : 0 < x -> x <= y -> (ilog2 x <= ilog2 y)%Z.
Proof.
  intros Hx Hxy.
  destruct (ilog2_spec Hx) as [Hx1 _].
  destruct (@ilog2_spec y) as [_ Hy2]; [lra |].
  destruct (Z_le_gt_dec (ilog2 x) (ilog2 y)) as [H | H]; [exact H | exfalso].
  assert (Hp : 2 ^ (ilog2 y + 1) <= 2 ^ ilog2 x) by (apply pow2_le; lia).
  lra.
Qed.

(** *** The order of the floats *)

Lemma f_le_refl a : is_nan a = false -> f_le a a.
Proof. destruct a as [q | [|] |]; simpl; intros H; try exact I; [apply Qle_refl | discriminate]. Qed.

Lemma f_le_trans a b c : f_le a b -> f_le b c -> f_le a c.
Proof.
  destruct a as [x | [|] |], b as [y | [|] |], c as [z | [|] |]; simpl; try tauto.
  apply Qle_trans.
Qed.

Lemma f_le_not_nan a b : f_le a b -> is_nan a = false /\ is_nan b = false.
Proof. destruct a as [x | [|] |], b as [y | [|] |]; simpl; tauto. Qed.

Lemma f_lt_le a b : f_lt a b = true -> f_le a b.
Proof.
  destruct a as [x | [|] |], b as [y | [|] |]; simpl; try discriminate; try tauto.
  intros H. apply Qlt_bool_iff in H. apply Qlt_le_weak. exact H.
Qed.

Lemma f_lt_false a b : is_nan a = false -> is_nan b = false -> f_lt a b = false -> f_le b a.
Proof.
  destruct a as [x | [|] |], b as [y | [|] |]; simpl; try discriminate; try tauto.
  intros _ _ H. apply Qlt_bool_false in H. exact H.
Qed.

Lemma f_le_lt_false a b : f_le a b -> f_lt b a = false.
Proof.
  destruct a as [x | [|] |], b as [y | [|] |]; simpl; try tauto.
  intros H. apply Qlt_bool_false. exact H.
Qed.

Lemma f_lt_irrefl a : f_lt a a = false.
Proof.
  destruct a as [x | [|] |]; simpl; try reflexivity.
  apply Qlt_bool_false. apply Qle_refl.
Qed.

Lemma f_le_antisym_Num x y : f_le (Num x) (Num y) -> f_le (Num y) (Num x) -> x == y.
Proof. simpl. intros. lra. Qed.

(** *** Rounding to a float *)

Lemma Qred_inject_Z n : Qred (inject_Z n) = inject_Z n.
Proof.
  unfold Qred, inject_Z. pose proof (Z.ggcd_gcd n 1) as Hg.
  pose proof (Z.ggcd_correct_divisors n 1) as Hd.
  destruct (Z.ggcd n 1) as [g [a b]]. cbn [fst snd] in *.
  rewrite Z.gcd_1_r in Hg. subst g. destruct Hd as [Ha Hb].
  rewrite Z.mul_1_l in Ha, Hb. subst a b. reflexivity.
Qed.

Lemma Qdiv_le_compat x y p : 0 < p -> x <= y -> x / p <= y / p.
Proof.
  intros Hp Hxy. unfold Qdiv. apply Qmult_le_compat_r; [exact Hxy |].
  apply Qinv_le_0_compat. lra.
Qed.

Section FormatFacts.
Variables prec emax : Z.
Hypothesis prec_pos : (0 < prec)%Z.

Lemma ulp_exponent_mono x y :
  0 < x -> x <= y -> (ulp_exponent prec emax x <= ulp_exponent prec emax y)%Z.
Proof.
  intros Hx Hxy. unfold ulp_exponent. pose proof (ilog2_mono Hx Hxy). lia.
Qed.

Lemma ulp_exponent_emin x : (emin prec emax <= ulp_exponent prec emax x)%Z.
Proof. unfold ulp_exponent. lia. Qed.

Lemma rounded_nonneg x : 0 < x -> 0 <= rounded prec emax x.
Proof.
  intros Hx. unfold rounded.
  apply Qmult_le_0_compat; [| apply Qlt_le_weak, pow2_pos].
  change 0 with (inject_Z 0). apply inject_Z_le. apply nearest_even_ge.
  apply Qle_shift_div_l; [apply pow2_pos |].
  change (inject_Z 0) with 0. rewrite Qmult_0_l. apply Qlt_le_weak, Hx.
Qed.

Lemma rounded_mono x y : 0 < x -> x <= y -> rounded prec emax x <= rounded prec emax y.
Proof.
  intros Hx Hxy. assert (Hy : 0 < y) by lra.
  pose proof (ulp_exponent_mono Hx Hxy) as He.
  unfold rounded.
  set (e1 := ulp_exponent prec emax x) in *. set (e2 := ulp_exponent prec emax y) in *.
  pose proof (pow2_pos e1) as P1. pose proof (pow2_pos e2) as P2.
  destruct (Z.eq_dec e1 e2) as [E | NE].
  - rewrite <- E. apply Qmult_le_compat_r; [| lra].
    apply inject_Z_le, nearest_even_mono, Qdiv_le_compat; assumption.
  - assert (Hlt : (e1 < e2)%Z) by lia.
    destruct (ilog2_spec Hx) as [_ Hx2]. destruct (ilog2_spec Hy) as [Hy1 _].
    assert (H1 : (ilog2 x + 1 <= e1 + prec)%Z) by (unfold e1, ulp_exponent; lia).
    assert (H2 : (e2 = ilog2 y - (prec - 1))%Z).
    { pose proof (ulp_exponent_emin x). unfold e1, e2, ulp_exponent in *. lia. }
    assert (A : (nearest_even (x / 2 ^ e1) <= 2 ^ prec)%Z).
    { apply nearest_even_le. rewrite pow2_Z by lia.
      apply Qle_shift_div_r; [exact P1 |]. rewrite <- pow2_plus.
      apply Qle_trans with (2 ^ (ilog2 x + 1)); [lra | apply pow2_le; lia]. }
    assert (B : (2 ^ (prec - 1) <= nearest_even (y / 2 ^ e2))%Z).
    { apply nearest_even_ge. rewrite pow2_Z by lia.
      apply Qle_shift_div_l; [exact P2 |]. rewrite <- pow2_plus.
      apply Qle_trans with (2 ^ ilog2 y); [apply pow2_le; lia | exact Hy1]. }
    apply Qle_trans with (inject_Z (2 ^ prec) * 2 ^ e1).
    { apply Qmult_le_compat_r; [apply inject_Z_le, A | lra]. }
    apply Qle_trans with (inject_Z (2 ^ (prec - 1)) * 2 ^ e2).
    2:{ apply Qmult_le_compat_r; [apply inject_Z_le, B | lra]. }
    rewrite !pow2_Z by lia. rewrite <- !pow2_plus. apply pow2_le. lia.
Qed.

Lemma rounded_comp x y : 0 < x -> x == y -> rounded prec emax x == rounded prec emax y.
Proof.
  intros Hx E. apply Qle_antisym; apply rounded_mono; lra.
Qed.

(** A rounded number is a multiple of [2^emin]. *)
Lemma rounded_multiple x :
  exists z, rounded prec emax x == inject_Z z * 2 ^ emin prec emax.
Proof.
  unfold rounded. set (e := ulp_exponent prec emax x).
  pose proof (ulp_exponent_emin x) as He. fold e in He.
  exists (nearest_even (x / 2 ^ e) * 2 ^ (e - emin prec emax))%Z.
  rewrite inject_Z_mult, pow2_Z by lia.
  rewrite <- Qmult_assoc, <- pow2_plus.
  replace (e - emin prec emax + emin prec emax)%Z with e by lia. reflexivity.
Qed.

Lemma round_positive_mono x y :
  0 < x -> x <= y -> f_le (round_positive prec emax x) (round_positive prec emax y).
Proof.
  intros Hx Hxy. pose proof (rounded_mono Hx Hxy) as H. unfold round_positive.
  destruct (Qle_bool (2 ^ emax) (rounded prec emax y)) eqn:Ey.
  - destruct (Qle_bool (2 ^ emax) (rounded prec emax x)); exact I.
  - destruct (Qle_bool (2 ^ emax) (rounded prec emax x)) eqn:Ex.
    + apply Qle_bool_iff in Ex.
      assert (Hc : Qle_bool (2 ^ emax) (rounded prec emax y) = true).
      { apply Qle_bool_iff. lra. }
      congruence.
    + cbn [f_le]. apply Qred_le. exact H.
Qed.

Lemma round_positive_nonneg x : 0 < x -> f_le (Num 0) (round_positive prec emax x).
Proof.
  intros Hx. unfold round_positive.
  destruct (Qle_bool (2 ^ emax) (rounded prec emax x)); [exact I |].
  cbn [f_le]. rewrite Qred_correct. apply rounded_nonneg. exact Hx.
Qed.

Lemma f_neg_le a b : f_le a b -> f_le (f_neg b) (f_neg a).
Proof.
  destruct a as [x | [|] |], b as [y | [|] |]; simpl; try tauto. intros. lra.
Qed.

Lemma f_neg_zero_le a : f_le (Num 0) a -> f_le (f_neg a) (Num 0).
Proof. intros H. apply f_neg_le in H. simpl in *. exact H. Qed.

(** Rounding keeps the order. *)
Lemma round_mono x y : x <= y -> f_le (round prec emax x) (round prec emax y).
Proof.
  intros Hxy. unfold round.
  destruct (x ?= 0) eqn:Cx; destruct (y ?= 0) eqn:Cy; compare_facts;
    try (exfalso; lra).
  - simpl. apply Qle_refl.
  - apply round_positive_nonneg. exact Cy.
  - apply f_neg_zero_le, round_positive_nonneg. lra.
  - apply f_neg_le, round_positive_mono; lra.
  - apply f_le_trans with (Num 0);
      [apply f_neg_zero_le, round_positive_nonneg; lra | apply round_positive_nonneg; exact Cy].
  - apply round_positive_mono; assumption.
Qed.

Lemma round_not_nan x : is_nan (round prec emax x) = false.
Proof.
  unfold round, round_positive.
  destruct (x ?= 0); [reflexivity | |].
  - destruct (Qle_bool _ _); reflexivity.
  - destruct (Qle_bool _ _); reflexivity.
Qed.

(** A small integer is a float. *)
Lemma round_small_integer n :
  (emin prec emax <= 0)%Z -> (prec <= emax)%Z -> (0 <= n < 2 ^ prec)%Z ->
  round prec emax (inject_Z n) = Num (inject_Z n).
Proof.
  intros Hemin Hemax [Hn0 Hn]. unfold round.
  destruct (inject_Z n ?= 0) eqn:C; compare_facts.
  - assert (E : n = 0%Z) by (unfold Qeq in C; simpl in C; lia).
    subst n. reflexivity.
  - exfalso. assert (H : 0 <= inject_Z n) by (change 0 with (inject_Z 0); apply inject_Z_le, Hn0).
    lra.
  - assert (Hx : inject_Z n < 2 ^ prec).
    { rewrite <- pow2_Z by lia. apply inject_Z_lt, Hn. }
    destruct (ilog2_spec C) as [Hlo _].
    assert (Hl : (ilog2 (inject_Z n) <= prec - 1)%Z).
    { destruct (Z_le_gt_dec (ilog2 (inject_Z n)) (prec - 1)) as [H | H]; [exact H | exfalso].
      assert (Hp : 2 ^ prec <= 2 ^ ilog2 (inject_Z n)) by (apply pow2_le; lia). lra. }
    assert (R : rounded prec emax (inject_Z n) == inject_Z n).
    { unfold rounded. set (e := ulp_exponent prec emax (inject_Z n)).
      assert (He : (e <= 0)%Z) by (unfold e, ulp_exponent; lia).
      assert (E : inject_Z n / 2 ^ e == inject_Z (n * 2 ^ (- e))).
      { rewrite inject_Z_mult, pow2_Z by lia. rewrite Qpower_opp. reflexivity. }
      rewrite (nearest_even_comp E), nearest_even_Z, inject_Z_mult, pow2_Z by lia.
      rewrite <- Qmult_assoc, <- pow2_plus. replace (- e + e)%Z with 0%Z by lia.
      apply Qmult_1_r. }
    unfold round_positive.
    destruct (Qle_bool (2 ^ emax) (rounded prec emax (inject_Z n))) eqn:O.
    + exfalso. apply Qle_bool_iff in O.
      assert (Hp : 2 ^ prec <= 2 ^ emax) by (apply pow2_le; lia). lra.
    + f_equal. rewrite (Qred_complete _ _ R). apply Qred_inject_Z.
Qed.

Lemma round_comp x y : x == y -> round prec emax x = round prec emax y.
Proof.
  intros E. unfold round. rewrite E.
  destruct (y ?= 0) eqn:Cy; [reflexivity | |]; compare_facts; unfold round_positive.
  - assert (R : rounded prec emax (- x) == rounded prec emax (- y))
      by (apply rounded_comp; lra).
    rewrite R, (Qred_complete _ _ R). reflexivity.
  - assert (R : rounded prec emax x == rounded prec emax y)
      by (apply rounded_comp; lra).
    rewrite R, (Qred_complete _ _ R). reflexivity.
Qed.
End FormatFacts.

Local Close Scope Q_scope.

Lemma index_Some row x k :
  index row x = Some k ->
  nth_error row k = Some x /\ forall k', k' < k -> nth_error row k' <> Some x.
Proof.
  revert k. induction row as [| cell row IH]; intros k; simpl; [discriminate |].
  destruct (String.eqb_spec cell x) as [-> | Hne].
  - intros H. inversion H. subst. split; [reflexivity | intros k' Hk'; lia].
  - destruct (index row x) as [j |]; [| discriminate].
    intros H. inversion H. subst. destruct (IH j eq_refl) as [Hj Hbefore].
    split; [exact Hj |].
    intros [| k'] Hk'; simpl; [congruence | apply Hbefore; lia].
Qed.

Lemma index_None row x : index row x = None <-> ~ In x row.
Proof.
  induction row as [| cell row IH]; simpl; [tauto |].
  destruct (String.eqb_spec cell x) as [-> | Hne].
  - split; [discriminate | intros H; exfalso; apply H; left; reflexivity].
  - destruct (index row x) as [j |].
    + split; [discriminate |]. intros H. exfalso.
      assert (Hin : In x row).
      { destruct (in_dec string_dec x row) as [Hi | Hi]; [exact Hi |].
        apply IH in Hi. discriminate. }
      apply H. right. exact Hin.
    + split; [| reflexivity]. intros _ [Hc | Hin]; [congruence |].
      destruct IH as [IH _]. exact (IH eq_refl Hin).
Qed.

Lemma Forall2_In_left A B (R : A -> B -> Prop) l l' x :
  Forall2 R l l' -> In x l -> exists y, In y l' /\ R x y.
Proof.
  induction 1 as [| a b l l' Hab _ IH]; intros Hx; [destruct Hx |].
  destruct Hx as [<- | Hx].
  - exists b. split; [left; reflexivity | exact Hab].
  - destruct (IH Hx) as (y & Hy & Hxy). exists y. split; [right; exact Hy | exact Hxy].
Qed.

(** *** Minima, maxima and the bounds of the object *)

Lemma numbers_only_existsb xs : existsb is_nan xs = false <-> numbers_only xs.
Proof.
  unfold numbers_only. induction xs as [| x xs IH]; simpl.
  - split; [constructor | reflexivity].
  - rewrite orb_false_iff, IH. split.
    + intros [H1 H2]. constructor; assumption.
    + intros H. inversion H. split; assumption.
Qed.

Lemma numbers_only_not xs : ~ numbers_only xs -> existsb is_nan xs = true.
Proof.
  intros H. destruct (existsb is_nan xs) eqn:E; [reflexivity |].
  exfalso. apply H, numbers_only_existsb, E.
Qed.

Lemma smallest_spec x xs : numbers_only (x :: xs) -> least_of (x :: xs) (smallest x xs).
Proof.
  revert x. induction xs as [| y ys IH]; intros x Hn; simpl.
  - inversion Hn as [| ? ? Hx _]. subst.
    split; [left; reflexivity |]. intros z [<- | []]. apply f_le_refl, Hx.
  - inversion Hn as [| ? ? Hx Hn']. inversion Hn' as [| ? ? Hy Hys]. subst.
    assert (Hn2 : numbers_only ((if f_lt y x then y else x) :: ys)).
    { constructor; [destruct (f_lt y x); assumption | exact Hys]. }
    destruct (IH _ Hn2) as [Hin Hle].
    destruct (f_lt y x) eqn:Hyx.
    + apply f_lt_le in Hyx. split.
      * destruct Hin as [<- | Hin]; [right; left; reflexivity | right; right; exact Hin].
      * intros z [<- | [<- | Hz]].
        -- apply f_le_trans with y; [apply Hle; left; reflexivity | exact Hyx].
        -- apply Hle. left. reflexivity.
        -- apply Hle. right. exact Hz.
    + apply f_lt_false in Hyx; [| exact Hy | exact Hx]. split.
      * destruct Hin as [<- | Hin]; [left; reflexivity | right; right; exact Hin].
      * intros z [<- | [<- | Hz]].
        -- apply Hle. left. reflexivity.
        -- apply f_le_trans with x; [apply Hle; left; reflexivity | exact Hyx].
        -- apply Hle. right. exact Hz.
Qed.

Lemma largest_spec x xs :
  numbers_only (x :: xs) ->
  In (largest x xs) (x :: xs) /\ forall z, In z (x :: xs) -> f_le z (largest x xs).
Proof.
  revert x. induction xs as [| y ys IH]; intros x Hn; simpl.
  - inversion Hn as [| ? ? Hx _]. subst.
    split; [left; reflexivity |]. intros z [<- | []]. apply f_le_refl, Hx.
  - inversion Hn as [| ? ? Hx Hn']. inversion Hn' as [| ? ? Hy Hys]. subst.
    assert (Hn2 : numbers_only ((if f_lt x y then y else x) :: ys)).
    { constructor; [destruct (f_lt x y); assumption | exact Hys]. }
    destruct (IH _ Hn2) as [Hin Hle].
    destruct (f_lt x y) eqn:Hxy.
    + apply f_lt_le in Hxy. split.
      * destruct Hin as [<- | Hin]; [right; left; reflexivity | right; right; exact Hin].
      * intros z [<- | [<- | Hz]].
        -- apply f_le_trans with y; [exact Hxy | apply Hle; left; reflexivity].
        -- apply Hle. left. reflexivity.
        -- apply Hle. right. exact Hz.
    + apply f_lt_false in Hxy; [| exact Hx | exact Hy]. split.
      * destruct Hin as [<- | Hin]; [left; reflexivity | right; right; exact Hin].
      * intros z [<- | [<- | Hz]].
        -- apply Hle. left. reflexivity.
        -- apply f_le_trans with x; [exact Hxy | apply Hle; left; reflexivity].
        -- apply Hle. right. exact Hz.
Qed.

Lemma lower_bound_of_not_nan xs b : lower_bound_of xs b -> is_nan b = false.
Proof.
  intros [[-> | Hin] Hle]; [reflexivity |].
  apply (@f_le_not_nan _ _ (Hle b Hin)).
Qed.

Lemma greatest_of_zero_and_not_nan xs m : greatest_of_zero_and xs m -> is_nan m = false.
Proof. intros (_ & H0 & _). apply (@f_le_not_nan _ _ H0). Qed.

Lemma least_of_not_nan xs m : least_of xs m -> is_nan m = false.
Proof. intros [Hin Hle]. apply (@f_le_not_nan _ _ (Hle m Hin)). Qed.

Lemma lower_bound_of_app seen new b s :
  lower_bound_of seen b -> least_of new s ->
  lower_bound_of (seen ++ new) (if f_lt s b then s else b).
Proof.
  intros Hb Hs. pose proof (@lower_bound_of_not_nan _ _ Hb) as Nb.
  pose proof (@least_of_not_nan _ _ Hs) as Ns.
  destruct Hb as [Hor Hble], Hs as [Hin Hle].
  destruct (f_lt s b) eqn:Hsb.
  - apply f_lt_le in Hsb. split; [right; apply in_or_app; right; exact Hin |].
    intros x Hx. apply in_app_or in Hx. destruct Hx as [Hx | Hx]; [| apply Hle, Hx].
    apply f_le_trans with b; [exact Hsb | apply Hble, Hx].
  - apply f_lt_false in Hsb; [| exact Ns | exact Nb]. split.
    + destruct Hor as [E | Hm]; [left; exact E | right; apply in_or_app; left; exact Hm].
    + intros x Hx. apply in_app_or in Hx. destruct Hx as [Hx | Hx]; [apply Hble, Hx |].
      apply f_le_trans with s; [exact Hsb | apply Hle, Hx].
Qed.

Lemma greatest_of_zero_and_app seen new M s :
  greatest_of_zero_and seen M ->
  In s new -> (forall z, In z new -> f_le z s) ->
  greatest_of_zero_and (seen ++ new) (if f_lt M s then s else M).
Proof.
  intros HM Hin Hs. pose proof (@greatest_of_zero_and_not_nan _ _ HM) as NM.
  pose proof (proj1 (@f_le_not_nan _ _ (Hs s Hin))) as Ns.
  destruct HM as (Hor & H0 & Hle).
  destruct (f_lt M s) eqn:HMs.
  - apply f_lt_le in HMs. split; [right; apply in_or_app; right; exact Hin |].
    split; [apply f_le_trans with M; [exact H0 | exact HMs] |].
    intros x Hx. apply in_app_or in Hx. destruct Hx as [Hx | Hx]; [| apply Hs, Hx].
    apply f_le_trans with M; [apply Hle, Hx | exact HMs].
  - apply f_lt_false in HMs; [| exact NM | exact Ns]. split.
    + destruct Hor as [Hz | Hm]; [left; exact Hz | right; apply in_or_app; left; exact Hm].
    + split; [exact H0 |].
      intros x Hx. apply in_app_or in Hx. destruct Hx as [Hx | Hx]; [apply Hle, Hx |].
      apply f_le_trans with s; [apply Hs, Hx | exact HMs].
Qed.

Lemma rms_entries_app a b : rms_entries (a ++ b) = rms_entries a ++ rms_entries b.
Proof. unfold rms_entries. rewrite map_app, concat_app. reflexivity. Qed.

Lemma zero_crossings_entries_app a b :
  zero_crossings_entries (a ++ b) = zero_crossings_entries a ++ zero_crossings_entries b.
Proof. unfold zero_crossings_entries. rewrite map_app, concat_app. reflexivity. Qed.

Lemma numbers_only_concat_map (f : list Float -> list Float) (data : list (list Float)) :
  (forall row, incl (f row) row) ->
  Forall numbers_only data -> numbers_only (concat (map f data)).
Proof.
  intros Hf H. unfold numbers_only in *. apply Forall_concat. apply Forall_map.
  eapply Forall_impl; [| exact H]. intros row Hrow.
  apply Forall_forall. intros x Hx. rewrite Forall_forall in Hrow. apply Hrow, Hf, Hx.
Qed.

Lemma incl_firstn {A} n (l : list A) : incl (firstn n l) l.
Proof.
  intros x Hx. rewrite <- (firstn_skipn n l). apply in_or_app. left. exact Hx.
Qed.

Lemma incl_skipn {A} n (l : list A) : incl (skipn n l) l.
Proof.
  intros x Hx. rewrite <- (firstn_skipn n l). apply in_or_app. right. exact Hx.
Qed.

Lemma numbers_only_rms data : Forall numbers_only data -> numbers_only (rms_entries data).
Proof.
  apply numbers_only_concat_map. intros row. apply incl_firstn.
Qed.

Lemma numbers_only_zero_crossings data :
  Forall numbers_only data -> numbers_only (zero_crossings_entries data).
Proof.
  apply numbers_only_concat_map. intros row. apply incl_skipn.
Qed.

(** [_update_min_max] keeps the bounds those of all the rows seen so far. *)
Lemma update_min_max_covers self seen data t self' :
  bounds_cover self seen ->
  Forall numbers_only data ->
  _update_min_max self data = (t, inr self') ->
  bounds_cover self' (seen ++ data)
  /\ rms_entries data <> [] /\ zero_crossings_entries data <> []
  /\ _path self' = _path self.
Proof.
  intros (Hmr & HMr & Hmz & HMz) Hn. unfold _update_min_max.
  destruct data as [| row rows]; [discriminate |].
  pose proof (@numbers_only_rms _ Hn) as Nr.
  pose proof (@numbers_only_zero_crossings _ Hn) as Nz.
  unfold columns_to_8, columns_from_8. rewrite bind_ret_l.
  unfold amin at 1, amax at 1.
  fold (rms_entries (row :: rows)).
  destruct (rms_entries (row :: rows)) as [| x xs] eqn:Hrms; [discriminate |].
  rewrite (proj2 (numbers_only_existsb (x :: xs)) Nr).
  rewrite !bind_ret_l.
  unfold amin, amax.
  fold (zero_crossings_entries (row :: rows)).
  destruct (zero_crossings_entries (row :: rows)) as [| y ys] eqn:Hzc; [discriminate |].
  rewrite (proj2 (numbers_only_existsb (y :: ys)) Nz).
  rewrite !bind_ret_l.
  intros H. inversion H. subst t self'. clear H.
  rewrite <- Hrms, <- Hzc.
  pose proof (@smallest_spec _ _ Nr) as Hsx. destruct (@largest_spec _ _ Nr) as [Hlx Hlx'].
  pose proof (@smallest_spec _ _ Nz) as Hsy. destruct (@largest_spec _ _ Nz) as [Hly Hly'].
  pose proof (@lower_bound_of_app _ _ _ _ Hmr Hsx) as Gmr.
  pose proof (@greatest_of_zero_and_app _ _ _ _ HMr Hlx Hlx') as GMr.
  pose proof (@lower_bound_of_app _ _ _ _ Hmz Hsy) as Gmz.
  pose proof (@greatest_of_zero_and_app _ _ _ _ HMz Hly Hly') as GMz.
  rewrite <- Hrms in Gmr, GMr. rewrite <- Hzc in Gmz, GMz.
  rewrite <- rms_entries_app in Gmr, GMr.
  rewrite <- zero_crossings_entries_app in Gmz, GMz.
  clear Hsx Hlx Hlx' Hsy Hly Hly' Hmr HMr Hmz HMz.
  assert (Hne : rms_entries (row :: rows) <> [] /\ zero_crossings_entries (row :: rows) <> [])
    by (rewrite Hrms, Hzc; split; discriminate).
  destruct Hne as [Hne1 Hne2]. clear Hrms Hzc Nr Nz.
  destruct self as [p mr Mr mz Mz].
  cbn [_min_rms _max_rms _min_zero_crossings _max_zero_crossings _path] in *.
  destruct (f_lt (smallest x xs) mr);
    cbn [_min_rms _max_rms _min_zero_crossings _max_zero_crossings _path];
    destruct (f_lt Mr (largest x xs));
    cbn [_min_rms _max_rms _min_zero_crossings _max_zero_crossings _path];
    destruct (f_lt (smallest y ys) mz);
    cbn [_min_rms _max_rms _min_zero_crossings _max_zero_crossings _path];
    destruct (f_lt Mz (largest y ys));
    cbn [_min_rms _max_rms _min_zero_crossings _max_zero_crossings _path];
    (split; [split; [apply Gmr | split; [apply GMr | split; [apply Gmz | apply GMz]]]
            | split; [assumption | split; [assumption | reflexivity]]]).
Qed.

(** *** [float32] *)

Lemma round32_not_nan x : is_nan (round32 x) = false.
Proof. apply round_not_nan. Qed.

Lemma round32_mono x y : (x <= y)%Q -> f_le (round32 x) (round32 y).
Proof. apply round_mono. reflexivity. Qed.

(** The position of a cell is stored as it is up to [2^24]. *)
Lemma round32_position k :
  (Z.of_nat k <= 2 ^ 24)%Z ->
  round32 (inject_Z (Z.of_nat k)) = Num (inject_Z (Z.of_nat k)).
Proof.
  intros Hk. destruct (Z.eq_dec (Z.of_nat k) (2 ^ 24)) as [E | NE].
  - rewrite E. vm_compute. reflexivity.
  - apply round_small_integer; [reflexivity | vm_compute; discriminate | vm_compute; discriminate |].
    lia.
Qed.

Lemma cast32_value a : float32_value (cast32 a).
Proof. exists a. reflexivity. Qed.

Lemma float32_value_zero : float32_value (Num 0).
Proof. exists (Num 0). reflexivity. Qed.

Lemma float32_value_inf s : float32_value (Inf s).
Proof. exists (Inf s). reflexivity. Qed.

(** *** Reading the files *)

Section LoaderFacts.
Variable float : string -> option Float.

Lemma load_row_eq is_output row data :
  load_row float is_output row data
  = ([], match row_tuple float is_output row with
         | inl e => inl e
         | inr t => inr (data ++ [t])
         end).
Proof.
  unfold load_row, row_tuple. destruct is_output.
  - destruct (index row "1"); reflexivity.
  - destruct (floats float row) as [t [e | qs]]; rewrite (no_events t); reflexivity.
Qed.

Lemma load_rows_eq is_output rows data :
  for_each rows (load_row float is_output) data
  = ([], match tuples float is_output rows with
         | inl e => inl e
         | inr ts => inr (data ++ ts)
         end).
Proof.
  revert data. induction rows as [| row rows IH]; intros data; simpl.
  - rewrite app_nil_r. reflexivity.
  - rewrite load_row_eq.
    destruct (row_tuple float is_output row) as [e | t]; simpl; [reflexivity |].
    rewrite IH.
    destruct (tuples float is_output rows) as [e | ts]; [reflexivity |].
    rewrite <- app_assoc. reflexivity.
Qed.

Lemma load_files_rows is_output (files : list (list (list string))) data :
  for_each files (fun rows d => for_each rows (load_row float is_output) d) data
  = for_each (concat files) (load_row float is_output) data.
Proof.
  revert data. induction files as [| rows files IH]; intros data; simpl; [reflexivity |].
  rewrite for_each_app.
  destruct (for_each rows (load_row float is_output) data) as [t [e | d]];
    simpl; [reflexivity |].
  rewrite IH. reflexivity.
Qed.

(** The tuples of the target rows, converted to [float32]. *)
Lemma tuples_output rows :
  match tuples float true rows with
  | inr ts => Forall2 first_one rows (map (map cast32) ts)
              /\ Forall (fun t => length t = 1) ts
  | inl e => e = ValueError "'1' is not in list"
             /\ exists row, In row rows /\ ~ In "1" row
  end.
Proof.
  induction rows as [| row rows IH]; simpl; [split; constructor |].
  destruct (index row "1") as [k |] eqn:Hk.
  - destruct (tuples float true rows) as [e | ts].
    + destruct IH as [He (r & Hr & Hno)]. split; [exact He |].
      exists r. split; [right; exact Hr | exact Hno].
    + destruct IH as [Hall Hlen]. split; constructor; auto.
      exists k. split; [reflexivity |].
      split; [intros Hsmall; cbn [map cast32]; rewrite (round32_position _ Hsmall); reflexivity |].
      apply index_Some. exact Hk.
  - split; [reflexivity |]. exists row. split; [left; reflexivity |].
    apply index_None. exact Hk.
Qed.

Lemma floats_holds row t qs :
  floats float row = (t, inr qs) -> Forall2 (fun cell q => float cell = Some q) row qs.
Proof.
  revert t qs. induction row as [| cell row IH]; intros t qs; simpl.
  - intros H. inversion H. constructor.
  - destruct (float cell) as [q |] eqn:Hq; [| discriminate].
    intros H. apply bind_inr in H. destruct H as (t1 & qs' & t2 & H1 & H2 & _).
    inversion H2. subst. constructor; [exact Hq | eapply IH; exact H1].
Qed.

Lemma tuples_input rows ts :
  tuples float false rows = inr ts ->
  Forall2 (Forall2 (fun cell q => float cell = Some q)) rows ts.
Proof.
  revert ts. induction rows as [| row rows IH]; intros ts; cbn [tuples].
  - intros H. inversion H. constructor.
  - unfold row_tuple, outcome.
    destruct (floats float row) as [t [e | qs]] eqn:Hrow; cbn [snd]; [discriminate |].
    destruct (tuples float false rows) as [e | ts']; [discriminate |].
    intros H. inversion H. subst. constructor; [| apply IH; reflexivity].
    eapply floats_holds. exact Hrow.
Qed.

Lemma holds_floats_cast rows ts :
  Forall2 (Forall2 (fun cell q => float cell = Some q)) rows ts ->
  holds_floats float rows (map (map cast32) ts).
Proof.
  induction 1 as [| row t rows ts Hrow _ IH]; [constructor |].
  cbn [map]. constructor; [| exact IH].
  induction Hrow as [| cell q row t Hq _ IHrow]; [constructor |].
  cbn [map]. constructor; [exists q; split; [exact Hq | reflexivity] | exact IHrow].
Qed.

Lemma np_array_singletons (ts : list (list Float)) :
  Forall (fun t => length t = 1) ts -> np_array ts = ret (map (map cast32) ts).
Proof.
  intros H. destruct ts as [| t ts]; [reflexivity |]. unfold np_array.
  inversion H as [| ? ? Ht Hts]. subst.
  replace (forallb (fun r => length r =? length t) ts) with true; [reflexivity |].
  symmetry. apply forallb_forall. intros r Hr. rewrite Forall_forall in Hts.
  rewrite (Hts r Hr), Ht. reflexivity.
Qed.

Lemma np_array_inr data t a : np_array data = (t, inr a) -> a = map (map cast32) data.
Proof.
  destruct data as [| row rows]; unfold np_array.
  - intros H. inversion H. reflexivity.
  - destruct (forallb _ rows); [| discriminate]. intros H. inversion H. reflexivity.
Qed.

(** [_load_files] on target files. *)
Lemma load_files_output_eq self files :
  _load_files float self files true
  = ([], match tuples float true (concat files) with
         | inl e => inl e
         | inr ts => inr (self, map (map cast32) ts)
         end).
Proof.
  unfold _load_files. rewrite load_files_rows, load_rows_eq.
  pose proof (tuples_output (concat files)) as H.
  destruct (tuples float true (concat files)) as [e | ts]; [reflexivity |].
  destruct H as [_ Hlen]. cbn [bind app].
  rewrite (np_array_singletons Hlen). reflexivity.
Qed.

(** [_load_files] on input files. *)
Lemma load_files_input_inr self files t self' data :
  _load_files float self files false = (t, inr (self', data)) ->
  holds_floats float (concat files) data
  /\ _update_min_max self data = ([], inr self').
Proof.
  unfold _load_files. rewrite load_files_rows, load_rows_eq.
  destruct (tuples float false (concat files)) as [e | ts] eqn:Hts; [discriminate |].
  cbn [bind app negb]. intros H.
  destruct (np_array ts) as [t1 [e | a]] eqn:Ha; [discriminate |].
  apply np_array_inr in Ha. subst a. cbn [bind] in H.
  destruct (_update_min_max self (map (map cast32) ts)) as [t2 [e | s]] eqn:Hu;
    [discriminate |].
  cbn in H. inversion H. subst.
  split; [apply holds_floats_cast, tuples_input; exact Hts |].
  rewrite Hu, (no_events t2). reflexivity.
Qed.

(** Lines 70-73: the two input arrays are read from the files, and the
    bounds are updated with the train array and then with the test array. *)
Lemma load_arrays_inr self0 dir t self itr otr ite ote :
  load_arrays float self0 dir = (t, inr (self, (itr, otr, ite, ote))) ->
  holds_floats float (concat (input_train_files dir)) itr
  /\ holds_floats float (concat (input_test_files dir)) ite
  /\ exists self1,
       _update_min_max self0 itr = ([], inr self1)
       /\ _update_min_max self1 ite = ([], inr self).
Proof.
  unfold load_arrays. intros H.
  apply bind_inr in H. destruct H as (t1 & [s1 a1] & t1' & H1 & H & _).
  apply bind_inr in H. destruct H as (t2 & [s2 a2] & t2' & H2 & H & _).
  apply bind_inr in H. destruct H as (t3 & [s3 a3] & t3' & H3 & H & _).
  apply bind_inr in H. destruct H as (t4 & [s4 a4] & t4' & H4 & H & _).
  inversion H. subst. clear H.
  rewrite load_files_output_eq in H2, H4.
  destruct (tuples float true (concat (output_train_files dir))); [discriminate |].
  destruct (tuples float true (concat (output_test_files dir))); [discriminate |].
  inversion H2. inversion H4. subst.
  apply load_files_input_inr in H1, H3.
  destruct H1 as [Hn1 Hu1], H3 as [Hn3 Hu3].
  split; [exact Hn1 |]. split; [exact Hn3 |]. exists s2. split; assumption.
Qed.

Lemma holds_floats_values rows a : holds_floats float rows a -> float32_rows a.
Proof.
  induction 1 as [| row r rows a Hrow _ IH]; [constructor |].
  constructor; [| exact IH].
  induction Hrow as [| cell x row r (v & _ & ->) _ IHrow]; constructor;
    [apply cast32_value | exact IHrow].
Qed.

Lemma bounds_cover_init path : bounds_cover (EMGRaw_init path) [].
Proof.
  unfold bounds_cover, greatest_of_zero_and, lower_bound_of. simpl.
  repeat split; auto; try apply Qle_refl; intros x [].
Qed.

Lemma load_data_eq self0 dir t self itr otr ite ote :
  load_arrays float self0 dir = (t, inr (self, (itr, otr, ite, ote))) ->
  load_data float self0 dir
  = ([], inr (self, (_normalise self itr, otr, _normalise self ite, ote))).
Proof.
  intros H. unfold load_data. rewrite H, (no_events t). reflexivity.
Qed.

(** The bounds after [load_arrays] are those of the rows seen before and of
    the train and the test array together. *)
Lemma load_arrays_bounds self0 seen dir t self itr otr ite ote :
  bounds_cover self0 seen ->
  load_arrays float self0 dir = (t, inr (self, (itr, otr, ite, ote))) ->
  Forall numbers_only itr -> Forall numbers_only ite ->
  bounds_cover self (seen ++ itr ++ ite) /\ _path self = _path self0.
Proof.
  intros Hcover H Nr Ne. apply load_arrays_inr in H. destruct H as (_ & _ & s1 & H1 & H2).
  destruct (update_min_max_covers Hcover Nr H1) as (C1 & _ & _ & P1).
  destruct (update_min_max_covers C1 Ne H2) as (C2 & _ & _ & P2).
  rewrite <- app_assoc in C2. split; [exact C2 | congruence].
Qed.

(** *** The mapping to the unit interval *)

Lemma Num_inj a b : Num a = Num b -> a = b.
Proof. congruence. Qed.

Lemma float32_multiple q :
  float32_value (Num q) -> exists z, (q == inject_Z z * 2 ^ emin 24 128)%Q.
Proof.
  intros [b Hb]. destruct b as [x | s |]; cbn [cast32] in Hb; try discriminate.
  unfold round32, round in Hb. destruct (x ?= 0)%Q.
  - apply Num_inj in Hb; subst q. exists 0%Z. reflexivity.
  - unfold round_positive in Hb.
    destruct (Qle_bool (2 ^ 128) (rounded 24 128 (- x))); [discriminate |].
    cbn [f_neg] in Hb. apply Num_inj in Hb; subst q.
    destruct (rounded_multiple 24 128 (- x)) as [z Hz]. exists (- z)%Z.
    rewrite Qred_correct, Hz, inject_Z_opp. ring.
  - unfold round_positive in Hb.
    destruct (Qle_bool (2 ^ 128) (rounded 24 128 x)); [discriminate |].
    apply Num_inj in Hb; subst q. destruct (rounded_multiple 24 128 x) as [z Hz]. exists z.
    rewrite Qred_correct. exact Hz.
Qed.

(** The difference of two unequal [float32] numbers does not round to zero. *)
Lemma float32_difference_positive l h :
  float32_value (Num l) -> float32_value (Num h) -> (l < h)%Q ->
  f_lt (Num 0) (round32 (h - l)) = true.
Proof.
  intros Hl Hh Hlh.
  destruct (float32_multiple Hl) as [zl El]. destruct (float32_multiple Hh) as [zh Eh].
  pose proof (pow2_pos (emin 24 128)) as Pe.
  assert (Hz : (zl < zh)%Z).
  { destruct (Z_lt_ge_dec zl zh) as [H | H]; [exact H | exfalso].
    assert (Hq : (inject_Z zh <= inject_Z zl)%Q) by (apply inject_Z_le; lia).
    assert (Hm : (inject_Z zh * 2 ^ emin 24 128 <= inject_Z zl * 2 ^ emin 24 128)%Q)
      by (apply Qmult_le_compat_r; [exact Hq | apply Qlt_le_weak, Pe]).
    lra. }
  assert (Hd : (2 ^ emin 24 128 <= h - l)%Q).
  { assert (Hq : (inject_Z (zl + 1) <= inject_Z zh)%Q) by (apply inject_Z_le; lia).
    assert (Hm : (inject_Z (zl + 1) * 2 ^ emin 24 128 <= inject_Z zh * 2 ^ emin 24 128)%Q)
      by (apply Qmult_le_compat_r; [exact Hq | apply Qlt_le_weak, Pe]).
    rewrite inject_Z_plus in Hm. change (inject_Z 1) with 1%Q in Hm.
    rewrite El, Eh. lra. }
  pose proof (round32_mono Hd) as Hr.
  assert (Es : round32 (2 ^ emin 24 128) = Num (2 ^ emin 24 128)) by (vm_compute; reflexivity).
  rewrite Es in Hr.
  destruct (round32 (h - l)) as [b | [|] |]; cbn [f_le] in Hr; try contradiction;
    [| reflexivity].
  cbn [f_lt]. apply Qlt_bool_iff. lra.
Qed.

Lemma rescale_in_unit_interval lo hi x :
  float32_value lo -> float32_value hi ->
  f_le lo x -> f_le x hi -> f_lt lo hi = true ->
  is_finite (f_sub round32 hi lo) = true ->
  in_unit_interval (rescale lo hi x).
Proof.
  intros Vlo Vhi Hlx Hxh Hlh Hfin. unfold rescale.
  destruct lo as [l | sl |], hi as [h | sh |]; cbn [f_sub] in Hfin;
    try discriminate; try (destruct (Bool.eqb sh sl); discriminate).
  destruct x as [v | sx |]; cbn [f_le] in Hlx, Hxh;
    try contradiction; try (destruct sx; contradiction).
  cbn [f_lt] in Hlh. apply Qlt_bool_iff in Hlh. cbn [f_sub].
  pose proof (float32_difference_positive Vlo Vhi Hlh) as Hpos.
  destruct (round32 (h - l)) as [b | |] eqn:Eb; try discriminate.
  cbn [f_lt] in Hpos. apply Qlt_bool_iff in Hpos.
  assert (H0 : f_le (round32 0) (round32 (v - l))) by (apply round32_mono; lra).
  assert (H1 : f_le (round32 (v - l)) (round32 (h - l))) by (apply round32_mono; lra).
  rewrite Eb in H1. change (round32 0) with (Num 0) in H0.
  destruct (round32 (v - l)) as [a | [|] |]; cbn [f_le] in H0, H1; try contradiction.
  cbn [f_div].
  destruct (Qeq_bool b 0) eqn:Ez; [apply Qeq_bool_eq in Ez; exfalso; lra |].
  assert (Hq0 : (0 <= a / b)%Q) by (apply Qle_shift_div_l; lra).
  assert (Hq1 : (a / b <= 1)%Q) by (apply Qle_shift_div_r; lra).
  pose proof (round32_mono Hq0) as R0. pose proof (round32_mono Hq1) as R1.
  change (round32 0) with (Num 0) in R0. change (round32 1) with (Num 1) in R1.
  destruct (round32 (a / b)) as [r | [|] |]; cbn [f_le] in R0, R1; try contradiction.
  split; assumption.
Qed.

Lemma spread_bounds xs all lo hi :
  spread xs -> incl xs all -> lower_bound_of all lo -> greatest_of_zero_and all hi ->
  f_lt lo hi = true.
Proof.
  intros (a & b & Ha & Hb & Hab) Hincl [_ Hlo] (_ & _ & Hhi).
  pose proof (Hlo a (Hincl a Ha)) as H1. pose proof (Hhi b (Hincl b Hb)) as H2.
  destruct lo as [l | [|] |], hi as [h | [|] |], a as [x | [|] |], b as [y | [|] |];
    cbn [f_le f_lt] in *; try contradiction; try discriminate; try reflexivity.
  apply Qlt_bool_iff in Hab. apply Qlt_bool_iff. lra.
Qed.

Lemma lower_bound_of_value all lo :
  lower_bound_of all lo -> Forall float32_value all -> float32_value lo.
Proof.
  intros [[-> | Hin] _] Hall; [apply float32_value_inf |].
  rewrite Forall_forall in Hall. apply Hall, Hin.
Qed.

Lemma greatest_of_zero_and_value all hi :
  greatest_of_zero_and all hi -> Forall float32_value all -> float32_value hi.
Proof.
  intros ([-> | Hin] & _) Hall; [apply float32_value_zero |].
  rewrite Forall_forall in Hall. apply Hall, Hin.
Qed.

Lemma float32_rows_rms data : float32_rows data -> Forall float32_value (rms_entries data).
Proof.
  intros H. apply Forall_concat, Forall_map. eapply Forall_impl; [| exact H].
  intros row Hrow. apply Forall_forall. intros x Hx. rewrite Forall_forall in Hrow.
  apply Hrow. eapply incl_firstn. exact Hx.
Qed.

Lemma float32_rows_zero_crossings data :
  float32_rows data -> Forall float32_value (zero_crossings_entries data).
Proof.
  intros H. apply Forall_concat, Forall_map. eapply Forall_impl; [| exact H].
  intros row Hrow. apply Forall_forall. intros x Hx. rewrite Forall_forall in Hrow.
  apply Hrow. eapply incl_skipn. exact Hx.
Qed.

Lemma normalise_in_unit_interval self data all :
  incl (rms_entries data) (rms_entries all) ->
  incl (zero_crossings_entries data) (zero_crossings_entries all) ->
  bounds_cover self all -> float32_rows all ->
  f_lt (_min_rms self) (_max_rms self) = true ->
  f_lt (_min_zero_crossings self) (_max_zero_crossings self) = true ->
  is_finite (f_sub round32 (_max_rms self) (_min_rms self)) = true ->
  is_finite (f_sub round32 (_max_zero_crossings self) (_min_zero_crossings self)) = true ->
  Forall (Forall in_unit_interval) (_normalise self data).
Proof.
  intros Ir Iz (Lr & Gr & Lz & Gz) Hall Sr Sz Fr Fz.
  pose proof (float32_rows_rms Hall) as Vr.
  pose proof (float32_rows_zero_crossings Hall) as Vz.
  unfold _normalise.
  apply Forall_forall. intros out Hout.
  apply in_map_iff in Hout. destruct Hout as (row & <- & Hrow).
  apply Forall_app. split; apply Forall_forall; intros e He;
    apply in_map_iff in He; destruct He as (x & <- & Hx).
  - assert (Hin : In x (rms_entries all)).
    { apply Ir. unfold rms_entries. apply in_concat.
      exists (firstn 8 row). split; [apply in_map; exact Hrow | exact Hx]. }
    apply rescale_in_unit_interval;
      [eapply lower_bound_of_value; eassumption
      | eapply greatest_of_zero_and_value; eassumption
      | apply Lr, Hin | apply Gr, Hin | exact Sr | exact Fr].
  - assert (Hin : In x (zero_crossings_entries all)).
    { apply Iz. unfold zero_crossings_entries. apply in_concat.
      exists (skipn 8 row). split; [apply in_map; exact Hrow | exact Hx]. }
    apply rescale_in_unit_interval;
      [eapply lower_bound_of_value; eassumption
      | eapply greatest_of_zero_and_value; eassumption
      | apply Lz, Hin | apply Gz, Hin | exact Sz | exact Fz].
Qed.

(** [_normalise] maps every entry with the bounds of its group. *)
Lemma normalise_mapped self data : Forall2 (mapped_with self) data (_normalise self data).
Proof.
  unfold _normalise. induction data as [| row data IH]; [constructor |].
  cbn [map]. constructor; [| exact IH]. split.
  - rewrite length_app, !length_map, <- length_app, firstn_skipn. reflexivity.
  - intros j x Hj.
    assert (Hlt : j < length row) by (apply nth_error_Some; congruence).
    destruct (Nat.ltb_spec j 8) as [H8 | H8].
    + rewrite nth_error_app1 by (rewrite length_map, length_firstn; lia).
      rewrite nth_error_map, nth_error_firstn.
      destruct (Nat.ltb_spec j 8); [| lia]. rewrite Hj. reflexivity.
    + rewrite nth_error_app2 by (rewrite length_map, length_firstn; lia).
      rewrite length_map, length_firstn, nth_error_map, nth_error_skipn.
      replace (8 + (j - Nat.min 8 (length row))) with j by lia.
      rewrite Hj. reflexivity.
Qed.

(** C2, as amended: for each group of columns (RMS, columns 0-7, and zero
    crossings, columns 8 onward) one minimum and one maximum are kept in
    the object. After [load_data] on an object whose bounds are those of
    the rows [seen] it loaded before (none for a new object), they are
    those of [seen] and of the input files of the train and of the test
    partition together, the maximum being at least its initial value 0.0;
    and every entry of both partitions is mapped with these same bounds.
    The arrays hold what [float] reads in the cells, converted to
    [float32], none of which is [nan]. *)
Theorem bounds_come_from_both_partitions self0 seen dir self itr otr ite ote :
  bounds_cover self0 seen ->
  outcome (load_arrays float self0 dir) = inr (self, (itr, otr, ite, ote)) ->
  Forall numbers_only itr -> Forall numbers_only ite ->
  holds_floats float (concat (input_train_files dir)) itr
  /\ holds_floats float (concat (input_test_files dir)) ite
  /\ bounds_cover self (seen ++ itr ++ ite)
  /\ exists input_train_data input_test_data,
       outcome (load_data float self0 dir)
       = inr (self, (input_train_data, otr, input_test_data, ote))
       /\ Forall2 (mapped_with self) itr input_train_data
       /\ Forall2 (mapped_with self) ite input_test_data.
Proof.
  intros Hcover Hload Nr Ne.
  destruct (load_arrays float self0 dir) as [t r] eqn:H.
  cbn [outcome snd] in Hload. subst r.
  destruct (load_arrays_inr _ _ H) as (Hn1 & Hn2 & _).
  edestruct load_arrays_bounds as [Hb _]; [exact Hcover | exact H | exact Nr | exact Ne |].
  split; [exact Hn1 |]. split; [exact Hn2 |]. split; [exact Hb |].
  exists (_normalise self itr), (_normalise self ite).
  rewrite (load_data_eq _ _ H).
  split; [reflexivity |]. split; apply normalise_mapped.
Qed.

(** C9, as amended: when [load_data] loads a directory in which, over the
    input files loaded, the RMS columns hold two different values and so do
    the zero-crossing columns, no value is [nan], and for each group the
    difference of the upper and the lower bound of the object is a finite
    [float32], every entry of the train and of the test feature matrix it
    returns is a number between 0 and 1, both included. The object may
    have loaded rows [seen] before. *)
Theorem normalised_entries_are_in_the_unit_interval self0 seen dir self itr otr ite ote :
  bounds_cover self0 seen -> float32_rows seen ->
  outcome (load_arrays float self0 dir) = inr (self, (itr, otr, ite, ote)) ->
  Forall numbers_only itr -> Forall numbers_only ite ->
  spread (rms_entries (itr ++ ite)) ->
  spread (zero_crossings_entries (itr ++ ite)) ->
  is_finite (f_sub round32 (_max_rms self) (_min_rms self)) = true ->
  is_finite (f_sub round32 (_max_zero_crossings self) (_min_zero_crossings self)) = true ->
  exists input_train_data input_test_data,
    outcome (load_data float self0 dir)
    = inr (self, (input_train_data, otr, input_test_data, ote))
    /\ Forall (Forall in_unit_interval) input_train_data
    /\ Forall (Forall in_unit_interval) input_test_data.
Proof.
  intros Hcover Vseen Hload Nr Ne Sr Sz Fr Fz.
  destruct (load_arrays float self0 dir) as [t r] eqn:H.
  cbn [outcome snd] in Hload. subst r.
  destruct (load_arrays_inr _ _ H) as (Hn1 & Hn2 & _).
  edestruct load_arrays_bounds as [Hb _]; [exact Hcover | exact H | exact Nr | exact Ne |].
  assert (Vall : float32_rows (seen ++ itr ++ ite)).
  { apply Forall_app. split; [exact Vseen |]. apply Forall_app.
    split; eapply holds_floats_values; eassumption. }
  assert (Ir : incl (rms_entries (itr ++ ite)) (rms_entries (seen ++ itr ++ ite))).
  { rewrite (rms_entries_app seen). apply incl_appr, incl_refl. }
  assert (Iz : incl (zero_crossings_entries (itr ++ ite))
                 (zero_crossings_entries (seen ++ itr ++ ite))).
  { rewrite (zero_crossings_entries_app seen). apply incl_appr, incl_refl. }
  pose proof Hb as (Lr & Gr & Lz & Gz).
  assert (Br : f_lt (_min_rms self) (_max_rms self) = true)
    by (eapply spread_bounds; [exact Sr | exact Ir | exact Lr | exact Gr]).
  assert (Bz : f_lt (_min_zero_crossings self) (_max_zero_crossings self) = true)
    by (eapply spread_bounds; [exact Sz | exact Iz | exact Lz | exact Gz]).
  exists (_normalise self itr), (_normalise self ite).
  rewrite (load_data_eq _ _ H). split; [reflexivity |].
  split; apply normalise_in_unit_interval with (all := seen ++ itr ++ ite); try assumption;
    rewrite ?rms_entries_app, ?zero_crossings_entries_app;
    first [apply incl_appr, incl_appl, incl_refl | apply incl_appr, incl_appr, incl_refl].
Qed.

End LoaderFacts.

(** ** The statements at concrete inputs *)

Lemma example_well_shaped : well_shaped example_target example_results example_names.
Proof.
  split; [| simpl; lia].
  repeat constructor; simpl; lia.
Defined.

Lemma log_entries_are_the_samples_with_an_error_witness :
  well_shaped example_target example_results example_names
  /\ returns
       (_compare_with_own_classifier Z.eq_dec example_results example_names
          example_target true "out")
       (fun t _ => logged_entries t = 2).
Proof.
  split; [exact example_well_shaped |].
  destruct (log_entries_are_the_samples_with_an_error Z.eq_dec true
              example_well_shaped "out") as [H _].
  exact H.
Defined.

(** C1, as stated, fails: three variants that all predict 1 where the
    ground truth is 0 do not differ from each other, and yet one entry is
    written to the log. *)
Lemma equal_wrong_predictions_are_logged :
  logged_entries
    (trace (_compare_with_own_classifier Z.eq_dec [[1]; [1]; [1]]%Z example_names
              [0%Z] true "out"))
  <> length (filter (variants_differ_at Z.eq_dec [[1]; [1]; [1]]%Z) (range 1)).
Proof. vm_compute. discriminate. Qed.

Lemma number_of_errors_counts_mismatches_witness :
  well_shaped example_target example_results example_names
  /\ returns
       (compare_main_loop Z.eq_dec example_results example_names example_target true "out")
       (fun _ s => number_of_errors s = [0; 1; 2]).
Proof.
  split; [exact example_well_shaped |].
  destruct (number_of_errors_counts_mismatches Z.eq_dec true
              example_well_shaped "out") as [H _].
  eapply returns_weaken; [| exact H].
  intros t s [Hlen Hcount].
  destruct (number_of_errors s) as [| a [| b [| c [| d l]]]]; try discriminate.
  destruct (Hcount 0 _ eq_refl) as [H0 _].
  destruct (Hcount 1 _ eq_refl) as [H1 _].
  destruct (Hcount 2 _ eq_refl) as [H2 _].
  vm_compute in H0, H1, H2. congruence.
Defined.

Lemma compare_never_aborts_on_mismatches_witness :
  well_shaped example_target example_results example_names
  /\ exists t,
       _compare_with_own_classifier Z.eq_dec example_results example_names
         example_target true "out" = (t, inr tt).
Proof.
  split; [exact example_well_shaped |].
  exact (compare_never_aborts_on_mismatches Z.eq_dec true example_well_shaped "out").
Defined.

Lemma unknown_type_stops_before_any_processing_witness :
  let clf := mkEstimator RandomForestRegressor None (Some 100%Z)
               (Some ([[1; 7]; [2; 7]]%Z, [1; 2]%Z)) in
  is_DecisionTreeClassifier (est_class clf) = false
  /\ is_RandomForestClassifier (est_class clf) = false
  /\ trace (generate_my_classifier clf 2 9%Z "vhdl" None)
     = [PrintLine "Unknown type of classifier!"].
Proof.
  intros clf.
  split; [reflexivity |]. split; [reflexivity |].
  destruct (unknown_type_stops_before_any_processing clf 2 9%Z "vhdl" None
              eq_refl eq_refl) as [H _].
  exact H.
Defined.




Lemma example_train_data_has_a_row : [[1; 7]; [2; 7]]%Z <> @nil (list Z).
Proof. discriminate. Defined.



Example classifier_run_returns :
  outcome (example_run RANDOM_FOREST) = inr tt
  /\ constructed_bit_widths (trace (example_run RANDOM_FOREST)) = [9%Z].
Proof. vm_compute. repeat split. Qed.

(** The rounding at some values: 16777217 is half-way between two
    [float32] numbers and goes to the even one; 1e39 is past the largest;
    1/3 gets 24 bits; [2^-150] is half the smallest positive [float32] and
    goes to zero; and 16777217 is a [float64]. *)
Example round32_at_some_values :
  round32 16777217 = Num 16777216
  /\ round32 (10 ^ 39) = Inf false
  /\ round32 (- (10 ^ 39)) = Inf true
  /\ round32 (3 * 10 ^ 38) = Num 300000000549775575777803994281145270272
  /\ round32 (1 # 3) = Num (11184811 # 33554432)
  /\ round32 (2 ^ (-150)) = Num 0
  /\ round32 (2 ^ (-149)) = Num (2 ^ (-149))
  /\ round64 16777217 = Num 16777217.
Proof. vm_compute. repeat split. Qed.

Lemma emg_directory_loads :
  outcome (load_arrays float_of_numeral (EMGRaw_init "emg") (emg_directory "4"))
  = inr (emg_object, (emg_train_array, [[Num 1]; [Num 0]], emg_test_array, [[Num 2]])).
Proof. vm_compute. reflexivity. Defined.

Lemma emg_train_array_numbers_only : Forall numbers_only emg_train_array.
Proof. repeat constructor. Defined.

Lemma emg_test_array_numbers_only : Forall numbers_only emg_test_array.
Proof. repeat constructor. Defined.

(** C2, as stated, fails: the train files of the two directories are the
    same and their largest RMS value is 2, yet with the value 4 in the test
    file the upper RMS bound is 4 and not 2, and the train entry 2 is
    mapped to 2/4 and not to 2/2. *)
Lemma test_partition_moves_the_bounds :
  input_train_files (emg_directory "2") = input_train_files (emg_directory "4")
  /\ outcome (load_data float_of_numeral (EMGRaw_init "emg") (emg_directory "2"))
     = inr (emg_loaded 2 2)
  /\ outcome (load_data float_of_numeral (EMGRaw_init "emg") (emg_directory "4"))
     = inr (emg_loaded 4 4)
  /\ ~ (2 # 2 == 2 # 4)%Q.
Proof.
  split; [reflexivity |]. split; [vm_compute; reflexivity |].
  split; [vm_compute; reflexivity |]. discriminate.
Qed.

(** The object that has loaded [emg_directory "4"], and what it reads in
    the second directory. *)
Lemma emg_object_covers : bounds_cover emg_object (emg_train_array ++ emg_test_array).
Proof.
  assert (H : load_arrays float_of_numeral (EMGRaw_init "emg") (emg_directory "4")
              = ([], inr (emg_object,
                          (emg_train_array, [[Num 1]; [Num 0]], emg_test_array, [[Num 2]]))))
    by (vm_compute; reflexivity).
  exact (proj1 (@load_arrays_bounds float_of_numeral (EMGRaw_init "emg") []
                  (emg_directory "4") _ _ _ _ _ _ (bounds_cover_init "emg") H
                  emg_train_array_numbers_only emg_test_array_numbers_only)).
Defined.

Lemma emg_second_directory_loads :
  outcome (load_arrays float_of_numeral emg_object emg_second_directory)
  = inr (emg_object,
         (emg_second_train_array, [[Num 0]], emg_second_test_array, [[Num 1]])).
Proof. vm_compute. reflexivity. Defined.

Lemma emg_second_train_array_numbers_only : Forall numbers_only emg_second_train_array.
Proof. repeat constructor. Defined.

Lemma emg_second_test_array_numbers_only : Forall numbers_only emg_second_test_array.
Proof. repeat constructor. Defined.

Lemma bounds_come_from_both_partitions_witness :
  bounds_cover emg_object (emg_train_array ++ emg_test_array)
  /\ outcome (load_arrays float_of_numeral emg_object emg_second_directory)
     = inr (emg_object,
            (emg_second_train_array, [[Num 0]], emg_second_test_array, [[Num 1]]))
  /\ Forall numbers_only emg_second_train_array
  /\ Forall numbers_only emg_second_test_array
  /\ bounds_cover emg_object
       ((emg_train_array ++ emg_test_array)
        ++ emg_second_train_array ++ emg_second_test_array)
  /\ exists input_train_data input_test_data,
       outcome (load_data float_of_numeral emg_object emg_second_directory)
       = inr (emg_object, (input_train_data, [[Num 0]], input_test_data, [[Num 1]]))
       /\ Forall2 (mapped_with emg_object) emg_second_train_array input_train_data
       /\ Forall2 (mapped_with emg_object) emg_second_test_array input_test_data.
Proof.
  split; [exact emg_object_covers |]. split; [exact emg_second_directory_loads |].
  split; [exact emg_second_train_array_numbers_only |].
  split; [exact emg_second_test_array_numbers_only |].
  destruct (@bounds_come_from_both_partitions float_of_numeral emg_object
              (emg_train_array ++ emg_test_array) emg_second_directory emg_object
              emg_second_train_array [[Num 0]] emg_second_test_array [[Num 1]]
              emg_object_covers emg_second_directory_loads
              emg_second_train_array_numbers_only emg_second_test_array_numbers_only)
    as (_ & _ & Hb & Hload).
  split; [exact Hb | exact Hload].
Defined.

Lemma emg_seen_rows : float32_rows (emg_train_array ++ emg_test_array).
Proof.
  repeat constructor;
    match goal with |- float32_value (Num ?q) => exists (Num q); vm_compute; reflexivity end.
Defined.

Lemma emg_second_rms_spread :
  spread (rms_entries (emg_second_train_array ++ emg_second_test_array)).
Proof.
  exists (Num 1), (Num 2). split; [vm_compute; tauto |]. split; [vm_compute; tauto |].
  reflexivity.
Defined.

Lemma emg_second_zero_crossings_spread :
  spread (zero_crossings_entries (emg_second_train_array ++ emg_second_test_array)).
Proof.
  exists (Num 1), (Num 3). split; [vm_compute; tauto |]. split; [vm_compute; tauto |].
  reflexivity.
Defined.

Lemma normalised_entries_are_in_the_unit_interval_witness :
  bounds_cover emg_object (emg_train_array ++ emg_test_array)
  /\ float32_rows (emg_train_array ++ emg_test_array)
  /\ outcome (load_arrays float_of_numeral emg_object emg_second_directory)
     = inr (emg_object,
            (emg_second_train_array, [[Num 0]], emg_second_test_array, [[Num 1]]))
  /\ Forall numbers_only emg_second_train_array
  /\ Forall numbers_only emg_second_test_array
  /\ spread (rms_entries (emg_second_train_array ++ emg_second_test_array))
  /\ spread (zero_crossings_entries (emg_second_train_array ++ emg_second_test_array))
  /\ is_finite (f_sub round32 (_max_rms emg_object) (_min_rms emg_object)) = true
  /\ is_finite (f_sub round32 (_max_zero_crossings emg_object)
                  (_min_zero_crossings emg_object)) = true
  /\ exists input_train_data input_test_data,
       outcome (load_data float_of_numeral emg_object emg_second_directory)
       = inr (emg_object, (input_train_data, [[Num 0]], input_test_data, [[Num 1]]))
       /\ Forall (Forall in_unit_interval) input_train_data
       /\ Forall (Forall in_unit_interval) input_test_data.
Proof.
  split; [exact emg_object_covers |]. split; [exact emg_seen_rows |].
  split; [exact emg_second_directory_loads |].
  split; [exact emg_second_train_array_numbers_only |].
  split; [exact emg_second_test_array_numbers_only |].
  split; [exact emg_second_rms_spread |]. split; [exact emg_second_zero_crossings_spread |].
  split; [reflexivity |]. split; [reflexivity |].
  exact (@normalised_entries_are_in_the_unit_interval float_of_numeral emg_object
           (emg_train_array ++ emg_test_array) emg_second_directory emg_object
           emg_second_train_array [[Num 0]] emg_second_test_array [[Num 1]]
           emg_object_covers emg_seen_rows emg_second_directory_loads
           emg_second_train_array_numbers_only emg_second_test_array_numbers_only
           emg_second_rms_spread emg_second_zero_crossings_spread eq_refl eq_refl).
Defined.

(** C9, as stated, fails: the RMS values of the directory are -3e38, 3e38
    and 1, and its zero crossings 1, 2 and 3, so each group has a larger
    maximum than minimum; all of them are finite in [float32], yet the
    difference of the RMS bounds is not, and the entry for 3e38 is [nan]. *)
Lemma wide_group_is_mapped_to_nan :
  exists self itr otr ite ote train test,
    outcome (load_arrays float_of_numeral (EMGRaw_init "emg") emg_wide_directory)
    = inr (self, (itr, otr, ite, ote))
    /\ Forall (Forall (fun x => is_finite x = true)) (itr ++ ite)
    /\ spread (rms_entries (itr ++ ite))
    /\ spread (zero_crossings_entries (itr ++ ite))
    /\ outcome (load_data float_of_numeral (EMGRaw_init "emg") emg_wide_directory)
       = inr (self, (train, otr, test, ote))
    /\ nth_error train 0 = Some (Num 0 :: NaN :: map Num [0; 0; 0; 0; 0; 0; 0; 1]%Q)
    /\ ~ Forall (Forall in_unit_interval) train.
Proof.
  do 7 eexists.
  split; [vm_compute; reflexivity |].
  split; [repeat constructor |].
  split; [eexists _, _; split; [left; reflexivity |];
          split; [right; left; reflexivity | vm_compute; reflexivity] |].
  split; [exists (Num 1), (Num 3); split; [vm_compute; tauto |];
          split; [vm_compute; tauto | reflexivity] |].
  split; [vm_compute; reflexivity |].
  split; [reflexivity |].
  intros H. inversion H as [| ? ? Hrow _]. inversion Hrow as [| ? ? _ Hrest].
  inversion Hrest as [| ? ? Hnan _]. exact Hnan.
Qed.


(** ** Further properties: rules for [always], [ensures] and the exceptions *)

Section MoreRules.
Variable E : Type.

Lemma returns_conj A (c : Run E A) (P Q : list E -> A -> Prop) :
  returns c P -> returns c Q -> returns c (fun t a => P t a /\ Q t a).
Proof. destruct c as [t [e | a]]; simpl; tauto. Qed.

Lemma outcome_bind A B (c : Run E A) (f : A -> Run E B) :
  outcome (bind c f)
  = match outcome c with inl e => inl e | inr a => outcome (f a) end.
Proof.
  destruct c as [t [e | a]]; simpl; [reflexivity |]. destruct (f a); reflexivity.
Qed.

Lemma always_bind A B (P : E -> Prop) (c : Run E A) (f : A -> Run E B) :
  always P c -> (forall a, always P (f a)) -> always P (bind c f).
Proof.
  unfold always. intros Hc Hf. rewrite trace_bind. apply Forall_app. split; [exact Hc |].
  destruct (outcome c) as [e | a]; [constructor | apply Hf].
Qed.

Lemma always_silent A (P : E -> Prop) (c : Run E A) : trace c = [] -> always P c.
Proof. unfold always. intros ->. constructor. Qed.

Lemma always_emit (P : E -> Prop) ev : P ev -> always P (emit ev).
Proof. intros H. repeat constructor. exact H. Qed.

Lemma always_getitem A (P : E -> Prop) (l : list A) i : always P (getitem l i).
Proof. apply always_silent. unfold getitem. destruct (nth_error l i); reflexivity. Qed.

Lemma always_setitem A (P : E -> Prop) (l : list A) i a : always P (setitem l i a).
Proof. apply always_silent. unfold setitem. destruct (i <? length l); reflexivity. Qed.

Lemma always_for_each A S (P : E -> Prop) (xs : list A) (body : A -> S -> Run E S) s :
  (forall x s', always P (body x s')) -> always P (for_each xs body s).
Proof.
  intros Hbody. revert s. induction xs as [| x xs IH]; intros s; simpl.
  - constructor.
  - apply always_bind; [apply Hbody | exact IH].
Qed.

Lemma ensures_bind A B (c : Run E A) (f : A -> Run E B) (Q : list E -> B -> Prop) :
  ensures c (fun t a => ensures (f a) (fun t' b => Q (t ++ t') b)) ->
  ensures (bind c f) Q.
Proof.
  destruct c as [t [e | a]]; simpl; [tauto |].
  destruct (f a) as [t' [e | b]]; simpl; tauto.
Qed.

Lemma ensures_ret A (a : A) (P : list E -> A -> Prop) : P [] a -> ensures (ret a) P.
Proof. exact (fun H => H). Qed.

Lemma ensures_emit (ev : E) (P : list E -> unit -> Prop) :
  P [ev] tt -> ensures (emit ev) P.
Proof. exact (fun H => H). Qed.

Lemma ensures_weaken A (c : Run E A) (P Q : list E -> A -> Prop) :
  (forall t a, P t a -> Q t a) -> ensures c P -> ensures c Q.
Proof. destruct c as [t [e | a]]; simpl; auto. Qed.

Lemma ensures_getitem A (l : list A) i (P : list E -> A -> Prop) :
  (forall a, nth_error l i = Some a -> P [] a) -> ensures (getitem l i) P.
Proof. unfold getitem. destruct (nth_error l i); simpl; auto. Qed.

Lemma ensures_setitem A (l : list A) i a (P : list E -> list A -> Prop) :
  (i < length l -> P [] (replace_nth l i a)) -> ensures (setitem l i a) P.
Proof.
  unfold setitem. destruct (Nat.ltb_spec i (length l)); simpl; auto.
Qed.

Lemma ensures_for_range S (body : nat -> S -> Run E S) n
    (I : nat -> list E -> S -> Prop) s :
  I 0 [] s ->
  (forall k t s', k < n -> I k t s' ->
     ensures (body k s') (fun t' s'' => I (Datatypes.S k) (t ++ t') s'')) ->
  ensures (for_each (range n) body s) (I n).
Proof.
  intros H0 Hstep. unfold range.
  assert (G : forall m k t s', k + m = n -> I k t s' ->
            ensures (for_each (seq k m) body s') (fun t' s'' => I n (t ++ t') s'')).
  { induction m as [| m IH]; intros k t s' Hk HI; simpl.
    - rewrite app_nil_r. replace n with k by lia. exact HI.
    - apply ensures_bind.
      eapply ensures_weaken; [| apply (Hstep k t s'); [lia | exact HI]].
      intros t1 s1 H1.
      eapply ensures_weaken; [| apply (IH (Datatypes.S k) (t ++ t1) s1); [lia | exact H1]].
      intros t2 s2. rewrite app_assoc. exact (fun H => H). }
  apply (G n 0 [] s); [lia | exact H0].
Qed.

Lemma raises_only_IndexError_bind A B (c : Run E A) (f : A -> Run E B) :
  raises_only_IndexError c -> (forall a, raises_only_IndexError (f a)) ->
  raises_only_IndexError (bind c f).
Proof.
  unfold raises_only_IndexError. intros Hc Hf. rewrite outcome_bind.
  destruct (outcome c) as [e | a]; [exact Hc | apply Hf].
Qed.

Lemma raises_only_IndexError_for_each A S (xs : list A) (body : A -> S -> Run E S) s :
  (forall x s', raises_only_IndexError (body x s')) ->
  raises_only_IndexError (for_each xs body s).
Proof.
  intros Hbody. revert s. induction xs as [| x xs IH]; intros s; simpl.
  - exact I.
  - apply raises_only_IndexError_bind; [apply Hbody | exact IH].
Qed.

Lemma raises_only_IndexError_getitem A (l : list A) i :
  raises_only_IndexError (E := E) (getitem l i).
Proof. unfold getitem. destruct (nth_error l i); reflexivity. Qed.

Lemma raises_only_IndexError_setitem A (l : list A) i a :
  raises_only_IndexError (E := E) (setitem l i a).
Proof. unfold setitem. destruct (i <? length l); reflexivity. Qed.
End MoreRules.

(** ** Further properties of the comparison pass *)

Section CompareMore.
Variable Label : Type.
Variable Label_eq_dec : forall a b : Label, {a = b} + {a <> b}.
Variable results : list (list Label).
Variable results_names : list string.
Variable test_target : list Label.
Variable flag : bool.

Lemma always_ret A (P : CompareEvent Label -> Prop) (a : A) :
  always P (ret (Event := CompareEvent Label) a).
Proof. constructor. Qed.

Lemma check_variant_silent P j i s :
  always P (check_variant Label_eq_dec results test_target j i s).
Proof.
  unfold check_variant.
  apply always_bind; [apply always_getitem | intros r].
  apply always_bind; [apply always_getitem | intros p].
  apply always_bind; [apply always_getitem | intros g].
  destruct (ne Label_eq_dec p g); [| apply always_ret].
  apply always_bind; [apply always_getitem | intros n].
  apply always_bind; [apply always_setitem | intros errs]. apply always_ret.
Qed.

Lemma check_sample_after_opening j s :
  always (after_opening flag)
    (check_sample Label_eq_dec results results_names test_target flag j s).
Proof.
  unfold check_sample.
  apply always_bind; [apply always_for_each; intros; apply check_variant_silent |].
  intros s'. destruct (flag_iteration_error s' && flag) eqn:Hlog; [| apply always_ret].
  apply andb_true_iff in Hlog. destruct Hlog as [_ Hflag].
  apply always_bind; [apply always_emit; exact Hflag | intros _].
  apply always_bind; [apply always_getitem | intros g].
  apply always_bind; [apply always_emit; exact Hflag | intros _].
  apply always_bind; [| intros; apply always_ret].
  apply always_for_each. intros i []. unfold print_variant.
  apply always_bind; [apply always_getitem | intros name].
  apply always_bind; [apply always_getitem | intros r].
  apply always_bind; [apply always_getitem | intros p].
  apply always_emit. exact Hflag.
Qed.

Lemma compare_trace_shape path :
  exists rest,
    trace (_compare_with_own_classifier Label_eq_dec results results_names
             test_target flag path)
    = (if flag then [OpenForWriting (path ++ "/comparision_details.txt")%string] else [])
      ++ rest
    /\ Forall (after_opening flag) rest.
Proof.
  unfold _compare_with_own_classifier, compare_main_loop.
  rewrite trace_bind, trace_bind.
  set (loop := for_each (range (length test_target)) _ _).
  assert (Hloop : always (after_opening flag) loop).
  { apply always_for_each. intros. apply check_sample_after_opening. }
  set (opening := if flag then emit _ else ret tt).
  assert (Ho : outcome opening = inr tt) by (subst opening; destruct flag; reflexivity).
  assert (Ht : trace opening
               = if flag then [OpenForWriting (path ++ "/comparision_details.txt")%string]
                 else []) by (subst opening; destruct flag; reflexivity).
  rewrite outcome_bind, Ho, Ht, <- app_assoc.
  eexists. split; [reflexivity |].
  apply Forall_app. split; [exact Hloop |].
  destruct (outcome loop) as [e | s]; [constructor |].
  destruct (flag_no_errors s); [repeat constructor |].
  apply always_for_each. intros i []. unfold print_errors.
  apply always_bind; [apply always_getitem | intros name].
  apply always_bind; [apply always_getitem | intros n].
  apply always_emit. exact I.
Qed.

(** X2: for every input, also one on which it raises, the pass opens the
    file [path + "/comparision_details.txt"] once, before anything else,
    when details are to be saved, and then only prints; when they are not
    to be saved it opens no file and prints nothing to a file. *)
Theorem file_is_opened_once_and_first path :
  exists rest,
    trace (_compare_with_own_classifier Label_eq_dec results results_names
             test_target flag path)
    = (if flag then [OpenForWriting (path ++ "/comparision_details.txt")%string] else [])
      ++ rest
    /\ Forall (after_opening flag) rest.
Proof. exact (compare_trace_shape path). Qed.

Lemma written_app (t t' : list (CompareEvent Label)) :
  written (t ++ t') = written t ++ written t'.
Proof. apply flat_map_app. Qed.

Lemma nth_error_combine A B (l : list A) (l' : list B) k a b :
  nth_error l k = Some a -> nth_error l' k = Some b ->
  nth_error (combine l l') k = Some (a, b).
Proof.
  revert l' k. induction l as [| x l IH]; intros [| y l'] [| k] Ha Hb;
    simpl in *; try discriminate.
  - congruence.
  - apply IH; assumption.
Qed.

Lemma only_prints_written (t : list (CompareEvent Label)) :
  Forall (fun e => match e with Print _ => True | _ => False end) t -> written t = [].
Proof.
  induction 1 as [| e t He _ IH]; [reflexivity |].
  destruct e; try contradiction. exact IH.
Qed.

Section Shaped.
Hypothesis shaped : well_shaped test_target results results_names.

Lemma print_variants_written j :
  j < length test_target ->
  returns (for_each (range (length results)) (print_variant results results_names j) tt)
    (fun t _ => written t = variant_lines results results_names j).
Proof.
  intros Hj. unfold variant_lines.
  set (line := fun nr : string * list Label => match nth_error (snd nr) j with
                                               | Some p => [VariantLine (fst nr) p]
                                               | None => []
                                               end).
  eapply returns_weaken;
    [| apply returns_for_range with
         (I := fun k t (_ : unit) =>
            written t = flat_map line (firstn k (combine results_names results)))].
  - intros t [] Ht. rewrite Ht, firstn_all2; [reflexivity |].
    rewrite length_combine. destruct shaped as [_ Hn]. lia.
  - reflexivity.
  - intros k t [] Hk Ht.
    destruct (result_at shaped Hk) as (r & name & Hr & Hname & Hrj).
    destruct (nth_error r j) as [p |] eqn:Hp;
      [| apply nth_error_None in Hp; lia].
    unfold print_variant. get_with Hname. get_with Hr. get_with Hp.
    apply returns_emit.
    rewrite written_app, Ht, (firstn_succ_nth_error _ _ (nth_error_combine _ _ _ Hname Hr)).
    rewrite flat_map_app. simpl. unfold line at 3. simpl. rewrite Hp. reflexivity.
Qed.

Lemma check_sample_written j s :
  j < length test_target ->
  length (number_of_errors s) = length results ->
  returns (check_sample Label_eq_dec results results_names test_target flag j s)
    (fun t _ =>
       written t
       = if any_wrong_at Label_eq_dec test_target results j && flag
         then log_lines results results_names test_target j
         else []).
Proof.
  intros Hj Hlen. unfold check_sample.
  apply returns_bind.
  eapply returns_weaken; [| eapply check_variants_returns; eassumption].
  intros t s' (-> & _ & _ & Hi & _). rewrite Hi.
  destruct (any_wrong_at Label_eq_dec test_target results j && flag).
  - destruct (nth_error test_target j) as [g |] eqn:Hg;
      [| apply nth_error_None in Hg; lia].
    apply returns_bind, returns_emit.
    get_with Hg.
    apply returns_bind, returns_emit.
    apply returns_bind.
    eapply returns_weaken; [| apply print_variants_written; assumption].
    intros t [] Ht. apply returns_ret.
    rewrite app_nil_r, !written_app, Ht. unfold log_lines. rewrite Hg. reflexivity.
  - apply returns_ret. reflexivity.
Qed.

Lemma compare_main_loop_written path :
  returns (compare_main_loop Label_eq_dec results results_names test_target flag path)
    (fun t s =>
       written t
       = (if flag
          then flat_map (log_lines results results_names test_target)
                 (filter (any_wrong_at Label_eq_dec test_target results)
                         (range (length test_target)))
          else [])).
Proof.
  unfold compare_main_loop.
  apply returns_bind.
  apply returns_weaken with (P := fun t (_ : unit) => written t = []);
    [| destruct flag; reflexivity].
  intros t0 [] Ht0.
  eapply returns_weaken;
    [| apply returns_for_range with
         (I := fun k t s =>
            length (number_of_errors s) = length results
            /\ written t
               = (if flag
                  then flat_map (log_lines results results_names test_target)
                         (filter (any_wrong_at Label_eq_dec test_target results) (range k))
                  else []))].
  - intros t s [_ Ht]. rewrite written_app, Ht0, Ht. reflexivity.
  - split; [apply repeat_length | destruct flag; reflexivity].
  - intros k t s Hk [Hl Ht].
    eapply returns_weaken;
      [| apply returns_conj;
         [eapply check_sample_returns with (flag := flag); eassumption
         | apply check_sample_written; assumption]].
    intros t' s' [(_ & _ & Hl' & _) Ht']. split; [exact Hl' |].
    rewrite written_app, Ht, Ht', range_succ, filter_app. simpl.
    destruct flag; [| rewrite andb_false_r; reflexivity]. rewrite andb_true_r.
    destruct (any_wrong_at Label_eq_dec test_target results k); simpl.
    + rewrite flat_map_app. simpl. rewrite app_nil_r. reflexivity.
    + rewrite !app_nil_r. reflexivity.
Qed.

(** X1: when every variant has a prediction for every sample and a name,
    and details are saved, the diagnostic file holds, for each sample index
    at which some variant differs from the ground truth, in increasing
    order of the index: the line "Difference between versions!", the
    ground truth, and one line per variant, in the order of [results], with
    its name and its prediction for that sample; it holds nothing else, and
    nothing at all when details are not saved. *)
Theorem log_holds_one_entry_per_wrong_sample path :
  returns
    (_compare_with_own_classifier Label_eq_dec results results_names test_target flag path)
    (fun t _ =>
       written t
       = if flag
         then flat_map (log_lines results results_names test_target)
                (filter (any_wrong_at Label_eq_dec test_target results)
                        (range (length test_target)))
         else []).
Proof.
  pose proof (compare_returns Label_eq_dec flag shaped path) as Hret.
  destruct (returns_inv _ _ Hret) as (t & [] & Hrun & _).
  rewrite Hrun. simpl.
  assert (Ht : t = trace (_compare_with_own_classifier Label_eq_dec results results_names
                            test_target flag path)) by (rewrite Hrun; reflexivity).
  rewrite Ht. unfold _compare_with_own_classifier. rewrite trace_bind, written_app.
  destruct (returns_inv _ _ (compare_main_loop_written path)) as (t1 & s & Hmain & Hw).
  rewrite Hmain. cbn [trace outcome fst snd]. rewrite Hw.
  rewrite only_prints_written; [apply app_nil_r |].
  destruct (flag_no_errors s); [repeat constructor |].
  apply always_for_each. intros i []. unfold print_errors.
  apply always_bind; [apply always_getitem | intros name].
  apply always_bind; [apply always_getitem | intros n].
  apply always_emit. exact I.
Qed.
End Shaped.

Lemma compare_raises_only_IndexError path :
  raises_only_IndexError
    (_compare_with_own_classifier Label_eq_dec results results_names test_target flag path).
Proof.
  unfold _compare_with_own_classifier, compare_main_loop.
  apply raises_only_IndexError_bind.
  - apply raises_only_IndexError_bind; [destruct flag; exact I | intros _].
    apply raises_only_IndexError_for_each. intros j s. unfold check_sample.
    apply raises_only_IndexError_bind.
    + apply raises_only_IndexError_for_each. intros i s'. unfold check_variant.
      apply raises_only_IndexError_bind; [apply raises_only_IndexError_getitem | intros r].
      apply raises_only_IndexError_bind; [apply raises_only_IndexError_getitem | intros p].
      apply raises_only_IndexError_bind; [apply raises_only_IndexError_getitem | intros g].
      destruct (ne Label_eq_dec p g); [| exact I].
      apply raises_only_IndexError_bind; [apply raises_only_IndexError_getitem | intros n].
      apply raises_only_IndexError_bind; [apply raises_only_IndexError_setitem | intros e].
      exact I.
    + intros s'. destruct (flag_iteration_error s' && flag); [| exact I].
      apply raises_only_IndexError_bind; [exact I | intros _].
      apply raises_only_IndexError_bind; [apply raises_only_IndexError_getitem | intros g].
      apply raises_only_IndexError_bind; [exact I | intros _].
      apply raises_only_IndexError_bind; [| intros; exact I].
      apply raises_only_IndexError_for_each. intros i []. unfold print_variant.
      apply raises_only_IndexError_bind; [apply raises_only_IndexError_getitem | intros name].
      apply raises_only_IndexError_bind; [apply raises_only_IndexError_getitem | intros r].
      apply raises_only_IndexError_bind; [apply raises_only_IndexError_getitem | intros p].
      exact I.
  - intros s. destruct (flag_no_errors s); [exact I |].
    apply raises_only_IndexError_for_each. intros i []. unfold print_errors.
    apply raises_only_IndexError_bind; [apply raises_only_IndexError_getitem | intros name].
    apply raises_only_IndexError_bind; [apply raises_only_IndexError_getitem | intros n].
    exact I.
Qed.

(** When the loop of lines 185-189 ends at sample [j], every variant had a
    prediction for [j]. *)
Lemma check_variants_ensures j errs fne :
  j < length test_target ->
  ensures
    (for_each (range (length results))
       (check_variant Label_eq_dec results test_target j) (mkLocals errs fne false))
    (fun _ s =>
       (forall i r, nth_error results i = Some r -> j < length r)
       /\ flag_iteration_error s = any_wrong_at Label_eq_dec test_target results j
       /\ flag_no_errors s = fne && negb (any_wrong_at Label_eq_dec test_target results j)).
Proof.
  intros Hj.
  eapply ensures_weaken;
    [| apply ensures_for_range with
         (I := fun k (_ : list (CompareEvent Label)) s =>
            (forall i r, i < k -> nth_error results i = Some r -> j < length r)
            /\ flag_iteration_error s
               = existsb (fun r => wrong_at Label_eq_dec test_target r j) (firstn k results)
            /\ flag_no_errors s
               = fne && negb (existsb (fun r => wrong_at Label_eq_dec test_target r j)
                                      (firstn k results)))].
  - intros t s (Hall & Hi & Hf). rewrite firstn_all in Hi, Hf.
    split; [| split; assumption].
    intros i r Hr. apply (Hall i r); [| exact Hr]. apply nth_error_Some. congruence.
  - split; [intros i r Hi; lia |]. split; [reflexivity |].
    simpl. rewrite andb_true_r. reflexivity.
  - intros k t s Hk (Hall & Hi & Hf). unfold check_variant.
    apply ensures_bind, ensures_getitem. intros r Hr.
    apply ensures_bind, ensures_getitem. intros p Hp.
    apply ensures_bind, ensures_getitem. intros g Hg.
    assert (Hw : wrong_at Label_eq_dec test_target r j = ne Label_eq_dec p g).
    { unfold wrong_at. rewrite Hp, Hg. reflexivity. }
    assert (Hlt : j < length r) by (apply nth_error_Some; congruence).
    assert (Hall' : forall i r', i < S k -> nth_error results i = Some r' -> j < length r').
    { intros i r' Hi' Hr'. destruct (Nat.eq_dec i k) as [-> | Hne].
      - congruence.
      - apply (Hall i r'); [lia | exact Hr']. }
    rewrite (firstn_succ_nth_error _ _ Hr), existsb_app. simpl.
    rewrite orb_false_r, Hw.
    destruct (ne Label_eq_dec p g).
    + apply ensures_bind, ensures_getitem. intros n _.
      apply ensures_bind, ensures_setitem. intros _. simpl.
      rewrite orb_true_r, andb_false_r. auto.
    + simpl. rewrite orb_false_r. auto.
Qed.

(** When the loop over the samples ends without an exception, every
    variant had a prediction for every sample, and [flag_no_errors] tells
    whether no variant was wrong anywhere. *)
Lemma compare_main_loop_ensures path :
  ensures (compare_main_loop Label_eq_dec results results_names test_target flag path)
    (fun _ s =>
       predictions_for_all results test_target
       /\ flag_no_errors s = no_error Label_eq_dec results test_target).
Proof.
  unfold compare_main_loop. apply ensures_bind.
  apply ensures_weaken with (P := fun _ (_ : unit) => True); [| destruct flag; exact I].
  intros t0 [] _.
  eapply ensures_weaken;
    [| apply ensures_for_range with
         (I := fun k (_ : list (CompareEvent Label)) s =>
            (forall j, j < k -> forall i r, nth_error results i = Some r -> j < length r)
            /\ flag_no_errors s
               = negb (existsb (any_wrong_at Label_eq_dec test_target results) (range k)))].
  - intros t s [Hall Hf]. split; [| exact Hf].
    apply Forall_forall. intros r Hr. apply In_nth_error in Hr. destruct Hr as [i Hi].
    destruct (length test_target) as [| n] eqn:Hlen; [lia |].
    specialize (Hall n (Nat.lt_succ_diag_r n) i r Hi). lia.
  - split; [intros j Hj; lia | reflexivity].
  - intros k t s Hk [Hall Hf]. unfold check_sample.
    apply ensures_bind.
    eapply ensures_weaken; [| apply check_variants_ensures; exact Hk].
    intros t1 s1 (Hk1 & _ & Hf1).
    apply ensures_weaken with
      (P := fun (_ : list (CompareEvent Label)) s2 => s2 = s1).
    + intros t2 s2 ->. split.
      * intros j Hj i r Hr. destruct (Nat.eq_dec j k) as [-> | Hne];
          [apply (Hk1 i r Hr) | apply (Hall j ltac:(lia) i r Hr)].
      * rewrite Hf1, Hf, range_succ, existsb_app. simpl.
        rewrite orb_false_r, negb_orb. reflexivity.
    + destruct (flag_iteration_error s1 && flag); [| reflexivity].
      apply ensures_bind, ensures_emit.
      apply ensures_bind, ensures_getitem. intros g _.
      apply ensures_bind, ensures_emit.
      apply ensures_bind.
      destruct (for_each (range (length results))
                  (print_variant results results_names k) tt) as [t3 [e | u]];
        simpl; auto.
Qed.

(** When the pass ends without an exception, every variant had a
    prediction for every sample, and either no variant was wrong anywhere
    or every variant had a name. *)
Lemma compare_ensures path :
  ensures
    (_compare_with_own_classifier Label_eq_dec results results_names test_target flag path)
    (fun _ _ =>
       predictions_for_all results test_target
       /\ (no_error Label_eq_dec results test_target = true
           \/ length results <= length results_names)).
Proof.
  unfold _compare_with_own_classifier.
  apply ensures_bind.
  eapply ensures_weaken; [| apply compare_main_loop_ensures].
  intros t s [Hshape Hf]. cbv beta.
  rewrite Hf. destruct (no_error Label_eq_dec results test_target).
  - simpl. auto.
  - eapply ensures_weaken;
      [| apply ensures_for_range with
           (I := fun k (_ : list (CompareEvent Label)) (_ : unit) =>
                   k <= length results_names)].
    + intros t' u Hk. split; [exact Hshape | right; exact Hk].
    + lia.
    + intros k t' [] Hk Hle. unfold print_errors.
      apply ensures_bind, ensures_getitem. intros name Hname.
      apply ensures_bind, ensures_getitem. intros n _. simpl.
      assert (k < length results_names) by (apply nth_error_Some; congruence). lia.
Qed.

(** With no error anywhere the names are not looked at. *)
Lemma compare_returns_without_errors path :
  predictions_for_all results test_target ->
  no_error Label_eq_dec results test_target = true ->
  returns
    (_compare_with_own_classifier Label_eq_dec results results_names test_target flag path)
    (fun t _ =>
       t = (if flag then [OpenForWriting (path ++ "/comparision_details.txt")%string] else [])
           ++ [Print AllResultsWereTheSame]).
Proof.
  intros Hshape Hno.
  assert (Hshaped : well_shaped test_target results (repeat EmptyString (length results))).
  { split; [exact Hshape | rewrite repeat_length; lia]. }
  assert (Hj : forall j, j < length test_target ->
             any_wrong_at Label_eq_dec test_target results j = false).
  { intros j Hlt. unfold no_error in Hno. apply negb_true_iff in Hno.
    destruct (any_wrong_at Label_eq_dec test_target results j) eqn:Hw; [| reflexivity].
    assert (Hex : existsb (any_wrong_at Label_eq_dec test_target results)
                    (range (length test_target)) = true).
    { apply existsb_exists. exists j. split; [apply in_seq; lia | exact Hw]. }
    congruence. }
  unfold _compare_with_own_classifier, compare_main_loop.
  apply returns_bind. apply returns_bind.
  apply returns_weaken with
    (P := fun t (_ : unit) =>
            t = if flag then [OpenForWriting (path ++ "/comparision_details.txt")%string]
                else []);
    [| destruct flag; reflexivity].
  intros t0 [] ->.
  eapply returns_weaken;
    [| apply returns_for_range with
         (I := fun (k : nat) (t : list (CompareEvent Label)) s =>
            t = [] /\ length (number_of_errors s) = length results
            /\ flag_no_errors s = true)].
  - intros t s (-> & _ & Hf). rewrite Hf. apply returns_emit.
    rewrite app_nil_r. reflexivity.
  - split; [reflexivity |]. split; [apply repeat_length | reflexivity].
  - intros k t s Hk (-> & Hl & Hf). unfold check_sample.
    apply returns_bind.
    eapply returns_weaken;
      [| eapply (check_variants_returns Label_eq_dec Hshaped); eassumption].
    intros t1 s1 (-> & Hl1 & _ & Hi1 & Hf1).
    rewrite Hi1, (Hj k Hk). simpl.
    rewrite Hf1, Hf, (Hj k Hk). auto.
Qed.

Lemma compare_outcome path :
  outcome
    (_compare_with_own_classifier Label_eq_dec results results_names test_target flag path)
  = if forallb (fun r => length test_target <=? length r) results
       && (no_error Label_eq_dec results test_target
           || (length results <=? length results_names))
    then inr tt
    else inl IndexError.
Proof.
  pose proof (compare_ensures path) as Hens.
  pose proof (compare_raises_only_IndexError path) as Hraise.
  destruct (forallb (fun r => length test_target <=? length r) results) eqn:Hshape.
  - assert (Hall : predictions_for_all results test_target).
    { apply Forall_forall. intros r Hr. apply Nat.leb_le.
      rewrite forallb_forall in Hshape. apply Hshape, Hr. }
    destruct (no_error Label_eq_dec results test_target) eqn:Hno.
    + destruct (returns_inv _ _ (compare_returns_without_errors path Hall Hno))
        as (t & [] & -> & _). reflexivity.
    + destruct (Nat.leb_spec (length results) (length results_names)) as [Hn | Hn].
      * destruct (returns_inv _ _ (compare_returns Label_eq_dec flag (conj Hall Hn) path))
          as (t & [] & -> & _). reflexivity.
      * simpl. unfold raises_only_IndexError in Hraise.
        destruct (_compare_with_own_classifier Label_eq_dec results results_names
                    test_target flag path) as [t [e | []]]; simpl in *.
        -- congruence.
        -- destruct Hens as [_ [Hc | Hc]]; [congruence | lia].
  - simpl. unfold raises_only_IndexError in Hraise.
    destruct (_compare_with_own_classifier Label_eq_dec results results_names
                test_target flag path) as [t [e | []]]; simpl in *.
    + congruence.
    + destruct Hens as [Hall _]. exfalso.
      assert (Htrue : forallb (fun r => length test_target <=? length r) results = true).
      { apply forallb_forall. intros r Hr. apply Nat.leb_le.
        unfold predictions_for_all in Hall. rewrite Forall_forall in Hall. apply Hall, Hr. }
      congruence.
Qed.

(** X3: the pass ends with a value exactly when every variant has a
    prediction for every sample and either no variant differs from the
    ground truth anywhere or every variant has a name; in every other case
    it raises an [IndexError]. A missing name goes unnoticed as long as all
    predictions are right. *)
Theorem compare_returns_or_raises_IndexError path :
  outcome
    (_compare_with_own_classifier Label_eq_dec results results_names test_target flag path)
  = if forallb (fun r => length test_target <=? length r) results
       && (no_error Label_eq_dec results test_target
           || (length results <=? length results_names))
    then inr tt
    else inl IndexError.
Proof. exact (compare_outcome path). Qed.

Lemma agrees_iff (r : list Label) :
  firstn (length test_target) r = test_target
  <-> length test_target <= length r
      /\ forall j, j < length test_target -> wrong_at Label_eq_dec test_target r j = false.
Proof.
  split.
  - intros H. split.
    + rewrite <- H at 1. rewrite length_firstn. lia.
    + intros j Hj. unfold wrong_at.
      assert (Hn : nth_error (firstn (length test_target) r) j = nth_error test_target j)
        by (rewrite H; reflexivity).
      rewrite nth_error_firstn in Hn. apply Nat.ltb_lt in Hj. rewrite Hj in Hn.
      rewrite Hn. destruct (nth_error test_target j) as [g |]; [| reflexivity].
      unfold ne. destruct (Label_eq_dec g g); congruence.
  - intros [Hlen Hw]. apply nth_error_ext. intros n.
    rewrite nth_error_firstn. destruct (Nat.ltb_spec n (length test_target)) as [Hn | Hn].
    + specialize (Hw n Hn). unfold wrong_at in Hw.
      destruct (nth_error r n) as [p |] eqn:Hp; [| apply nth_error_None in Hp; lia].
      destruct (nth_error test_target n) as [g |] eqn:Hg;
        [| apply nth_error_None in Hg; lia].
      unfold ne in Hw. destruct (Label_eq_dec p g); congruence.
    + symmetry. apply nth_error_None. exact Hn.
Qed.

Lemma all_agree_iff :
  Forall (fun r => firstn (length test_target) r = test_target) results
  <-> predictions_for_all results test_target
      /\ no_error Label_eq_dec results test_target = true.
Proof.
  unfold predictions_for_all, no_error. rewrite negb_true_iff. split.
  - intros H. split.
    + eapply Forall_impl; [| exact H]. intros r Hr. apply agrees_iff in Hr. tauto.
    + destruct (existsb _ _) eqn:Hex; [| reflexivity].
      apply existsb_exists in Hex. destruct Hex as (j & Hj & Hw).
      apply in_seq in Hj. unfold any_wrong_at in Hw.
      apply existsb_exists in Hw. destruct Hw as (r & Hr & Hw).
      rewrite Forall_forall in H. apply H, agrees_iff in Hr.
      destruct Hr as [_ Hr]. rewrite Hr in Hw by lia. discriminate.
  - intros [Hshape Hno]. apply Forall_forall. intros r Hr. apply agrees_iff.
    rewrite Forall_forall in Hshape. split; [apply Hshape, Hr |].
    intros j Hj. destruct (wrong_at Label_eq_dec test_target r j) eqn:Hw; [| reflexivity].
    assert (Hex : existsb (any_wrong_at Label_eq_dec test_target results)
                    (range (length test_target)) = true).
    { apply existsb_exists. exists j. split; [apply in_seq; lia |].
      apply existsb_exists. exists r. split; assumption. }
    congruence.
Qed.

Lemma check_sample_prints_nothing j s :
  always (fun e => match e with Print _ => False | _ => True end)
    (check_sample Label_eq_dec results results_names test_target flag j s).
Proof.
  unfold check_sample.
  apply always_bind; [apply always_for_each; intros; apply check_variant_silent |].
  intros s'. destruct (flag_iteration_error s' && flag); [| apply always_ret].
  apply always_bind; [apply always_emit; exact I | intros _].
  apply always_bind; [apply always_getitem | intros g].
  apply always_bind; [apply always_emit; exact I | intros _].
  apply always_bind; [| intros; apply always_ret].
  apply always_for_each. intros i []. unfold print_variant.
  apply always_bind; [apply always_getitem | intros name].
  apply always_bind; [apply always_getitem | intros r].
  apply always_bind; [apply always_getitem | intros p].
  apply always_emit. exact I.
Qed.

(** X4: "All results were the same" is printed exactly when the first
    [len(test_target)] predictions of every variant are the ground truth;
    this holds for every input, whatever the names and the flag are. *)
Theorem all_the_same_means_all_right path :
  In (Print AllResultsWereTheSame)
     (trace (_compare_with_own_classifier Label_eq_dec results results_names
               test_target flag path))
  <-> Forall (fun r => firstn (length test_target) r = test_target) results.
Proof.
  rewrite all_agree_iff. split.
  - intros Hin. unfold _compare_with_own_classifier in Hin.
    rewrite trace_bind in Hin. apply in_app_or in Hin.
    pose proof (compare_main_loop_ensures path) as Hens.
    assert (Hmain : always (fun e => match e with Print _ => False | _ => True end)
                      (compare_main_loop Label_eq_dec results results_names
                         test_target flag path)).
    { unfold compare_main_loop. apply always_bind.
      - destruct flag; [apply always_emit; exact I | apply always_ret].
      - intros _. apply always_for_each. intros. apply check_sample_prints_nothing. }
    destruct Hin as [Hin | Hin].
    { unfold always in Hmain. rewrite Forall_forall in Hmain.
      exact (False_ind _ (Hmain _ Hin)). }
    destruct (compare_main_loop Label_eq_dec results results_names test_target flag path)
      as [t [e | s]]; cbn [outcome snd] in Hin; [destruct Hin |].
    simpl in Hens. destruct Hens as [Hshape Hf]. split; [exact Hshape |].
    rewrite <- Hf. destruct (flag_no_errors s); [reflexivity |]. exfalso.
    assert (Hloop : always (fun e => match e with
                                      | Print AllResultsWereTheSame => False
                                      | _ => True
                                      end)
                      (for_each (range (length results))
                         (print_errors Label results_names (number_of_errors s)) tt)).
    { apply always_for_each. intros i []. unfold print_errors.
      apply always_bind; [apply always_getitem | intros name].
      apply always_bind; [apply always_getitem | intros n].
      apply always_emit. exact I. }
    unfold always in Hloop. rewrite Forall_forall in Hloop. exact (Hloop _ Hin).
  - intros [Hshape Hno].
    destruct (returns_inv _ _ (compare_returns_without_errors path Hshape Hno))
      as (t & [] & -> & ->).
    apply in_or_app. right. left. reflexivity.
Qed.

Lemma filter_length_le_sum A (f g h : A -> bool) (l : list A) :
  (forall x, In x l -> f x = true -> g x = true \/ h x = true) ->
  length (filter f l) <= length (filter g l) + length (filter h l).
Proof.
  induction l as [| x l IH]; intros H; simpl; [lia |].
  assert (IH' : length (filter f l) <= length (filter g l) + length (filter h l))
    by (apply IH; intros y Hy; apply H; right; exact Hy).
  destruct (f x) eqn:Hf.
  - destruct (H x (or_introl eq_refl) Hf) as [Hg | Hh].
    + rewrite Hg. destruct (h x); simpl; lia.
    + rewrite Hh. destruct (g x); simpl; lia.
  - destruct (g x), (h x); simpl; lia.
Qed.

Lemma count_differences_by_index (a b : list Label) :
  count_differences Label_eq_dec a b
  = length (filter (differ_at Label_eq_dec a b) (range (length (combine a b)))).
Proof.
  unfold count_differences, range. revert b.
  induction a as [| x a IH]; intros [| y b]; try reflexivity.
  cbn [combine length seq]. rewrite <- seq_shift. cbn [filter fst snd].
  rewrite filter_map_swap.
  change (differ_at Label_eq_dec (x :: a) (y :: b) 0) with (ne Label_eq_dec x y).
  assert (Hshift : filter (fun j => differ_at Label_eq_dec (x :: a) (y :: b) (S j))
                     (seq 0 (length (combine a b)))
                   = filter (differ_at Label_eq_dec a b) (seq 0 (length (combine a b))))
    by reflexivity.
  rewrite Hshift.
  destruct (ne Label_eq_dec x y); cbn [length]; rewrite length_map, IH; reflexivity.
Qed.

(** X5: for two prediction sets with one prediction per sample, the number
    of differences between them, which line 64 computes for the quantized
    scikit classifier and the own classifier, is at most the sum of their
    numbers of errors against the ground truth; it is zero when both make
    no error. *)
Theorem differences_are_bounded_by_the_errors (a b : list Label) :
  length a = length test_target ->
  length b = length test_target ->
  count_differences Label_eq_dec a b
  <= mismatches Label_eq_dec test_target a + mismatches Label_eq_dec test_target b.
Proof.
  intros Ha Hb. rewrite count_differences_by_index. unfold mismatches.
  rewrite length_combine, Ha, Hb, Nat.min_id.
  apply filter_length_le_sum. intros j Hj Hd. apply in_seq in Hj.
  unfold differ_at in Hd. unfold wrong_at.
  destruct (nth_error a j) as [p |]; [| discriminate].
  destruct (nth_error b j) as [p' |]; [| discriminate].
  destruct (nth_error test_target j) as [g |] eqn:Hg;
    [| apply nth_error_None in Hg; lia].
  unfold ne in *.
  destruct (Label_eq_dec p p'); [discriminate |].
  destruct (Label_eq_dec p g); [| left; reflexivity].
  destruct (Label_eq_dec p' g); [congruence | right; reflexivity].
Qed.
End CompareMore.

(** ** Further properties of the test pipeline *)

(** Every path of the list is one of the three named in the goal. *)
Ltac one_of_three :=
  repeat (apply Forall_cons;
          [first [left; reflexivity | right; left; reflexivity | right; right; reflexivity] |]);
  try apply Forall_nil.

(** The outcome of a sequence of statements, one statement at a time. *)
Ltac outcome_steps :=
  cbn [outcome trace fst snd];
  repeat (rewrite outcome_bind; cbn [outcome trace fst snd emit ret getitem nth_error]).

Section TesterMore.
Variable Label : Type.
Variable Label_eq_dec : forall a b : Label, {a = b} + {a <> b}.
Variable Feature : Type.
Variable get_classifier : ClassifierType -> option Z -> option Z -> Estimator Label Feature.
Variable predict : Estimator Label Feature -> Data Feature -> list Label.
Variable own_predict : OwnClassifier Label Feature -> Data Feature -> list Label.
Variable quantize_data : Data Feature -> Data Feature -> Z -> Data Feature * Data Feature.
Variable os_path_join : string -> string -> string.
Variable os_path_exists : string -> bool.
Variable str_int : Z -> string.
Variable number_of_bits_per_feature : Z.
Variable train_data test_data : Data Feature.
Variable train_target test_target : list Label.
Variable clf_type : ClassifierType.
Variable max_depth number_of_classifiers : option Z.
Variable path name : string.

Let run :=
  test_dataset Label_eq_dec get_classifier predict own_predict quantize_data
    os_path_join os_path_exists str_int
    number_of_bits_per_feature train_data train_target test_data test_target
    clf_type max_depth number_of_classifiers path name.
Let dir :=
  run_directory os_path_join str_int number_of_bits_per_feature clf_type
    max_depth number_of_classifiers path name.
Let before :=
  events_before_generator get_classifier predict quantize_data os_path_join os_path_exists
    str_int number_of_bits_per_feature train_data test_data train_target test_target
    clf_type max_depth number_of_classifiers path name.
Let clf2 :=
  clf_quantized get_classifier quantize_data number_of_bits_per_feature train_data
    test_data train_target clf_type max_depth number_of_classifiers.
Let clf1 :=
  clf_raw get_classifier train_data train_target clf_type max_depth number_of_classifiers.
Let test_q := test_data_quantized quantize_data number_of_bits_per_feature train_data test_data.

(** A run on an estimator that [generate_my_classifier] rejects. *)
Lemma test_dataset_rejected :
  train_data <> [] ->
  supported (est_class (get_classifier clf_type max_depth number_of_classifiers)) = false ->
  length test_target = length (predict clf1 test_data) ->
  length test_target = length (predict clf2 test_q) ->
  run = (before ++ [PrintLine "Unknown type of classifier!"],
         inl (ValueError "Unknown type of classifier!")).
Proof.
  intros Htrain Hs H1 H2. apply Nat.eqb_eq in H1, H2. revert H1 H2.
  subst run before clf2 clf1 test_q. unfold test_dataset, events_before_generator,
    report_event, report_performance, _report_classifier, _report_regressor,
    check_consistent_length, score_file, clf_quantized, clf_raw, test_data_quantized,
    run_directory.
  destruct (quantize_data train_data test_data number_of_bits_per_feature)
    as [train_q tq] eqn:Hq. cbn [fst snd]. intros H1 H2.
  destruct train_data as [| row rows]; [congruence |].
  set (d := os_path_join path _).
  set (c1 := fit (get_classifier clf_type max_depth number_of_classifiers) (row :: rows)
               train_target) in *.
  set (c2 := fit c1 train_q train_target) in *.
  assert (Hs2 : supported (est_class c2) = false) by exact Hs.
  pose proof (generate_my_classifier_unsupported c2 (length row)
                (number_of_bits_per_feature + 1)%Z d None Hs2) as Hgen.
  apply injective_projections.
  - change (fst ?c) with (trace c).
    destruct (os_path_exists d), (is_RANDOM_FOREST_REGRESSOR clf_type);
      cbn [negb]; trace_steps; rewrite H1; trace_steps; rewrite H2; trace_steps;
      rewrite Hgen; reflexivity.
  - change (snd ?c) with (outcome c).
    destruct (os_path_exists d), (is_RANDOM_FOREST_REGRESSOR clf_type);
      cbn [negb]; outcome_steps; rewrite H1; outcome_steps; rewrite H2; outcome_steps;
      rewrite Hgen; reflexivity.
Qed.

(** A run on an estimator that [generate_my_classifier] accepts. *)
Lemma test_dataset_accepted :
  train_data <> [] ->
  supported (est_class (get_classifier clf_type max_depth number_of_classifiers)) = true ->
  length test_target = length (predict clf1 test_data) ->
  length test_target = length (predict clf2 test_q) ->
  (forall my_clf, length test_target = length (own_predict my_clf test_q)) ->
  exists kind nm,
    let my_clf :=
      mkOwnClassifier kind nm (length (hd [] train_data))
        (number_of_bits_per_feature + 1)%Z (Some clf2) in
    let results :=
      [predict clf1 test_data; predict clf2 test_q; own_predict my_clf test_q] in
    let compared :=
      _compare_with_own_classifier Label_eq_dec results
        ["scikit"; "scikit_quantized"; "own_clf_quantized"] test_target true dir in
    run
    = (before
       ++ [PrintLine (if is_DecisionTreeClassifier (est_class clf2)
                      then "Creating decision tree classifier!"
                      else "Creating random forest classifier!");
           Constructed kind nm (length (hd [] train_data))
             (number_of_bits_per_feature + 1)%Z;
           Built my_clf; CreatedVhdlFile my_clf dir; PrintedParameters my_clf None;
           Predicted (inr my_clf) test_q (own_predict my_clf test_q);
           PrintLine "own clf with train and test data quantized:";
           report_event test_target clf_type (inr my_clf) (own_predict my_clf test_q) None;
           PrintDifferences
             (count_differences Label_eq_dec (predict clf2 test_q)
                (own_predict my_clf test_q));
           EnterCompare results ["scikit"; "scikit_quantized"; "own_clf_quantized"]
             test_target true dir]
       ++ map (@Compare Label Feature) (trace compared),
       outcome compared).
Proof.
  intros Htrain Hs H1 H2 H3. apply Nat.eqb_eq in H1, H2.
  assert (H3' : forall my_clf,
            (length test_target =? length (own_predict my_clf test_q)) = true)
    by (intros; apply Nat.eqb_eq, H3).
  clear H3. revert H1 H2 H3'.
  subst run before dir clf2 clf1 test_q.
  unfold test_dataset, events_before_generator, report_event,
    report_performance, _report_classifier, _report_regressor, check_consistent_length,
    score_file, clf_quantized, clf_raw, test_data_quantized, run_directory.
  destruct (quantize_data train_data test_data number_of_bits_per_feature)
    as [train_q tq] eqn:Hq. cbn [fst snd]. intros H1 H2 H3.
  destruct train_data as [| row rows]; [congruence |]. cbn [hd].
  set (d := os_path_join path _).
  set (c1 := fit (get_classifier clf_type max_depth number_of_classifiers) (row :: rows)
               train_target) in *.
  set (c2 := fit c1 train_q train_target) in *.
  assert (Hs2 : supported (est_class c2) = true) by exact Hs.
  destruct (generate_my_classifier_supported c2 (length row)
              (number_of_bits_per_feature + 1)%Z d None Hs2) as (kind & nm & Hgen).
  cbv zeta in Hgen. exists kind, nm. cbv zeta.
  set (my_clf := mkOwnClassifier kind nm (length row) (number_of_bits_per_feature + 1)%Z
                   (Some c2)) in *.
  apply injective_projections.
  - change (fst ?c) with (trace c).
    destruct (os_path_exists d), (is_RANDOM_FOREST_REGRESSOR clf_type);
      cbn [negb]; trace_steps; rewrite H1; trace_steps; rewrite H2; trace_steps;
      rewrite Hgen; trace_steps; rewrite (H3 my_clf); trace_steps; reflexivity.
  - change (snd ?c) with (outcome c).
    destruct (os_path_exists d), (is_RANDOM_FOREST_REGRESSOR clf_type);
      cbn [negb]; outcome_steps; rewrite H1; outcome_steps; rewrite H2; outcome_steps;
      rewrite Hgen; outcome_steps; rewrite (H3 my_clf); outcome_steps; reflexivity.
Qed.


Lemma compare_events_use_one_file (t : list (CompareEvent Label)) f rest :
  t = [OpenForWriting f] ++ rest -> Forall (after_opening true) rest ->
  paths_given (map (@Compare Label Feature) t) = [f]
  /\ report_files (map (@Compare Label Feature) t) = []
  /\ parameter_files (map (@Compare Label Feature) t) = [].
Proof.
  intros -> Hrest. cbn. 
  assert (H : paths_given (map (@Compare Label Feature) rest) = []
              /\ report_files (map (@Compare Label Feature) rest) = []
              /\ parameter_files (map (@Compare Label Feature) rest) = []).
  { induction Hrest as [| e rest He _ IH]; [repeat split |].
    destruct e; try contradiction; exact IH. }
  destruct H as (H1 & H2 & H3).
  unfold paths_given, report_files, parameter_files in *. rewrite H1, H2, H3. repeat split.
Qed.


(** X7: when [train_data] has a first row, the ground truth has one entry
    per prediction of the estimator, and the estimator is one
    [generate_my_classifier] rejects, a run of [test_dataset] ends with the
    [ValueError] of the generator, after the two prediction sets of the
    estimator and their reports: no own classifier is constructed, nothing
    is built or written for it, and the comparison pass is not called. *)
Theorem rejected_estimator_stops_the_run :
  train_data <> [] ->
  supported (est_class (get_classifier clf_type max_depth number_of_classifiers)) = false ->
  length test_target = length (predict clf1 test_data) ->
  length test_target = length (predict clf2 test_q) ->
  let run :=
    test_dataset Label_eq_dec get_classifier predict own_predict quantize_data
      os_path_join os_path_exists str_int
      number_of_bits_per_feature train_data train_target test_data test_target
      clf_type max_depth number_of_classifiers path name in
  outcome run = inl (ValueError "Unknown type of classifier!")
  /\ prediction_sets (trace run)
     = [predict clf1 test_data; predict clf2 test_q]
  /\ length (report_files (trace run)) = 2
  /\ existsb (@builds_or_writes Label Feature) (trace run) = false
  /\ compare_calls (trace run) = [].
Proof.
  intros Htrain Hs H1 H2. cbv zeta. fold run. rewrite (test_dataset_rejected Htrain Hs H1 H2).
  subst before. unfold events_before_generator, report_event.
  cbn [outcome trace fst snd].
  destruct (os_path_exists _), (is_RANDOM_FOREST_REGRESSOR clf_type);
    repeat split; reflexivity.
Qed.

(** The paths an event names are the run directory, its file [score.txt]
    or its file [comparision_details.txt]. *)
Let allowed (p : string) : Prop :=
  p = dir \/ p = os_path_join dir "score.txt"
  \/ p = (dir ++ "/comparision_details.txt")%string.
Let fine (e : TesterEvent Label Feature) : Prop := Forall allowed (paths_given [e]).

Lemma paths_given_fine (t : list (TesterEvent Label Feature)) :
  Forall fine t -> Forall allowed (paths_given t).
Proof.
  induction 1 as [| e t He _ IH]; [constructor |].
  unfold fine, paths_given in *. cbn [flat_map] in *. rewrite app_nil_r in He.
  apply Forall_app. split; [exact He | exact IH].
Qed.

Ltac fine_event :=
  apply always_emit; unfold fine, allowed, paths_given; cbn; one_of_three.

Lemma report_performance_fine clf expected predicted :
  always fine
    (report_performance clf clf_type expected predicted (Some (os_path_join dir "score.txt")))
  /\ always fine (report_performance clf clf_type expected predicted None).
Proof.
  unfold report_performance, _report_classifier, _report_regressor, check_consistent_length.
  destruct (is_RANDOM_FOREST_REGRESSOR clf_type), (length expected =? length predicted);
    split; first [fine_event | apply always_bind; [constructor | intros; fine_event]
                 | constructor].
Qed.

Lemma generate_my_classifier_fine (clf : Estimator Label Feature) nf bits :
  always fine (generate_my_classifier clf nf bits dir None).
Proof.
  unfold generate_my_classifier, construct, build.
  destruct (is_DecisionTreeClassifier (est_class clf));
    [| destruct (is_RandomForestClassifier (est_class clf))];
    repeat first [apply always_bind; [| intros] | fine_event | constructor].
Qed.

Lemma compare_fine results results_names :
  always fine
    (lift (@Compare Label Feature)
       (_compare_with_own_classifier Label_eq_dec results results_names test_target
          true dir)).
Proof.
  unfold always. rewrite trace_lift.
  destruct (compare_trace_shape Label_eq_dec results results_names test_target true dir)
    as (rest & -> & Hrest).
  cbn [app map]. constructor; [unfold fine, allowed; cbn; one_of_three |].
  induction Hrest as [| e rest He _ IH]; [constructor |].
  cbn [map]. constructor; [| exact IH].
  destruct e; try contradiction; constructor.
Qed.

(** X8: in every run of [test_dataset], also one that an exception cuts
    short, every path the run gives to [os.makedirs], opens for writing or
    appending, or hands to a collaborator that writes is the run directory
    [os.path.join(path, name_bits_type_depth_number)], its file
    [score.txt], or the file [comparision_details.txt] in it. *)
Theorem a_run_is_given_its_directory_only :
  Forall (fun p => p = dir
                   \/ p = os_path_join dir "score.txt"
                   \/ p = (dir ++ "/comparision_details.txt")%string)
    (paths_given
       (trace (test_dataset Label_eq_dec get_classifier predict own_predict quantize_data
                 os_path_join os_path_exists str_int
                 number_of_bits_per_feature train_data train_target test_data test_target
                 clf_type max_depth number_of_classifiers path name))).
Proof.
  apply paths_given_fine. change (always fine run).
  subst run. unfold test_dataset.
  set (d := os_path_join path _).
  assert (Ed : d = dir) by reflexivity. clearbody d. subst d.
  destruct (quantize_data train_data test_data number_of_bits_per_feature)
    as [train_q tq].
  repeat first
    [ apply report_performance_fine
    | apply generate_my_classifier_fine
    | apply compare_fine
    | apply always_getitem
    | fine_event
    | destruct (os_path_exists dir); cbn [negb]; [exact (Forall_nil _) | fine_event]
    | apply always_bind; [| intros] ].
Qed.

(** X9: in a run of [test_dataset] on data with a first row in which the
    ground truth has one entry per prediction, the two reports on the
    scikit classifier are appended to [score.txt] of the run directory,
    while the report on the own classifier, made when the estimator is
    accepted, and the parameters of the own classifier go to the standard
    output and to no file. *)
Theorem own_classifier_is_reported_on_stdout_only :
  train_data <> [] ->
  length test_target = length (predict clf1 test_data) ->
  length test_target = length (predict clf2 test_q) ->
  (forall my_clf, length test_target = length (own_predict my_clf test_q)) ->
  let run :=
    test_dataset Label_eq_dec get_classifier predict own_predict quantize_data
      os_path_join os_path_exists str_int
      number_of_bits_per_feature train_data train_target test_data test_target
      clf_type max_depth number_of_classifiers path name in
  let accepted :=
    supported (est_class (get_classifier clf_type max_depth number_of_classifiers)) in
  report_files (trace run)
  = Some (os_path_join dir "score.txt") :: Some (os_path_join dir "score.txt")
    :: (if accepted then [None] else [])
  /\ parameter_files (trace run) = if accepted then [None] else [].
Proof.
  intros Htrain H1 H2 H3. cbv zeta. fold run.
  assert (Hbefore : report_files before
                    = [Some (os_path_join dir "score.txt");
                       Some (os_path_join dir "score.txt")]
                    /\ parameter_files before = []).
  { subst before. unfold events_before_generator, report_event, score_file. fold dir.
    destruct (os_path_exists dir), (is_RANDOM_FOREST_REGRESSOR clf_type);
      split; reflexivity. }
  destruct Hbefore as [Hr Hp].
  destruct (supported (est_class (get_classifier clf_type max_depth number_of_classifiers)))
    eqn:Hs.
  - destruct (test_dataset_accepted Htrain Hs H1 H2 H3) as (kind & nm & Hrun).
    cbv zeta in Hrun. rewrite Hrun. cbn [trace fst].
    destruct (compare_trace_shape Label_eq_dec
                [predict clf1 test_data; predict clf2 test_q;
                 own_predict
                   (mkOwnClassifier kind nm (length (hd [] train_data))
                      (number_of_bits_per_feature + 1)%Z (Some clf2)) test_q]
                ["scikit"; "scikit_quantized"; "own_clf_quantized"]
                test_target true dir) as (rest & Ht & Hrest).
    cbn [app] in Ht. destruct (compare_events_use_one_file Ht Hrest) as (_ & Hr' & Hp').
    unfold report_files, parameter_files in *. rewrite !flat_map_app, Hr, Hp, Hr', Hp'.
    unfold report_event. destruct (is_RANDOM_FOREST_REGRESSOR clf_type); split; reflexivity.
  - rewrite (test_dataset_rejected Htrain Hs H1 H2). cbn [trace fst].
    unfold report_files, parameter_files in *. rewrite !flat_map_app, Hr, Hp.
    split; reflexivity.
Qed.
End TesterMore.
(** ** Further properties of the EMG loader *)

(** X10: every file of the directory whose name carries one of the four
    tags is put in exactly one of the four lists of files, and a file
    whose name carries none is put in none: the lists together have as many
    files as the directory has tagged files. *)
Theorem each_tagged_file_is_listed_once (dir : list DirEntry) :
  length (input_train_files dir) + length (output_train_files dir)
  + length (input_test_files dir) + length (output_test_files dir)
  = length (filter tagged dir).
Proof.
  unfold input_train_files, output_train_files, input_test_files, output_test_files,
    files_with.
  rewrite !length_map.
  set (p1 := fun f => contains "trainvalid_i" (file_name f) && _).
  set (p2 := fun f => contains "trainvalid_o" (file_name f) && _).
  set (p3 := fun f => contains "test_i" (file_name f) && _).
  set (p4 := fun f => contains "test_o" (file_name f) && _).
  induction dir as [| f dir IH]; [reflexivity |].
  cbn [filter]. unfold tagged at 1.
  assert (E1 : p1 f = contains "trainvalid_i" (file_name f))
    by (subst p1; cbn; apply andb_true_r).
  assert (E2 : p2 f = contains "trainvalid_o" (file_name f)
                      && negb (contains "trainvalid_i" (file_name f)))
    by (subst p2; cbn; rewrite andb_true_r; reflexivity).
  assert (E3 : p3 f = contains "test_i" (file_name f)
                      && (negb (contains "trainvalid_i" (file_name f))
                          && negb (contains "trainvalid_o" (file_name f))))
    by (subst p3; cbn; rewrite andb_true_r; reflexivity).
  assert (E4 : p4 f = contains "test_o" (file_name f)
                      && (negb (contains "trainvalid_i" (file_name f))
                          && (negb (contains "trainvalid_o" (file_name f))
                              && negb (contains "test_i" (file_name f)))))
    by (subst p4; cbn; rewrite andb_true_r; reflexivity).
  rewrite E1, E2, E3, E4.
  destruct (contains "trainvalid_i" (file_name f)),
           (contains "trainvalid_o" (file_name f)),
           (contains "test_i" (file_name f)),
           (contains "test_o" (file_name f));
    cbn [negb andb orb length]; lia.
Qed.

Lemma skipn_8_of_short (data : list (list Float)) :
  Forall (fun r => length r <= 8) data -> zero_crossings_entries data = [].
Proof.
  unfold zero_crossings_entries.
  induction 1 as [| r data Hr _ IH]; [reflexivity |].
  cbn [map concat]. rewrite IH, skipn_all2 by exact Hr. reflexivity.
Qed.

(** X12: on an array with at least one row whose rows all have eight
    columns or fewer, [_update_min_max] raises a [ValueError]: there is no
    zero-crossing column to take a minimum of. *)
Theorem update_min_max_needs_nine_columns self (data : list (list Float)) :
  data <> [] ->
  Forall (fun r => length r <= 8) data ->
  exists msg, _update_min_max self data = ([], inl (ValueError msg)).
Proof.
  intros Hne Hshort. unfold _update_min_max.
  destruct data as [| row rows]; [congruence |].
  unfold columns_to_8, columns_from_8. rewrite bind_ret_l.
  unfold amin at 1, amax at 1. fold (rms_entries (row :: rows)).
  destruct (rms_entries (row :: rows)) as [| x xs]; [eexists; reflexivity |].
  rewrite !bind_ret_l. unfold amin at 1.
  fold (zero_crossings_entries (row :: rows)).
  rewrite (skipn_8_of_short Hshort). eexists. reflexivity.
Qed.

Section LoaderMore.
Variable float : string -> option Float.




Lemma floats_error row t e :
  floats float row = (t, inl e) -> e = ValueError "could not convert string to float".
Proof.
  revert t. induction row as [| cell row IH]; intros t; simpl; [discriminate |].
  destruct (float cell); [| intros H; inversion H; reflexivity].
  destruct (floats float row) as [t' [e' | qs]]; simpl.
  - intros H. inversion H. subst. eapply IH. reflexivity.
  - discriminate.
Qed.

Lemma tuples_input_error rows e :
  tuples float false rows = inl e -> e = ValueError "could not convert string to float".
Proof.
  induction rows as [| row rows IH]; cbn [tuples]; [discriminate |].
  unfold row_tuple, outcome.
  destruct (floats float row) as [t [e' | qs]] eqn:Hrow; cbn [snd].
  - intros H. inversion H. subst. eapply floats_error. exact Hrow.
  - destruct (tuples float false rows) as [e' | ts]; [| discriminate].
    intros H. inversion H. subst. apply IH. reflexivity.
Qed.

(** [_load_files] on input files, as far as the call of [_update_min_max]. *)
Lemma load_files_input_eq self files :
  _load_files float self files false
  = match tuples float false (concat files) with
    | inl e => ([], inl e)
    | inr data =>
        bind (np_array data)
          (fun a => bind (_update_min_max self a) (fun s => ret (s, a)))
    end.
Proof.
  unfold _load_files. rewrite load_files_rows, load_rows_eq.
  destruct (tuples float false (concat files)) as [e | data]; [reflexivity |].
  cbn [bind app negb].
  match goal with |- (let (_, _) := ?X in _) = _ => destruct X; reflexivity end.
Qed.

(** X19: when a cell of a train input file is not the text of a number,
    [load_data] raises the [ValueError] of [float]. *)
Theorem unreadable_number_stops_the_load self dir :
  (exists row cell,
     In row (concat (input_train_files dir)) /\ In cell row /\ float cell = None) ->
  load_data float self dir
  = ([], inl (ValueError "could not convert string to float")).
Proof.
  intros (row & cell & Hrow & Hcell & Hnone).
  unfold load_data, load_arrays. rewrite load_files_input_eq.
  destruct (tuples float false (concat (input_train_files dir))) as [e | data] eqn:Ht.
  - rewrite (tuples_input_error _ Ht). reflexivity.
  - exfalso. apply tuples_input in Ht.
    destruct (Forall2_In_left row Ht Hrow) as (qs & _ & Hqs).
    destruct (Forall2_In_left cell Hqs Hcell) as (q & _ & Hq). congruence.
Qed.

(** X11: when the directory has no row of train input, because no file
    name carries the tag or the files are empty, [load_data] raises an
    [IndexError]. *)
Theorem no_train_input_is_an_IndexError self dir :
  concat (input_train_files dir) = [] ->
  load_data float self dir = ([], inl IndexError).
Proof.
  intros Hnone. unfold load_data, load_arrays.
  rewrite load_files_input_eq, Hnone. reflexivity.
Qed.






Lemma normalise_shape self data :
  Forall2 (fun row out => length out = length row) data (_normalise self data).
Proof.
  unfold _normalise. induction data as [| row data IH]; constructor; [| exact IH].
  rewrite length_app, !length_map, <- length_app, firstn_skipn. reflexivity.
Qed.


Lemma load_data_inr self0 dir t self train otr test ote :
  load_data float self0 dir = (t, inr (self, (train, otr, test, ote))) ->
  exists itr ite,
    load_arrays float self0 dir = ([], inr (self, (itr, otr, ite, ote)))
    /\ train = _normalise self itr /\ test = _normalise self ite.
Proof.
  unfold load_data. intros H. apply bind_inr in H.
  destruct H as (t1 & [s [[[itr o1] ite] o2]] & t2 & Harr & H & _).
  inversion H. subst. exists itr, ite. rewrite Harr, (no_events t1). auto.
Qed.

Lemma firstn_8_normalised self (row : list Float) :
  firstn 8
    (map (rescale (_min_rms self) (_max_rms self)) (firstn 8 row)
     ++ map (rescale (_min_zero_crossings self) (_max_zero_crossings self)) (skipn 8 row))
  = map (rescale (_min_rms self) (_max_rms self)) (firstn 8 row).
Proof.
  rewrite firstn_app, length_map, length_firstn.
  rewrite firstn_all2 by (rewrite length_map, length_firstn; lia).
  destruct (Nat.le_gt_cases 8 (length row)) as [Hlong | Hshort].
  - rewrite Nat.min_l by exact Hlong. rewrite Nat.sub_diag. apply app_nil_r.
  - rewrite skipn_all2 by lia. cbn [map]. rewrite firstn_nil. apply app_nil_r.
Qed.

(** What [_update_min_max] does to an object, when it returns. *)
Lemma update_min_max_inr s0 data t s1 :
  _update_min_max s0 data = (t, inr s1) ->
  rms_entries data <> [] /\ zero_crossings_entries data <> []
  /\ forall self,
       _update_min_max self data
       = ([], inr (widened (least (rms_entries data)) (greatest (rms_entries data))
                     (least (zero_crossings_entries data))
                     (greatest (zero_crossings_entries data)) self)).
Proof.
  intros H.
  assert (Hne : rms_entries data <> [] /\ zero_crossings_entries data <> []).
  { revert H. unfold _update_min_max.
    destruct data as [| row rows]; [discriminate |].
    unfold columns_to_8, columns_from_8. rewrite bind_ret_l.
    unfold amin at 1, amax at 1. fold (rms_entries (row :: rows)).
    destruct (rms_entries (row :: rows)) as [| x xs]; [discriminate |].
    rewrite !bind_ret_l. unfold amin, amax.
    fold (zero_crossings_entries (row :: rows)).
    destruct (zero_crossings_entries (row :: rows)) as [| y ys]; [discriminate |].
    intros _. split; discriminate. }
  destruct Hne as [Ne1 Ne2]. split; [exact Ne1 |]. split; [exact Ne2 |].
  clear H. intros self. unfold _update_min_max.
  destruct data as [| row rows]; [contradiction Ne1; reflexivity |].
  unfold columns_to_8, columns_from_8. rewrite bind_ret_l.
  unfold amin at 1, amax at 1. fold (rms_entries (row :: rows)).
  destruct (rms_entries (row :: rows)) as [| x xs] eqn:Er; [congruence |].
  rewrite !bind_ret_l. unfold amin, amax.
  fold (zero_crossings_entries (row :: rows)).
  destruct (zero_crossings_entries (row :: rows)) as [| y ys] eqn:Ez; [congruence |].
  rewrite !bind_ret_l.
  unfold widened, least, greatest.
  set (m1 := if existsb is_nan (x :: xs) then NaN else smallest x xs).
  set (M1 := if existsb is_nan (x :: xs) then NaN else largest x xs).
  set (m2 := if existsb is_nan (y :: ys) then NaN else smallest y ys).
  set (M2 := if existsb is_nan (y :: ys) then NaN else largest y ys).
  destruct self as [p mr Mr mz Mz].
  cbn [_min_rms _max_rms _min_zero_crossings _max_zero_crossings _path].
  destruct (f_lt m1 mr);
    cbn [_min_rms _max_rms _min_zero_crossings _max_zero_crossings _path];
    destruct (f_lt Mr M1);
    cbn [_min_rms _max_rms _min_zero_crossings _max_zero_crossings _path];
    destruct (f_lt m2 mz);
    cbn [_min_rms _max_rms _min_zero_crossings _max_zero_crossings _path];
    destruct (f_lt Mz M2); reflexivity.
Qed.

Lemma update_min_max_widened s0 data t s1 :
  _update_min_max s0 data = (t, inr s1) ->
  s1 = widened (least (rms_entries data)) (greatest (rms_entries data))
         (least (zero_crossings_entries data)) (greatest (zero_crossings_entries data)) s0.
Proof.
  intros H. destruct (update_min_max_inr _ _ H) as (_ & _ & E).
  rewrite E in H. congruence.
Qed.

Lemma constant_entries xs c :
  xs <> [] -> (forall x, In x xs -> x = c) -> is_nan c = false ->
  least xs = c /\ greatest xs = c.
Proof.
  intros Hne Hall Nc. destruct xs as [| x xs]; [congruence |].
  assert (N : numbers_only (x :: xs)).
  { apply Forall_forall. intros z Hz. rewrite (Hall z Hz). exact Nc. }
  unfold least, greatest. rewrite (proj2 (numbers_only_existsb (x :: xs)) N).
  destruct (smallest_spec N) as [S _]. destruct (largest_spec N) as [L _].
  split; apply Hall; assumption.
Qed.

Lemma Qlt_bool_irrefl q : Qlt_bool q q = false.
Proof. apply Qlt_bool_false, Qle_refl. Qed.

(** A quotient of zero by zero, or with [inf - inf], is [nan]. *)
Lemma rescale_of_equal_bounds lo hi :
  lo = hi \/ (exists l h, lo = Num l /\ hi = Num h /\ (l == h)%Q) ->
  rescale lo hi lo = NaN.
Proof.
  assert (Hq : forall l h, (l == h)%Q -> rescale (Num l) (Num h) (Num l) = NaN).
  { intros l h E. unfold rescale. cbn [f_sub].
    assert (E1 : round32 (l - l) = Num 0).
    { change (Num 0) with (round32 0). apply round_comp; [reflexivity | ring]. }
    assert (E2 : round32 (h - l) = Num 0).
    { change (Num 0) with (round32 0). apply round_comp; [reflexivity | rewrite E; ring]. }
    rewrite E1, E2. reflexivity. }
  intros [<- | (l & h & -> & -> & E)]; [| apply Hq, E].
  destruct lo as [q | s |]; [apply Hq; reflexivity | | reflexivity].
  unfold rescale. cbn [f_sub]. rewrite Bool.eqb_reflx. reflexivity.
Qed.

(** X15: when the RMS values of all the input rows loaded by a new object
    are one and the same value, not below zero, the division of line 81 is
    of zero by zero: [load_data] still returns, and every entry of the
    first eight columns of both feature matrices is [nan]. *)
Theorem constant_group_is_not_normalised path dir self itr otr ite ote c :
  outcome (load_arrays float (EMGRaw_init path) dir) = inr (self, (itr, otr, ite, ote)) ->
  f_le (Num 0) c ->
  (forall x, In x (rms_entries (itr ++ ite)) -> x = c) ->
  exists train test,
    outcome (load_data float (EMGRaw_init path) dir) = inr (self, (train, otr, test, ote))
    /\ Forall (fun row => Forall (fun e => e = NaN) (firstn 8 row)) train
    /\ Forall (fun row => Forall (fun e => e = NaN) (firstn 8 row)) test.
Proof.
  destruct (load_arrays float (EMGRaw_init path) dir) as [t r] eqn:H.
  cbn [outcome snd]. intros -> Hc Hall.
  assert (Nc : is_nan c = false) by apply (@f_le_not_nan _ _ Hc).
  destruct (load_arrays_inr _ _ _ H) as (_ & _ & s1 & H1 & H2).
  destruct (update_min_max_inr _ _ H1) as (Ne1 & _ & _).
  destruct (update_min_max_inr _ _ H2) as (Ne2 & _ & _).
  apply update_min_max_widened in H1, H2.
  rewrite rms_entries_app in Hall.
  destruct (@constant_entries (rms_entries itr) c Ne1) as [L1 G1];
    [intros x Hx; apply Hall, in_or_app; left; exact Hx | exact Nc |].
  destruct (@constant_entries (rms_entries ite) c Ne2) as [L2 G2];
    [intros x Hx; apply Hall, in_or_app; right; exact Hx | exact Nc |].
  rewrite L1, G1 in H1. rewrite L2, G2 in H2.
  assert (Hb : _min_rms self = c
               /\ (_max_rms self = c
                   \/ exists q, c = Num q /\ _max_rms self = Num 0 /\ (q == 0)%Q)).
  { subst self s1. unfold widened.
    cbn [EMGRaw_init _min_rms _max_rms _min_zero_crossings _max_zero_crossings _path].
    destruct c as [q | [|] |]; cbn [f_le] in Hc; try contradiction.
    - cbn [f_lt negb]. rewrite Qlt_bool_irrefl.
      destruct (Qlt_bool 0 q) eqn:E0.
      + cbn [f_lt]. rewrite Qlt_bool_irrefl. split; [reflexivity | left; reflexivity].
      + cbn [f_lt]. rewrite E0. split; [reflexivity |]. right. exists q.
        apply Qlt_bool_false in E0. repeat split. lra.
    - cbn [f_lt negb andb]. split; [reflexivity | left; reflexivity]. }
  destruct Hb as [Hlo Hhi].
  exists (_normalise self itr), (_normalise self ite).
  rewrite (load_data_eq _ _ _ H). split; [reflexivity |].
  assert (Hnan : rescale (_min_rms self) (_max_rms self) c = NaN).
  { rewrite Hlo. apply rescale_of_equal_bounds.
    destruct Hhi as [-> | (q & Eq & -> & E)]; [left; reflexivity |].
    right. exists q, 0%Q. repeat split; assumption. }
  assert (Hrows : forall data, incl (rms_entries data) (rms_entries itr ++ rms_entries ite) ->
             Forall (fun row => Forall (fun e => e = NaN) (firstn 8 row))
               (_normalise self data)).
  { intros data Hincl. unfold _normalise. apply Forall_forall. intros out Hout.
    apply in_map_iff in Hout. destruct Hout as (row & <- & Hrow).
    rewrite firstn_8_normalised. apply Forall_forall. intros e He.
    apply in_map_iff in He. destruct He as (x & <- & Hx).
    assert (Ex : x = c).
    { apply Hall, Hincl. unfold rms_entries. apply in_concat. exists (firstn 8 row).
      split; [apply in_map, Hrow | exact Hx]. }
    rewrite Ex. exact Hnan. }
  split; apply Hrows; [apply incl_appl, incl_refl | apply incl_appr, incl_refl].
Qed.
End LoaderMore.

Lemma f_div_mono a a' b :
  f_le a a' -> (0 < b)%Q ->
  f_le (f_div round32 a (Num b)) (f_div round32 a' (Num b)).
Proof.
  intros Ha Hb.
  assert (Ez : Qeq_bool b 0 = false).
  { destruct (Qeq_bool b 0) eqn:E; [| reflexivity]. apply Qeq_bool_eq in E. lra. }
  assert (En : Qlt_bool b 0 = false) by (apply Qlt_bool_false; lra).
  destruct a as [x | [|] |], a' as [y | [|] |]; cbn [f_le] in Ha; try contradiction;
    cbn [f_div]; rewrite ?Ez, ?En; cbn [xorb f_le]; try exact I.
  - apply round32_mono. apply Qdiv_le_compat; assumption.
  - pose proof (round32_not_nan (x / b)) as N.
    destruct (round32 (x / b)) as [r | [|] |]; try exact I; discriminate.
  - pose proof (round32_not_nan (y / b)) as N.
    destruct (round32 (y / b)) as [r | [|] |]; try exact I; discriminate.
Qed.

(** X16: for two [float32] bounds, the lower one below the upper one, whose
    difference is finite in [float32], the formula of lines 81-82 keeps the
    order of the values and maps the lower bound to 0 and the upper bound
    to 1. *)
Theorem rescale_keeps_the_order l h x y :
  float32_value (Num l) -> float32_value (Num h) ->
  (l < h)%Q -> is_finite (f_sub round32 (Num h) (Num l)) = true ->
  (x <= y)%Q ->
  f_le (rescale (Num l) (Num h) (Num x)) (rescale (Num l) (Num h) (Num y))
  /\ rescale (Num l) (Num h) (Num l) = Num 0
  /\ rescale (Num l) (Num h) (Num h) = Num 1.
Proof.
  intros Vl Vh Hlh Hfin Hxy. unfold rescale. cbn [f_sub] in *.
  pose proof (float32_difference_positive Vl Vh Hlh) as Hpos.
  destruct (round32 (h - l)) as [b | |] eqn:Eb; try discriminate.
  cbn [f_lt] in Hpos. apply Qlt_bool_iff in Hpos.
  assert (Ez : Qeq_bool b 0 = false).
  { destruct (Qeq_bool b 0) eqn:E; [| reflexivity]. apply Qeq_bool_eq in E. lra. }
  split; [apply f_div_mono; [apply round32_mono; lra | exact Hpos] |].
  assert (E0 : round32 (l - l) = Num 0).
  { change (Num 0) with (round32 0). apply round_comp; [reflexivity | ring]. }
  rewrite E0. cbn [f_div]. rewrite Ez. split.
  - change (Num 0) with (round32 0). apply round_comp; [reflexivity |].
    unfold Qdiv. ring.
  - change (Num 1) with (round32 1). apply round_comp; [reflexivity |].
    apply Qmult_inv_r. lra.
Qed.

Lemma index_after_zeros k rest : index (repeat "0" k ++ "1" :: rest) "1" = Some k.
Proof.
  induction k as [| k IH]; [reflexivity |].
  cbn [repeat app index]. rewrite IH. reflexivity.
Qed.

Lemma index_one_hot n k : index (one_hot n k) "1" = Some k.
Proof. apply index_after_zeros. Qed.

Lemma tuples_one_hot float n ks :
  tuples float true (map (one_hot n) ks)
  = inr (map (fun k => [Num (inject_Z (Z.of_nat k))]) ks).
Proof.
  induction ks as [| k ks IH]; [reflexivity |].
  cbn [map tuples]. unfold row_tuple. rewrite index_one_hot, IH. reflexivity.
Qed.

(** X17: decoding undoes one-hot encoding. On target files whose rows are
    the one-hot rows of the classes [kss], file by file, [_load_files]
    returns these classes, one per row, in the order of the files, and
    leaves the object as it is. *)
Theorem one_hot_rows_decode_to_their_class float self n (kss : list (list nat)) :
  _load_files float self (map (map (one_hot n)) kss) true
  = ([], inr (self, map label_of (concat kss))).
Proof.
  rewrite load_files_output_eq, <- concat_map, tuples_one_hot, map_map. reflexivity.
Qed.

Lemma widened_twice m1 M1 m2 M2 self :
  widened m1 M1 m2 M2 (widened m1 M1 m2 M2 self) = widened m1 M1 m2 M2 self.
Proof.
  destruct self as [p mr Mr mz Mz]. unfold widened.
  cbn [_min_rms _max_rms _min_zero_crossings _max_zero_crossings _path].
  destruct (f_lt m1 mr) eqn:E1, (f_lt Mr M1) eqn:E2, (f_lt m2 mz) eqn:E3,
    (f_lt Mz M2) eqn:E4;
    rewrite ?f_lt_irrefl, ?E1, ?E2, ?E3, ?E4; reflexivity.
Qed.

(** X18: [_update_min_max] with an array it has just been given changes
    nothing: the bounds only move when a value lies outside them. *)
Theorem update_min_max_twice_is_once self data t self1 :
  _update_min_max self data = (t, inr self1) ->
  _update_min_max self1 data = ([], inr self1).
Proof.
  intros H. destruct (update_min_max_inr _ _ H) as (_ & _ & E).
  rewrite (update_min_max_widened _ _ H), E, widened_twice. reflexivity.
Qed.
(** ** Properties of [normalise_data] *)

Section NormaliseFacts.
Variable rnd : Q -> Float.
Variable minmax_scale : list (list Float) -> list (list Float).




End NormaliseFacts.
(** ** The further properties at concrete inputs *)

Lemma log_holds_one_entry_per_wrong_sample_witness :
  well_shaped example_target example_results example_names
  /\ returns
       (_compare_with_own_classifier Z.eq_dec example_results example_names
          example_target true "out")
       (fun t _ =>
          written t
          = [DifferenceBetweenVersions; GroundTrue 2%Z; VariantLine "scikit" 2%Z;
             VariantLine "scikit_quantized" 2%Z; VariantLine "own_clf_quantized" 5%Z;
             DifferenceBetweenVersions; GroundTrue 3%Z; VariantLine "scikit" 3%Z;
             VariantLine "scikit_quantized" 4%Z; VariantLine "own_clf_quantized" 4%Z]).
Proof.
  split; [exact example_well_shaped |].
  exact (log_holds_one_entry_per_wrong_sample Z.eq_dec true example_well_shaped "out").
Defined.

Lemma differences_are_bounded_by_the_errors_witness :
  length [1; 2; 4]%Z = length example_target
  /\ length [1; 5; 4]%Z = length example_target
  /\ count_differences Z.eq_dec [1; 2; 4]%Z [1; 5; 4]%Z
     <= mismatches Z.eq_dec example_target [1; 2; 4]%Z
        + mismatches Z.eq_dec example_target [1; 5; 4]%Z.
Proof.
  split; [reflexivity |]. split; [reflexivity |].
  exact (differences_are_bounded_by_the_errors Z.eq_dec example_target
           [1; 2; 4]%Z [1; 5; 4]%Z eq_refl eq_refl).
Defined.


Lemma rejected_estimator_stops_the_run_witness :
  [[1; 7]; [2; 7]]%Z <> @nil (list Z)
  /\ supported (est_class (example_get_classifier RANDOM_FOREST_REGRESSOR None (Some 100%Z)))
     = false
  /\ length [1; 2]%Z
     = length (example_predict
                 (fit (example_get_classifier RANDOM_FOREST_REGRESSOR None (Some 100%Z))
                    [[1; 7]; [2; 7]]%Z [1; 2]%Z)
                 [[1; 7]; [3; 7]]%Z)
  /\ outcome (example_run RANDOM_FOREST_REGRESSOR)
     = inl (ValueError "Unknown type of classifier!")
  /\ compare_calls (trace (example_run RANDOM_FOREST_REGRESSOR)) = [].
Proof.
  split; [exact example_train_data_has_a_row |]. split; [reflexivity |].
  split; [reflexivity |].
  destruct (@rejected_estimator_stops_the_run Z Z.eq_dec Z example_get_classifier
              example_predict example_own_predict example_quantize_data example_join
              (fun _ => false) example_str_int 8%Z
              [[1; 7]; [2; 7]]%Z [[1; 7]; [3; 7]]%Z [1; 2]%Z [1; 2]%Z
              RANDOM_FOREST_REGRESSOR None (Some 100%Z) "vhdl" "EMGRaw"
              example_train_data_has_a_row eq_refl eq_refl eq_refl) as (Ho & _ & _ & _ & Hc).
  split; [exact Ho | exact Hc].
Defined.

Lemma own_classifier_is_reported_on_stdout_only_witness :
  [[1; 7]; [2; 7]]%Z <> @nil (list Z)
  /\ length [1; 2]%Z
     = length (example_predict
                 (fit (example_get_classifier RANDOM_FOREST None (Some 100%Z))
                    [[1; 7]; [2; 7]]%Z [1; 2]%Z)
                 [[1; 7]; [3; 7]]%Z)
  /\ (forall my_clf : OwnClassifier Z Z,
        length [1; 2]%Z = length (example_own_predict my_clf [[1; 7]; [3; 7]]%Z))
  /\ report_files (trace (example_run RANDOM_FOREST))
     = [Some "vhdl/EMGRaw_8_RANDOM_FOREST_None_100/score.txt";
        Some "vhdl/EMGRaw_8_RANDOM_FOREST_None_100/score.txt"; None]
  /\ parameter_files (trace (example_run RANDOM_FOREST)) = [None].
Proof.
  split; [exact example_train_data_has_a_row |].
  split; [reflexivity |]. split; [intros my_clf; reflexivity |].
  exact (@own_classifier_is_reported_on_stdout_only Z Z.eq_dec Z example_get_classifier
           example_predict example_own_predict example_quantize_data example_join
           (fun _ => false) example_str_int 8%Z
           [[1; 7]; [2; 7]]%Z [[1; 7]; [3; 7]]%Z [1; 2]%Z [1; 2]%Z
           RANDOM_FOREST None (Some 100%Z) "vhdl" "EMGRaw"
           example_train_data_has_a_row eq_refl eq_refl (fun _ => eq_refl)).
Defined.

Lemma no_train_input_is_an_IndexError_witness :
  concat (input_train_files emg_directory_without_train) = []
  /\ load_data float_of_numeral (EMGRaw_init "emg") emg_directory_without_train
     = ([], inl IndexError).
Proof.
  split; [reflexivity |].
  exact (@no_train_input_is_an_IndexError float_of_numeral (EMGRaw_init "emg")
           emg_directory_without_train eq_refl).
Defined.

Lemma update_min_max_needs_nine_columns_witness :
  [[Num 1; Num 2]; [Num 3]] <> []
  /\ Forall (fun r : list Float => length r <= 8) [[Num 1; Num 2]; [Num 3]]
  /\ exists msg,
       _update_min_max (EMGRaw_init "emg") [[Num 1; Num 2]; [Num 3]]
       = ([], inl (ValueError msg)).
Proof.
  assert (H1 : [[Num 1; Num 2]; [Num 3]] <> []) by discriminate.
  assert (H2 : Forall (fun r : list Float => length r <= 8) [[Num 1; Num 2]; [Num 3]])
    by (repeat constructor; simpl; lia).
  split; [exact H1 |]. split; [exact H2 |].
  exact (@update_min_max_needs_nine_columns (EMGRaw_init "emg")
           [[Num 1; Num 2]; [Num 3]] H1 H2).
Defined.








Lemma emg_constant_directory_loads :
  outcome (load_arrays float_of_numeral (EMGRaw_init "emg") emg_constant_directory)
  = inr (emg_constant_object,
         (emg_constant_train_array, [[Num 1]], emg_constant_test_array, [[Num 0]])).
Proof. vm_compute. reflexivity. Defined.

Lemma emg_constant_directory_rms (x : Float) :
  In x (rms_entries (emg_constant_train_array ++ emg_constant_test_array)) -> x = Num 1.
Proof.
  intros H. simpl in H.
  repeat (destruct H as [<- | H]; [reflexivity |]). destruct H.
Defined.

Lemma zero_le_one_float : f_le (Num 0) (Num 1).
Proof. unfold f_le, Qle. simpl. lia. Defined.

Lemma constant_group_is_not_normalised_witness :
  outcome (load_arrays float_of_numeral (EMGRaw_init "emg") emg_constant_directory)
  = inr (emg_constant_object,
         (emg_constant_train_array, [[Num 1]], emg_constant_test_array, [[Num 0]]))
  /\ f_le (Num 0) (Num 1)
  /\ (forall x,
        In x (rms_entries (emg_constant_train_array ++ emg_constant_test_array)) ->
        x = Num 1)
  /\ exists train test,
       outcome (load_data float_of_numeral (EMGRaw_init "emg") emg_constant_directory)
       = inr (emg_constant_object, (train, [[Num 1]], test, [[Num 0]]))
       /\ Forall (fun row => Forall (fun e => e = NaN) (firstn 8 row)) train
       /\ Forall (fun row => Forall (fun e => e = NaN) (firstn 8 row)) test.
Proof.
  split; [exact emg_constant_directory_loads |]. split; [exact zero_le_one_float |].
  split; [exact emg_constant_directory_rms |].
  exact (@constant_group_is_not_normalised float_of_numeral "emg" emg_constant_directory
           _ _ _ _ _ (Num 1) emg_constant_directory_loads zero_le_one_float
           emg_constant_directory_rms).
Defined.

Lemma four_is_a_float32_value : float32_value (Num 4).
Proof. exists (Num 4). vm_compute. reflexivity. Defined.

Lemma zero_is_a_float32_value : float32_value (Num 0).
Proof. exists (Num 0). vm_compute. reflexivity. Defined.

Lemma rescale_keeps_the_order_witness :
  float32_value (Num 0) /\ float32_value (Num 4)
  /\ (0 < 4)%Q /\ is_finite (f_sub round32 (Num 4) (Num 0)) = true /\ (1 <= 2)%Q
  /\ f_le (rescale (Num 0) (Num 4) (Num 1)) (rescale (Num 0) (Num 4) (Num 2))
  /\ rescale (Num 0) (Num 4) (Num 0) = Num 0
  /\ rescale (Num 0) (Num 4) (Num 4) = Num 1.
Proof.
  assert (H1 : (0 < 4)%Q) by (unfold Qlt; simpl; lia).
  assert (H2 : is_finite (f_sub round32 (Num 4) (Num 0)) = true)
    by (vm_compute; reflexivity).
  assert (H3 : (1 <= 2)%Q) by (unfold Qle; simpl; lia).
  split; [exact zero_is_a_float32_value |]. split; [exact four_is_a_float32_value |].
  split; [exact H1 |]. split; [exact H2 |]. split; [exact H3 |].
  exact (@rescale_keeps_the_order 0%Q 4%Q 1%Q 2%Q zero_is_a_float32_value
           four_is_a_float32_value H1 H2 H3).
Defined.

Lemma emg_train_array_moves_the_bounds :
  _update_min_max (EMGRaw_init "emg") emg_train_array
  = ([], inr (mkEMGRaw "emg" (Num 0) (Num 2) (Num 1) (Num 3))).
Proof. vm_compute. reflexivity. Defined.

Lemma update_min_max_twice_is_once_witness :
  _update_min_max (EMGRaw_init "emg") emg_train_array
  = ([], inr (mkEMGRaw "emg" (Num 0) (Num 2) (Num 1) (Num 3)))
  /\ _update_min_max (mkEMGRaw "emg" (Num 0) (Num 2) (Num 1) (Num 3)) emg_train_array
     = ([], inr (mkEMGRaw "emg" (Num 0) (Num 2) (Num 1) (Num 3))).
Proof.
  split; [exact emg_train_array_moves_the_bounds |].
  exact (@update_min_max_twice_is_once (EMGRaw_init "emg") emg_train_array [] _
           emg_train_array_moves_the_bounds).
Defined.

Lemma emg_directory_with_text_has_text :
  exists row cell,
    In row (concat (input_train_files emg_directory_with_text))
    /\ In cell row /\ float_of_numeral cell = None.
Proof.
  exists ["1"; "x"; "1"; "1"; "1"; "1"; "1"; "1"; "2"; "2"], "x".
  split; [simpl; auto |]. split; [simpl; auto | reflexivity].
Defined.

Lemma unreadable_number_stops_the_load_witness :
  (exists row cell,
     In row (concat (input_train_files emg_directory_with_text))
     /\ In cell row /\ float_of_numeral cell = None)
  /\ load_data float_of_numeral (EMGRaw_init "emg") emg_directory_with_text
     = ([], inl (ValueError "could not convert string to float")).
Proof.
  split; [exact emg_directory_with_text_has_text |].
  exact (@unreadable_number_stops_the_load float_of_numeral (EMGRaw_init "emg")
           emg_directory_with_text emg_directory_with_text_has_text).
Defined.



